(** * Humminbird waypoint / route / track codec (humminbird.cc)

    A shallow embedding of the record codec of [humminbird.cc] and the
    properties of its read and write paths.

    Conventions of the embedding.
    - A byte is a [Z] in [0, 256); a file is a list of bytes with a read
      position.
    - Fixed-width integers are [Z] with the wrap-around written out
      ([to_uint16], [to_int16], [to_int32], ...).
    - The projection between (latitude, longitude) and the integer pair
      (north, east) is double-precision trigonometry.  A [Waypoint] of the
      model carries the integer pair itself: on the read path it is the
      argument handed to [gudermannian_i1924] / the [EAST_SCALE] division, on
      the write path it is the result of the two [qRound] calls.
    - [fatal] ends the run: functions return an [outcome].  An access outside
      an array is undefined behaviour in the source; the model stops with
      [Fault] there, so that it can be observed. *)

From Stdlib Require Import ZArith List Ascii String Lia.
From stdpp Require Import base list gmap strings.

Local Open Scope Z_scope.

(** ** Outcomes *)

Inductive fatal_msg : Type :=
| UnexpectedEOF              (* "Unexpected end of file!" *)
| UnexpectedEOFHeader        (* "Unexpected end of file reading header!" *)
| UnexpectedEOFPoints        (* "Unexpected end of file reading points!" *)
| TooManyTrackPoints (n : Z) (* "Too many track points! (%d)" *)
| InvalidRecordHeader (signature : Z)
| RouteLimit.                (* "routes are limited to %d points" *)

Inductive fault : Type :=
| LoadOutOfBounds (index len : nat)
| StoreOutOfBounds (index len : nat)
| NegativeReadCount (members : Z)
| LoadUninitialised (got : Z).

Inductive outcome (A : Type) : Type :=
| Ok (a : A)
| Fatal (m : fatal_msg)
| Fault (f : fault).

Arguments Ok {A} a.
Arguments Fatal {A} m.
Arguments Fault {A} f.

#[global] Instance outcome_bind : MBind outcome := fun A B k x =>
  match x with
  | Ok a => k a
  | Fatal m => Fatal m
  | Fault f => Fault f
  end.

#[global] Instance outcome_ret : MRet outcome := fun A a => Ok a.

Definition is_Ok {A} (x : outcome A) : Prop :=
  match x with Ok _ => True | _ => False end.

(** ** Fixed-width integers *)

Definition to_uint8 (z : Z) : Z := z mod 256.
Definition to_uint16 (z : Z) : Z := z mod 65536.
Definition to_uint32 (z : Z) : Z := z mod 4294967296.

Definition to_int8 (z : Z) : Z :=
  let m := z mod 256 in if m <? 128 then m else m - 256.
Definition to_int16 (z : Z) : Z :=
  let m := z mod 65536 in if m <? 32768 then m else m - 65536.
Definition to_int32 (z : Z) : Z :=
  let m := z mod 4294967296 in if m <? 2147483648 then m else m - 4294967296.

(** Big-endian accessors of defs.h, on the bytes found at the address. *)
Definition be_read16 (p : list Z) : Z :=
  match p with
  | b0 :: b1 :: _ => b0 * 256 + b1
  | _ => 0
  end.

Definition be_read32 (p : list Z) : Z :=
  match p with
  | b0 :: b1 :: b2 :: b3 :: _ => ((b0 * 256 + b1) * 256 + b2) * 256 + b3
  | _ => 0
  end.

Definition be_write16 (v : Z) : list Z :=
  [(v / 256) mod 256; v mod 256].

Definition be_write32 (v : Z) : list Z :=
  [(v / 16777216) mod 256; (v / 65536) mod 256; (v / 256) mod 256; v mod 256].

(** ** Sizes of the on-disk structures

    The structures are read and written as raw memory, so their size is the
    sum of their members (no member needs padding). *)

Definition WPT_NAME_LEN : Z := 12.
Definition RTE_NAME_LEN : Z := 20.
Definition TRK_NAME_LEN : Z := 20.
Definition MAX_RTE_POINTS : Z := 50.

Definition TRK_MAGIC : Z := 0x01030000.
Definition TRK_MAGIC2 : Z := 0x01021F70.
Definition WPT_MAGIC : Z := 0x02020024.
Definition WPT_MAGIC2 : Z := 0x02030024.
Definition RTE_MAGIC : Z := 0x03030088.

(* num, zero : u16; status, icon : u8; depth : u16; time : u32;
   east, north : i32; name[12] *)
Definition sizeof_waypt : Z := 2 + 2 + 1 + 1 + 2 + 4 + 4 + 4 + WPT_NAME_LEN.

(* num, zero : u16; status, U0, U1 : u8; count : i8; time : u32; name[20];
   points[50] : u16 *)
Definition sizeof_rte : Z :=
  2 + 2 + 1 + 1 + 1 + 1 + 4 + RTE_NAME_LEN + 2 * MAX_RTE_POINTS.

(* trk_num, zero, num_points, unknown : u16; time : u32;
   start/end/sw/ne east+north : i32 x 8; name[20].
   "68 bytes, incl signature": the signature is not a member. *)
Definition sizeof_trk_header : Z := 2 + 2 + 2 + 2 + 4 + 4 * 8 + 20.

(* deltaeast, deltanorth : i16; depth : u16 *)
Definition sizeof_trk_point : Z := 2 + 2 + 2.

(* trk_num, zero, num_points, unknown : u16; time : u32;
   start/end east+north : i32 x 4 *)
Definition sizeof_trk_header_old : Z := 2 + 2 + 2 + 2 + 4 + 4 * 4.

(* deltaeast, deltanorth : i16 *)
Definition sizeof_trk_point_old : Z := 2 + 2.

Definition sizeof_uint32 : Z := 4.

(** [max_points] of humminbird_read_track, humminbird_track_head and
    humminbird_track_tail. *)
Definition max_points : Z :=
  (131080 - sizeof_uint32 - sizeof_trk_header) / sizeof_trk_point.

(** [file_len] and [max_points] of humminbird_read_track_old. *)
Definition file_len : Z := 8048.
Definition max_points_old : Z :=
  (file_len - (sizeof_trk_header_old + sizeof_uint32 + TRK_NAME_LEN))
  / sizeof_trk_point_old.

(** ** The byte stream

    Modelled from the spec: gbfread, gbfeof, gbfseek and gbfgetuint32 belong
    to the buffered file layer (gbfile), which is not part of this file.  The
    spec names it a sequential, seekable byte stream with an end-of-stream
    query.  [gbfread] follows the contract its callers rely on: it returns the
    number of whole members transferred, 0 at end of stream. *)

Record gbfile : Type := mk_gbfile {
  gb_data : list Z;
  gb_pos : nat
}.

Definition gb_rest (f : gbfile) : list Z := drop (gb_pos f) (gb_data f).

Definition gb_remaining (f : gbfile) : nat := length (gb_rest f).

Definition gbfeof (f : gbfile) : bool := Nat.eqb (gb_remaining f) 0.

Definition gb_advance (n : nat) (f : gbfile) : gbfile :=
  {| gb_data := gb_data f; gb_pos := (gb_pos f + n)%nat |}.

(** gbfread(buf, size, members, file): members read, bytes stored, file. *)
Definition gbfread (size members : Z) (f : gbfile) : Z * list Z * gbfile :=
  let bytes := take (Z.to_nat (size * members)) (gb_rest f) in
  (Z.of_nat (length bytes) / size, bytes, gb_advance (length bytes) f).

Definition gbfseek (offset : Z) (f : gbfile) : gbfile :=
  {| gb_data := gb_data f; gb_pos := Z.to_nat offset |}.

(** gbfgetuint32 on a big-endian file; a truncated read is fatal. *)
Definition gbfgetuint32 (f : gbfile) : outcome (Z * gbfile) :=
  let '(got, bytes, f') := gbfread 1 4 f in
  if got <? 4 then Fatal UnexpectedEOF else Ok (be_read32 bytes, f').

(** A zero-initialised structure of [size] bytes after [bytes] were read
    into it. *)
Definition fill_struct (size : Z) (bytes : list Z) : list Z :=
  take (Z.to_nat size) (bytes ++ replicate (Z.to_nat size) 0).

(** The member of [len] bytes at offset [off]. *)
Definition field (buf : list Z) (off len : nat) : list Z :=
  take len (drop off buf).

Definition byte_at (buf : list Z) (off : nat) : Z :=
  match buf !! off with Some b => b | None => 0 end.

(** QByteArray(s, qstrnlen(s, sizeof s)): the bytes before the first NUL. *)
Fixpoint c_str (s : list Z) : list Z :=
  match s with
  | [] => []
  | b :: r => if b =? 0 then [] else b :: c_str r
  end.

(** strncpy(dst, src, n - 1) into a zeroed member of [n] bytes. *)
Definition strncpy_field (n : nat) (src : list Z) : list Z :=
  take n (take (n - 1) (c_str src) ++ replicate n 0).

(** ** The in-memory model of gpsbabel *)

Record Waypoint : Type := mkWaypoint {
  shortname : list Z;
  creation_time : option Z;      (* seconds; None: invalid *)
  north : Z;                     (* latitude, as projected integer *)
  east : Z;                      (* longitude, as projected integer *)
  depth : option Z;              (* centimetres; set_depth(cm / 100.0) *)
  icon_descr : option string     (* None: null QString *)
}.

Record route_head : Type := mk_route_head {
  rte_name : list Z;
  rte_num : Z;
  rte_waypts : list Waypoint
}.

(** ** Read path *)

(** The reader: the input file, the waypoint, route and track lists of
    gpsbabel, the number-to-waypoint hash, and the warnings printed. *)
Record reader : Type := mk_reader {
  fin_ : gbfile;
  waypts : list Waypoint;
  wpt_num_to_wpt_hash : gmap Z Waypoint;
  routes : list route_head;
  tracks : list route_head;
  warnings : list string
}.

Definition humminbird_rd_init (data : list Z) : reader :=
  {| fin_ := {| gb_data := data; gb_pos := 0 |};
     waypts := []; wpt_num_to_wpt_hash := ∅;
     routes := []; tracks := []; warnings := [] |}.

Definition set_fin (f : gbfile) (st : reader) : reader :=
  {| fin_ := f; waypts := waypts st;
     wpt_num_to_wpt_hash := wpt_num_to_wpt_hash st;
     routes := routes st; tracks := tracks st; warnings := warnings st |}.

Definition waypt_add (wpt : Waypoint) (st : reader) : reader :=
  {| fin_ := fin_ st; waypts := waypts st ++ [wpt];
     wpt_num_to_wpt_hash := wpt_num_to_wpt_hash st;
     routes := routes st; tracks := tracks st; warnings := warnings st |}.

Definition hash_insert (num : Z) (wpt : Waypoint) (st : reader) : reader :=
  {| fin_ := fin_ st; waypts := waypts st;
     wpt_num_to_wpt_hash := <[num := wpt]> (wpt_num_to_wpt_hash st);
     routes := routes st; tracks := tracks st; warnings := warnings st |}.

Definition route_add (rte : route_head) (st : reader) : reader :=
  {| fin_ := fin_ st; waypts := waypts st;
     wpt_num_to_wpt_hash := wpt_num_to_wpt_hash st;
     routes := routes st ++ [rte]; tracks := tracks st;
     warnings := warnings st |}.

Definition track_add (trk : route_head) (st : reader) : reader :=
  {| fin_ := fin_ st; waypts := waypts st;
     wpt_num_to_wpt_hash := wpt_num_to_wpt_hash st;
     routes := routes st; tracks := tracks st ++ [trk];
     warnings := warnings st |}.

Section Icons.

(** The icon table [humminbird_icons] is declared in humminbird.h; the codec
    is taken over any table. *)
Variable humminbird_icons : list string.

Definition humminbird_read_wpt (st : reader) : outcome reader :=
  let '(got, bytes, fin') := gbfread 1 sizeof_waypt (fin_ st) in
  if got =? 0 then Fatal UnexpectedEOF else
  let w := fill_struct sizeof_waypt bytes in
  let w_num := be_read16 (field w 0 2) in
  let w_status := byte_at w 4 in
  let w_icon := byte_at w 5 in
  let w_depth := be_read16 (field w 6 2) in
  let w_time := be_read32 (field w 8 4) in
  let w_east := to_int32 (be_read32 (field w 12 4)) in
  let w_north := to_int32 (be_read32 (field w 16 4)) in
  let w_name := field w 20 12 in
  let wpt :=
    {| shortname := c_str w_name;
       creation_time := Some w_time;
       north := w_north;
       east := w_east;
       depth := if w_depth =? 0 then None else Some w_depth;
       icon_descr :=
         if w_icon <? Z.of_nat (length humminbird_icons)
         then humminbird_icons !! Z.to_nat w_icon else None |} in
  let st := set_fin fin' st in
  match w_status with
  | 0 => Ok st                          (* not used: delete wpt *)
  | 1 | 2 | 3 =>                        (* permanent, temporary, MOB *)
    Ok (hash_insert w_num wpt (waypt_add wpt st))
  | _ => Ok st                          (* 16, 17, 63, default: delete wpt *)
  end.

End Icons.

(** Default-constructed objects of gpsbabel. *)
Definition new_Waypoint : Waypoint :=
  {| shortname := []; creation_time := None; north := 0; east := 0;
     depth := None; icon_descr := None |}.

Definition new_route_head : route_head :=
  {| rte_name := []; rte_num := 0; rte_waypts := [] |}.

Definition route_add_wpt (rte : route_head) (wpt : Waypoint) : route_head :=
  {| rte_name := rte_name rte; rte_num := rte_num rte;
     rte_waypts := rte_waypts rte ++ [wpt] |}.

(** *** Routes *)

(** [hrte.points]: the 50 words of the member at offset 32. *)
Definition hrte_points (hrte : list Z) : list Z :=
  map (fun i => be_read16 (field hrte (32 + 2 * i) 2))
      (seq 0 (Z.to_nat MAX_RTE_POINTS)).

(** The body of [for (int i = 0; i < hrte.count; i++)], [k] iterations from
    index [i].  The route is created (and added to the route list) when the
    first point resolves; it is returned here and added by the caller. *)
Fixpoint read_route_points (k i : nat) (points : list Z)
    (hash : gmap Z Waypoint) (name : list Z) (rte : option route_head)
    : outcome (option route_head) :=
  match k with
  | O => Ok rte
  | S k' =>
    match points !! i with
    | None => Fault (LoadOutOfBounds i (length points))
    | Some num =>
      let rte' :=
        match hash !! num with
        | Some wpt =>
          let r := match rte with
                   | Some r => r
                   | None =>
                     {| rte_name := c_str name; rte_num := 0;
                        rte_waypts := [] |}
                   end in
          Some (route_add_wpt r wpt)          (* a copy of wpt *)
        | None => rte
        end in
      read_route_points k' (S i) points hash name rte'
    end
  end.

Definition humminbird_read_route (st : reader) : outcome reader :=
  let '(got, bytes, fin') := gbfread 1 sizeof_rte (fin_ st) in
  if got =? 0 then Fatal UnexpectedEOF else
  let hrte := fill_struct sizeof_rte bytes in
  let count := to_int8 (byte_at hrte 7) in
  let name := field hrte 12 20 in
  let st := set_fin fin' st in
  if count >? 0 then
    rte ← read_route_points (Z.to_nat count) 0 (hrte_points hrte)
            (wpt_num_to_wpt_hash st) name None;
    match rte with
    | Some r => Ok (route_add r st)
    | None => Ok st
    end
  else Ok st.

(** *** Tracks, new format *)

(** A cell of the point array.  A member holds the 16-bit word that
    [be_read16] finds at its address. *)
Record humminbird_trk_point_t : Type := mk_trk_point {
  deltaeast : Z;
  deltanorth : Z;
  pt_depth : Z
}.

Definition zero_point : humminbird_trk_point_t :=
  {| deltaeast := 0; deltanorth := 0; pt_depth := 0 |}.

Definition parse_trk_point (b : list Z) : humminbird_trk_point_t :=
  {| deltaeast := be_read16 (field b 0 2);
     deltanorth := be_read16 (field b 2 2);
     pt_depth := be_read16 (field b 4 2) |}.

(** [new humminbird_trk_point_t[n]()] after [bytes] were read into it. *)
Definition points_array (n : nat) (bytes : list Z)
    : list humminbird_trk_point_t :=
  let buf := fill_struct (sizeof_trk_point * Z.of_nat n) bytes in
  map (fun i => parse_trk_point (field buf (6 * i) 6)) (seq 0 n).

(** The freak-value filter on one axis: the value used for point i and the
    word left in the cell of point i+1. *)
Definition freak_filter (cur next_word : Z) : Z * Z :=
  if (cur =? 32767) && (to_int16 next_word =? -32768)
  then (-1, 0)
  else (cur, next_word).

(** The body of [for (int i = 0; i < th.num_points-1; i++)], [k] iterations
    from index [i]; [out] are the waypoints added to the track so far. *)
Fixpoint read_track_points (k i : nat) (num_points time : Z)
    (points : list humminbird_trk_point_t) (accum_east accum_north : Z)
    (out : list Waypoint) : outcome (list Waypoint) :=
  match k with
  | O => Ok out
  | S k' =>
    match points !! i with
    | None => Fault (LoadOutOfBounds i (length points))
    | Some p =>
      let p_depth := to_uint16 (pt_depth p) in
      let p_deltaeast := to_int16 (deltaeast p) in
      let p_deltanorth := to_int16 (deltanorth p) in
      match points !! S i with
      | None => Fault (LoadOutOfBounds (S i) (length points))
      | Some q =>
        let '(p_deltaeast, q_deltaeast) :=
          freak_filter p_deltaeast (deltaeast q) in
        let '(p_deltanorth, q_deltanorth) :=
          freak_filter p_deltanorth (deltanorth q) in
        let points :=
          <[S i := {| deltaeast := q_deltaeast; deltanorth := q_deltanorth;
                      pt_depth := pt_depth q |}]> points in
        let accum_east := to_int32 (accum_east + p_deltaeast) in
        let accum_north := to_int32 (accum_north + p_deltanorth) in
        let wpt :=
          {| shortname := [];
             creation_time :=
               if (Z.of_nat i =? num_points - 2) && negb (time =? 0)
               then Some time else None;
             north := accum_north;
             east := accum_east;
             depth := if p_depth =? 0 then None else Some p_depth;
             icon_descr := None |} in
        read_track_points k' (S i) num_points time points
          accum_east accum_north (out ++ [wpt])
      end
    end
  end.

(** The two tests on [th.num_points] (a uint16_t). *)
Definition check_num_points (num_points : Z) : outcome Z :=
  let num_points :=
    if num_points =? max_points + 1
    then to_uint16 (num_points - 1) else num_points in
  if num_points >? max_points
  then Fatal (TooManyTrackPoints num_points)
  else Ok num_points.

(** The allocation of the point array and the read of its body.  With a
    count of 0 the read is asked for -1 members into an empty array; the
    model stops there. *)
Definition read_points_body (num_points : Z) (fin : gbfile)
    : outcome (list humminbird_trk_point_t * gbfile) :=
  if num_points - 1 <? 0 then Fault (NegativeReadCount (num_points - 1)) else
  let '(got, bytes, fin') := gbfread sizeof_trk_point (num_points - 1) fin in
  if got =? 0 then Fatal UnexpectedEOFPoints else
  Ok (points_array (Z.to_nat num_points) bytes, fin').

Definition humminbird_read_track (st : reader) : outcome reader :=
  let '(got, bytes, fin1) := gbfread 1 sizeof_trk_header (fin_ st) in
  if got =? 0 then Fatal UnexpectedEOFHeader else
  let th := fill_struct sizeof_trk_header bytes in
  let th_trk_num := be_read16 (field th 0 2) in
  let th_num_points := be_read16 (field th 4 2) in
  let th_time := be_read32 (field th 8 4) in
  let th_start_east := to_int32 (be_read32 (field th 12 4)) in
  let th_start_north := to_int32 (be_read32 (field th 16 4)) in
  let th_name := field th 44 20 in
  th_num_points ← check_num_points th_num_points;
  '(points, fin2) ← read_points_body th_num_points fin1;
  let accum_east := th_start_east in
  let accum_north := th_start_north in
  let first_wpt :=
    {| shortname := []; creation_time := None;
       north := accum_north; east := accum_east;
       depth := None; icon_descr := None |} in
  wpts ← read_track_points (Z.to_nat (th_num_points - 1)) 0
           th_num_points th_time points accum_east accum_north [first_wpt];
  let trk :=
    {| rte_name := c_str th_name; rte_num := th_trk_num;
       rte_waypts := wpts |} in
  Ok (track_add trk (set_fin fin2 st)).

(** *** Tracks, old format *)

Record humminbird_trk_point_old_t : Type := mk_trk_point_old {
  old_deltaeast : Z;
  old_deltanorth : Z
}.

Definition parse_trk_point_old (b : list Z) : humminbird_trk_point_old_t :=
  {| old_deltaeast := be_read16 (field b 0 2);
     old_deltanorth := be_read16 (field b 2 2) |}.

Definition points_array_old (n : nat) (bytes : list Z)
    : list humminbird_trk_point_old_t :=
  let buf := fill_struct (sizeof_trk_point_old * Z.of_nat n) bytes in
  map (fun i => parse_trk_point_old (field buf (4 * i) 4)) (seq 0 n).

(** The body of the point loop of humminbird_read_track_old; the freak-value
    filter is commented out there. *)
Fixpoint read_track_points_old (k i : nat) (num_points time : Z)
    (points : list humminbird_trk_point_old_t) (accum_east accum_north : Z)
    (out : list Waypoint) : outcome (list Waypoint) :=
  match k with
  | O => Ok out
  | S k' =>
    match points !! i with
    | None => Fault (LoadOutOfBounds i (length points))
    | Some p =>
      let p_deltaeast := to_int16 (old_deltaeast p) in
      let p_deltanorth := to_int16 (old_deltanorth p) in
      let accum_east := to_int32 (accum_east + p_deltaeast) in
      let accum_north := to_int32 (accum_north + p_deltanorth) in
      let wpt :=
        {| shortname := [];
           creation_time :=
             if (Z.of_nat i =? num_points - 2) && negb (time =? 0)
             then Some time else None;
           north := accum_north;
           east := accum_east;
           depth := None;
           icon_descr := None |} in
      read_track_points_old k' (S i) num_points time points
        accum_east accum_north (out ++ [wpt])
    end
  end.

Definition check_num_points_old (num_points : Z) : outcome Z :=
  if num_points >? max_points_old
  then Fatal (TooManyTrackPoints num_points)
  else Ok num_points.

Definition read_points_body_old (num_points : Z) (fin : gbfile)
    : outcome (list humminbird_trk_point_old_t * gbfile) :=
  if num_points - 1 <? 0 then Fault (NegativeReadCount (num_points - 1)) else
  let '(got, bytes, fin') :=
    gbfread sizeof_trk_point_old (num_points - 1) fin in
  if got =? 0 then Fatal UnexpectedEOFPoints else
  Ok (points_array_old (Z.to_nat num_points) bytes, fin').

(** The name is read from the last 20 bytes of the file; [namebuf] is not
    initialised and the result of this read is not tested. *)
Definition read_name_old (fin : gbfile) : outcome (list Z * gbfile) :=
  let fin := gbfseek (file_len - TRK_NAME_LEN) fin in
  let '(got, namebuf, fin') := gbfread 1 TRK_NAME_LEN fin in
  if got <? TRK_NAME_LEN then Fault (LoadUninitialised got)
  else Ok (namebuf, fin').

Definition humminbird_read_track_old (st : reader) : outcome reader :=
  let '(got, bytes, fin1) := gbfread 1 sizeof_trk_header_old (fin_ st) in
  if got =? 0 then Fatal UnexpectedEOFHeader else
  let th := fill_struct sizeof_trk_header_old bytes in
  let th_trk_num := be_read16 (field th 0 2) in
  let th_num_points := be_read16 (field th 4 2) in
  let th_time := be_read32 (field th 8 4) in
  let th_start_east := to_int32 (be_read32 (field th 12 4)) in
  let th_start_north := to_int32 (be_read32 (field th 16 4)) in
  th_num_points ← check_num_points_old th_num_points;
  '(points, fin2) ← read_points_body_old th_num_points fin1;
  let accum_east := th_start_east in
  let accum_north := th_start_north in
  '(namebuf, fin3) ← read_name_old fin2;
  let first_wpt :=
    {| shortname := []; creation_time := None;
       north := accum_north; east := accum_east;
       depth := None; icon_descr := None |} in
  wpts ← read_track_points_old (Z.to_nat (th_num_points - 1)) 0
           th_num_points th_time points accum_east accum_north [first_wpt];
  let trk :=
    {| rte_name := c_str namebuf; rte_num := th_trk_num;
       rte_waypts := wpts |} in
  Ok (track_add trk (set_fin fin3 st)).

(** *** The dispatcher *)

Section Dispatcher.

Variable humminbird_icons : list string.

(** One turn of [while (! gbfeof(fin_))] after the test: [inl] continues the
    loop, [inr] leaves the function. *)
Definition read_record (st : reader) : outcome reader + outcome reader :=
  match gbfgetuint32 (fin_ st) with
  | Ok (signature, fin') =>
    let st := set_fin fin' st in
    if (signature =? WPT_MAGIC) || (signature =? WPT_MAGIC2)
    then inl (humminbird_read_wpt humminbird_icons st)
    else if signature =? RTE_MAGIC
    then inl (humminbird_read_route st)
    else if signature =? TRK_MAGIC
    then inr (humminbird_read_track st)          (* return *)
    else if signature =? TRK_MAGIC2
    then inr (humminbird_read_track_old st)      (* return *)
    else inr (Fatal (InvalidRecordHeader signature))
  | Fatal m => inr (Fatal m)
  | Fault f => inr (Fault f)
  end.

(** The loop, with a bound on the number of turns. *)
Fixpoint read_loop (fuel : nat) (st : reader) : option (outcome reader) :=
  match fuel with
  | O => None
  | S fuel' =>
    if gbfeof (fin_ st) then Some (Ok st) else
    match read_record st with
    | inl (Ok st') => read_loop fuel' st'
    | inl other => Some other
    | inr r => Some r
    end
  end.

(** Every turn consumes at least the signature, so the number of bytes left
    bounds the number of turns. *)
Definition humminbird_read (st : reader) : option (outcome reader) :=
  read_loop (S (gb_remaining (fin_ st))) st.

End Dispatcher.

(** ** Write path *)

(** *** Case-insensitive matching of icon names

    QString::compare and QString::contains with Qt::CaseInsensitive, on
    strings of 8-bit characters with the letters A-Z folded. *)

Definition fold_char (c : ascii) : ascii :=
  let n := nat_of_ascii c in
  if ((65 <=? n) && (n <=? 90))%nat then ascii_of_nat (n + 32) else c.

Fixpoint fold_case (s : string) : string :=
  match s with
  | EmptyString => EmptyString
  | String c r => String (fold_char c) (fold_case r)
  end.

Fixpoint starts_with (s sub : string) : bool :=
  match sub, s with
  | EmptyString, _ => true
  | String _ _, EmptyString => false
  | String b sub', String a s' => Ascii.eqb a b && starts_with s' sub'
  end.

Fixpoint contains (s sub : string) : bool :=
  starts_with s sub ||
  match s with
  | EmptyString => false
  | String _ s' => contains s' sub
  end.

(** [!a.compare(b, Qt::CaseInsensitive)] *)
Definition equal_ci (a b : string) : bool :=
  String.eqb (fold_case a) (fold_case b).

(** [a.contains(b, Qt::CaseInsensitive)] *)
Definition contains_ci (a b : string) : bool :=
  contains (fold_case a) (fold_case b).

(** [for (int i = 0; i < num_icons; i++) if (test(icons[i])) { icon = i; break; }]
    from index [i]: the index found. *)
Fixpoint find_icon (test : string -> bool) (icons : list string) (i : Z)
    : option Z :=
  match icons with
  | [] => None
  | name :: rest => if test name then Some i else find_icon test rest (i + 1)
  end.

Section Writer.

Variable humminbird_icons : list string.

(** The short-name service (MakeShort) is an external collaborator:
    [mkshort_wpt] is the name chosen for a waypoint, [mkshort] the shortened
    form of a track name. *)
Variable mkshort_wpt : Waypoint -> list Z.
Variable mkshort : list Z -> list Z.

(** The icon member of humminbird_write_waypoint (a uint8_t). *)
Definition write_icon (descr : option string) : Z :=
  let icon := 255 in
  match descr with
  | None => icon
  | Some d =>
    let icon :=
      match find_icon (equal_ci d) humminbird_icons 0 with
      | Some i => to_uint8 i
      | None => icon
      end in
    if icon =? 255 then
      let icon := 0 in
      match find_icon (contains_ci d) humminbird_icons 0 with
      | Some i => to_uint8 i
      | None => icon
      end
    else icon
  end.

(** toTime_t of the creation time; 0 when it is not valid. *)
Definition toTime_t (t : option Z) : Z := default 0 t.

(** qRound(depth_value_or(0) * 100.0), stored in a uint16_t. *)
Definition depth_cm (d : option Z) : Z := to_uint16 (default 0 d).

(** The bytes written for one waypoint: the signature and the structure. *)
Definition waypoint_record (wpt : Waypoint) (num : Z) : list Z :=
  be_write32 WPT_MAGIC
  ++ be_write16 num                          (* num *)
  ++ [0; 0]                                  (* zero *)
  ++ [1]                                     (* status *)
  ++ [write_icon (icon_descr wpt)]           (* icon *)
  ++ be_write16 (depth_cm (depth wpt))       (* depth *)
  ++ be_write32 (toTime_t (creation_time wpt))
  ++ be_write32 (east wpt)
  ++ be_write32 (north wpt)
  ++ strncpy_field (Z.to_nat WPT_NAME_LEN) (mkshort_wpt wpt).

Record hwr_writer : Type := mk_hwr_writer {
  hwr_fout : list Z;
  waypoint_num : Z
}.

Definition humminbird_write_waypoint (wpt : Waypoint) (st : hwr_writer)
    : hwr_writer :=
  {| hwr_fout := hwr_fout st ++ waypoint_record wpt (waypoint_num st);
     waypoint_num := waypoint_num st + 1 |}.

(** *** Tracks *)

(** The header under construction.  [th_trk_num] and the start pair are
    stored big-endian at once, the other members when the track ends; the
    record keeps the values. *)
Record humminbird_trk_header_t : Type := mk_trk_header {
  th_trk_num : Z;
  th_num_points : Z;
  th_time : Z;
  th_start_east : Z;
  th_start_north : Z;
  th_end_east : Z;
  th_end_north : Z;
  th_sw_east : Z;
  th_sw_north : Z;
  th_ne_east : Z;
  th_ne_north : Z;
  th_name : list Z
}.

Definition header_bytes (h : humminbird_trk_header_t) : list Z :=
  be_write16 (th_trk_num h)
  ++ [0; 0]                                  (* zero *)
  ++ be_write16 (th_num_points h)
  ++ [0; 0]                                  (* unknown *)
  ++ be_write32 (th_time h)
  ++ be_write32 (th_start_east h)
  ++ be_write32 (th_start_north h)
  ++ be_write32 (th_end_east h)
  ++ be_write32 (th_end_north h)
  ++ be_write32 (th_sw_east h)
  ++ be_write32 (th_sw_north h)
  ++ be_write32 (th_ne_east h)
  ++ be_write32 (th_ne_north h)
  ++ th_name h.

Definition point_bytes (p : humminbird_trk_point_t) : list Z :=
  be_write16 (deltaeast p) ++ be_write16 (deltanorth p)
  ++ be_write16 (pt_depth p).

Definition points_bytes (ps : list humminbird_trk_point_t) : list Z :=
  concat (map point_bytes ps).

Record ht_writer : Type := mk_ht_writer {
  fout_ : list Z;
  trk_head : option humminbird_trk_header_t;
  trk_points : list humminbird_trk_point_t;
  last_time : Z;
  last_east : Z;
  last_north : Z
}.

Definition humminbird_track_head (trk : route_head) (st : ht_writer)
    : ht_writer :=
  match rte_waypts trk with
  | [] =>
    {| fout_ := fout_ st; trk_head := None; trk_points := trk_points st;
       last_time := 0; last_east := last_east st;
       last_north := last_north st |}
  | _ :: _ =>
    {| fout_ := fout_ st;
       trk_head :=
         Some {| th_trk_num := to_uint16 (rte_num trk);
                 th_num_points := 0; th_time := 0;
                 th_start_east := 0; th_start_north := 0;
                 th_end_east := 0; th_end_north := 0;
                 th_sw_east := 0; th_sw_north := 0;
                 th_ne_east := 0; th_ne_north := 0;
                 th_name :=
                   strncpy_field (Z.to_nat TRK_NAME_LEN)
                     (mkshort (rte_name trk)) |};
       trk_points := replicate (Z.to_nat max_points) zero_point;
       last_time := 0; last_east := last_east st;
       last_north := last_north st |}
  end.

Definition humminbird_track_cb (wpt : Waypoint) (st : ht_writer)
    : outcome ht_writer :=
  match trk_head st with
  | None => Ok st
  | Some h =>
    let i := th_num_points h in
    let east := to_int32 (east wpt) in
    let north := to_int32 (north wpt) in
    let last_time :=
      match creation_time wpt with
      | Some t => t
      | None => last_time st
      end in
    '(h, points) ←
      (if i =? 0 then
         Ok ({| th_trk_num := th_trk_num h;
                th_num_points := th_num_points h; th_time := th_time h;
                th_start_east := east; th_start_north := north;
                th_end_east := th_end_east h; th_end_north := th_end_north h;
                th_sw_east := east; th_sw_north := north;
                th_ne_east := east; th_ne_north := north;
                th_name := th_name h |}, trk_points st)
       else
         let j := Z.to_nat (i - 1) in
         let p :=
           {| deltaeast := to_uint16 (east - last_east st);
              deltanorth := to_uint16 (north - last_north st);
              pt_depth := depth_cm (depth wpt) |} in
         if (j <? length (trk_points st))%nat then
           Ok ({| th_trk_num := th_trk_num h;
                  th_num_points := th_num_points h; th_time := th_time h;
                  th_start_east := th_start_east h;
                  th_start_north := th_start_north h;
                  th_end_east := th_end_east h;
                  th_end_north := th_end_north h;
                  th_sw_east :=
                    if east <? th_sw_east h then east else th_sw_east h;
                  th_sw_north :=
                    if north <? th_sw_north h then north else th_sw_north h;
                  th_ne_east :=
                    if east >? th_ne_east h then east else th_ne_east h;
                  th_ne_north :=
                    if north >? th_ne_north h then north else th_ne_north h;
                  th_name := th_name h |},
               <[j := p]> (trk_points st))
         else Fault (StoreOutOfBounds j (length (trk_points st))));
    Ok {| fout_ := fout_ st;
          trk_head :=
            Some {| th_trk_num := th_trk_num h;
                    th_num_points := to_uint16 (th_num_points h + 1);
                    th_time := th_time h;
                    th_start_east := th_start_east h;
                    th_start_north := th_start_north h;
                    th_end_east := th_end_east h;
                    th_end_north := th_end_north h;
                    th_sw_east := th_sw_east h; th_sw_north := th_sw_north h;
                    th_ne_east := th_ne_east h; th_ne_north := th_ne_north h;
                    th_name := th_name h |};
          trk_points := points;
          last_time := last_time; last_east := east; last_north := north |}
  end.

(** The bytes written when a track ends. *)
Definition track_record (h : humminbird_trk_header_t)
    (points : list humminbird_trk_point_t)
    (last_time last_east last_north : Z) : list Z :=
  let h :=
    {| th_trk_num := th_trk_num h; th_num_points := th_num_points h;
       th_time := last_time;
       th_start_east := th_start_east h; th_start_north := th_start_north h;
       th_end_east := last_east; th_end_north := last_north;
       th_sw_east := th_sw_east h; th_sw_north := th_sw_north h;
       th_ne_east := th_ne_east h; th_ne_north := th_ne_north h;
       th_name := th_name h |} in
  be_write32 TRK_MAGIC                       (* gbfputuint32 *)
  ++ header_bytes h                          (* gbfwrite trk_head *)
  ++ points_bytes points                     (* gbfwrite trk_points *)
  ++ be_write16 0.                           (* gbfputuint16 *)

Definition humminbird_track_tail (st : ht_writer) : ht_writer :=
  match trk_head st with
  | None => st
  | Some h =>
    {| fout_ :=
         fout_ st
         ++ track_record h (trk_points st)
              (last_time st) (last_east st) (last_north st);
       trk_head := None; trk_points := [];
       last_time := last_time st; last_east := last_east st;
       last_north := last_north st |}
  end.

(** track_disp_all on one track: head, the callback on every point in
    order, tail. *)
Fixpoint track_cb_all (wpts : list Waypoint) (st : ht_writer)
    : outcome ht_writer :=
  match wpts with
  | [] => Ok st
  | wpt :: rest => st' ← humminbird_track_cb wpt st; track_cb_all rest st'
  end.

Definition write_track (trk : route_head) (st : ht_writer)
    : outcome ht_writer :=
  st' ← track_cb_all (rte_waypts trk) (humminbird_track_head trk st);
  Ok (humminbird_track_tail st').

End Writer.

(** *** Waypoints and routes (HumminbirdFormat::write) *)

Section RouteWriter.

Variable humminbird_icons : list string.

(** The short-name service, as in the section above: the name chosen for a
    waypoint and the shortened form of a route name. *)
Variable mkshort_wpt : Waypoint -> list Z.
Variable mkshort_rte : list Z -> list Z.

(** [wpt_to_id]: the text made of the short name and the position printed
    with nine decimals; it is a function of the waypoint. *)
Variable wpt_to_id : Waypoint -> string.

(** The global [gpsbabel_time]. *)
Variable gpsbabel_time : Z.

(** The members of the route structure that are filled point by point; the
    others are set when the record is written. *)
Record humminbird_rte_t : Type := mk_rte {
  rte_count : Z;                 (* int8_t count *)
  rte_points : list Z            (* uint16_t points[MAX_RTE_POINTS] *)
}.

Record hum_writer : Type := mk_hum_writer {
  hw : hwr_writer;               (* fout_ and waypoint_num *)
  rte_num_ : Z;
  wpt_id_to_wpt_num_hash : gmap string Z;
  humrte : option humminbird_rte_t;
  wr_warnings : list string
}.

Definition humminbird_wr_init : hum_writer :=
  {| hw := {| hwr_fout := []; waypoint_num := 0 |};
     rte_num_ := 0; wpt_id_to_wpt_num_hash := ∅; humrte := None;
     wr_warnings := [] |}.

Definition humminbird_write_waypoint_wrapper (wpt : Waypoint)
    (st : hum_writer) : hum_writer :=
  let id := wpt_to_id wpt in
  match wpt_id_to_wpt_num_hash st !! id with
  | Some _ => st
  | None =>
    {| hw := humminbird_write_waypoint humminbird_icons mkshort_wpt wpt (hw st);
       rte_num_ := rte_num_ st;
       wpt_id_to_wpt_num_hash :=
         <[id := waypoint_num (hw st)]> (wpt_id_to_wpt_num_hash st);
       humrte := humrte st;
       wr_warnings := wr_warnings st |}
  end.

Definition humminbird_rte_head (rte : route_head) (st : hum_writer)
    : hum_writer :=
  {| hw := hw st; rte_num_ := rte_num_ st;
     wpt_id_to_wpt_num_hash := wpt_id_to_wpt_num_hash st;
     humrte :=
       match rte_waypts rte with
       | [] => None
       | _ :: _ =>
         Some {| rte_count := 0;
                 rte_points := replicate (Z.to_nat MAX_RTE_POINTS) 0 |}
       end;
     wr_warnings := wr_warnings st |}.

Definition humminbird_write_rtept (wpt : Waypoint) (st : hum_writer)
    : outcome hum_writer :=
  match humrte st with
  | None => Ok st
  | Some r =>
    let id := wpt_to_id wpt in
    match wpt_id_to_wpt_num_hash st !! id with
    | None =>
      Ok {| hw := hw st; rte_num_ := rte_num_ st;
            wpt_id_to_wpt_num_hash := wpt_id_to_wpt_num_hash st;
            humrte := humrte st;
            wr_warnings :=
              wr_warnings st
              ++ ["Missing waypoint reference in route, point dropped from route."%string] |}
    | Some num =>
      if rte_count r <? MAX_RTE_POINTS then
        let i := Z.to_nat (rte_count r) in
        if (i <? length (rte_points r))%nat then
          Ok {| hw := hw st; rte_num_ := rte_num_ st;
                wpt_id_to_wpt_num_hash := wpt_id_to_wpt_num_hash st;
                humrte :=
                  Some {| rte_count := to_int8 (rte_count r + 1);
                          rte_points := <[i := to_uint16 num]> (rte_points r) |};
                wr_warnings := wr_warnings st |}
        else Fault (StoreOutOfBounds i (length (rte_points r)))
      else Fatal RouteLimit
    end
  end.

(** The bytes written for one route: the signature and the structure. *)
Definition route_record (r : humminbird_rte_t) (num : Z) (name : list Z)
    : list Z :=
  be_write32 RTE_MAGIC
  ++ be_write16 (to_uint16 num)              (* num *)
  ++ [0; 0]                                  (* zero *)
  ++ [0; 0; 0]                               (* status, U0, U1 *)
  ++ [to_uint8 (rte_count r)]                (* count *)
  ++ be_write32 (to_uint32 gpsbabel_time)    (* time *)
  ++ strncpy_field (Z.to_nat RTE_NAME_LEN) (mkshort_rte name)
  ++ concat (map be_write16 (rte_points r)).

Definition humminbird_rte_tail (rte : route_head) (st : hum_writer)
    : hum_writer :=
  match humrte st with
  | None => st
  | Some r =>
    if rte_count r >? 0 then
      {| hw := {| hwr_fout :=
                    hwr_fout (hw st)
                    ++ route_record r (rte_num_ st) (rte_name rte);
                  waypoint_num := waypoint_num (hw st) |};
         rte_num_ := rte_num_ st + 1;
         wpt_id_to_wpt_num_hash := wpt_id_to_wpt_num_hash st;
         humrte := None;
         wr_warnings := wr_warnings st |}
    else
      {| hw := hw st; rte_num_ := rte_num_ st;
         wpt_id_to_wpt_num_hash := wpt_id_to_wpt_num_hash st;
         humrte := None;
         wr_warnings := wr_warnings st |}
  end.

(** waypt_disp_all and route_disp_all with the wrapper as the only
    callback. *)
Definition write_waypoints (wpts : list Waypoint) (st : hum_writer)
    : hum_writer :=
  foldl (fun st wpt => humminbird_write_waypoint_wrapper wpt st) st wpts.

Definition write_route_waypoints (rtes : list route_head) (st : hum_writer)
    : hum_writer :=
  foldl (fun st rte => write_waypoints (rte_waypts rte) st) st rtes.

(** route_disp_all on one route: head, the callback on every point in
    order, tail. *)
Fixpoint write_rtept_all (wpts : list Waypoint) (st : hum_writer)
    : outcome hum_writer :=
  match wpts with
  | [] => Ok st
  | wpt :: rest => st' ← humminbird_write_rtept wpt st; write_rtept_all rest st'
  end.

Definition write_route (rte : route_head) (st : hum_writer)
    : outcome hum_writer :=
  st' ← write_rtept_all (rte_waypts rte) (humminbird_rte_head rte st);
  Ok (humminbird_rte_tail rte st').

Fixpoint write_routes (rtes : list route_head) (st : hum_writer)
    : outcome hum_writer :=
  match rtes with
  | [] => Ok st
  | rte :: rest => st' ← write_route rte st; write_routes rest st'
  end.

(** HumminbirdFormat::write on the waypoint list and the route list. *)
Definition humminbird_write (wpts : list Waypoint) (rtes : list route_head)
    (st : hum_writer) : outcome hum_writer :=
  write_routes rtes (write_route_waypoints rtes (write_waypoints wpts st)).

End RouteWriter.

(** ** Definitions used to state the properties, and sample data *)

Definition long_track (n : Z) : route_head :=
  {| rte_name := []; rte_num := 1;
     rte_waypts := replicate (Z.to_nat n) new_Waypoint |}.

Definition ht_init : ht_writer :=
  {| fout_ := []; trk_head := None; trk_points := [];
     last_time := 0; last_east := 0; last_north := 0 |}.

(** [i] is the first index of the table whose name passes [test]. *)
Definition first_match (test : string -> bool) (icons : list string)
    (i : nat) : Prop :=
  (exists name, icons !! i = Some name /\ test name = true) /\
  (forall j name, (j < i)%nat -> icons !! j = Some name -> test name = false).

Definition no_match (test : string -> bool) (icons : list string) : Prop :=
  forall j name, icons !! j = Some name -> test name = false.

Definition sample_icons : list string :=
  ["Normal"%string; "Diamond"%string].

Definition sample_wpt (descr : option string) : Waypoint :=
  {| shortname := []; creation_time := None; north := 0; east := 0;
     depth := None; icon_descr := descr |}.

Definition sample_waypt_body (status : Z) : list Z :=
  [0; 7] ++ [0; 0] ++ [status; 3] ++ [0; 0] ++ [0; 0; 0; 0]
  ++ [0; 0; 0; 100] ++ [0; 0; 1; 0]
  ++ [72; 79; 77; 69; 0; 0; 0; 0; 0; 0; 0; 0].

(** The route after the waypoints [ws] were added to [rte]. *)
Definition route_extend (name : list Z) (rte : option route_head)
    (ws : list Waypoint) : option route_head :=
  match ws with
  | [] => rte
  | _ :: _ =>
    Some match rte with
         | Some r =>
           {| rte_name := rte_name r; rte_num := rte_num r;
              rte_waypts := rte_waypts r ++ ws |}
         | None =>
           {| rte_name := c_str name; rte_num := 0; rte_waypts := ws |}
         end
  end.

Definition sample_rte_body (count : Z) (nums : list Z) : list Z :=
  [0; 1] ++ [0; 0] ++ [1; 0; 0] ++ [count] ++ [0; 0; 0; 0]
  ++ [82; 49; 0; 0; 0; 0; 0; 0; 0; 0; 0; 0; 0; 0; 0; 0; 0; 0; 0; 0]
  ++ take 100 (concat (map be_write16 nums) ++ replicate 100 0).

Definition sample_index : gmap Z Waypoint :=
  <[5 := sample_wpt None]>
    (<[7 := {| shortname := [55]; creation_time := None; north := 7;
               east := 7; depth := None; icon_descr := None |}]> ∅).

Definition sample_route_reader (count : Z) (nums : list Z) : reader :=
  {| fin_ := {| gb_data := sample_rte_body count nums; gb_pos := 0 |};
     waypts := []; wpt_num_to_wpt_hash := sample_index;
     routes := []; tracks := []; warnings := [] |}.

(** [filter_axis cur rest]: the deltas that are accumulated on one axis when
    the cell of the current point holds [cur] and the following cells hold
    [rest] (the last of them is the spare cell at the end of the array). *)
Fixpoint filter_axis (cur : Z) (rest : list Z) : list Z :=
  match rest with
  | [] => []
  | next :: rest' =>
    if (cur =? 32767) && (next =? -32768)
    then -1 :: filter_axis 0 rest'
    else cur :: filter_axis next rest'
  end.

(** The accumulator after each delta. *)
Fixpoint accumulate (acc : Z) (ds : list Z) : list Z :=
  match ds with
  | [] => []
  | d :: ds' => let acc := to_int32 (acc + d) in acc :: accumulate acc ds'
  end.

(** The sum of deltas 0 to k. *)
Definition sum_to (ds : list Z) (k : nat) : Z :=
  foldr Z.add 0 (take (S k) ds).

(** Deltas k and k+1 are the pair (32767, -32768). *)
Definition freak_pair (ds : list Z) (k : nat) : bool :=
  match ds !! k, ds !! S k with
  | Some a, Some b => (a =? 32767) && (b =? -32768)
  | _, _ => false
  end.

(** The waypoints made from the cell [cur] of point [i] and the cells [rest]
    that follow it. *)
Fixpoint decode_cells (i : nat) (num_points time : Z)
    (cur : humminbird_trk_point_t) (rest : list humminbird_trk_point_t)
    (accum_east accum_north : Z) : list Waypoint :=
  match rest with
  | [] => []
  | q :: rest' =>
    let e := freak_filter (to_int16 (deltaeast cur)) (deltaeast q) in
    let n := freak_filter (to_int16 (deltanorth cur)) (deltanorth q) in
    let accum_east := to_int32 (accum_east + fst e) in
    let accum_north := to_int32 (accum_north + fst n) in
    {| shortname := [];
       creation_time :=
         if (Z.of_nat i =? num_points - 2) && negb (time =? 0)
         then Some time else None;
       north := accum_north;
       east := accum_east;
       depth := if to_uint16 (pt_depth cur) =? 0 then None
                else Some (to_uint16 (pt_depth cur));
       icon_descr := None |}
    :: decode_cells (S i) num_points time
         {| deltaeast := snd e; deltanorth := snd n; pt_depth := pt_depth q |}
         rest' accum_east accum_north
  end.

(** The waypoints of a track whose header holds the start pair
    ([start_east], [start_north]) and whose point array is [points]. *)
Definition track_waypoints (num_points time start_east start_north : Z)
    (points : list humminbird_trk_point_t) : list Waypoint :=
  {| shortname := []; creation_time := None;
     north := start_north; east := start_east;
     depth := None; icon_descr := None |}
  :: decode_cells 0 num_points time (hd zero_point points) (tl points)
       start_east start_north.

(** A new-format header with the given count and start pair. *)
Definition sample_trk_header (num_points start_east start_north : Z)
    : list Z :=
  header_bytes
    {| th_trk_num := 1; th_num_points := num_points; th_time := 0;
       th_start_east := start_east; th_start_north := start_north;
       th_end_east := 0; th_end_north := 0;
       th_sw_east := 0; th_sw_north := 0; th_ne_east := 0; th_ne_north := 0;
       th_name := replicate 20 0 |}.

Definition sample_track_reader (hdr body : list Z) : reader :=
  humminbird_rd_init (hdr ++ body ++ []).

(** A track of three points whose two deltas east are 32767 and -32768. *)
Definition freak_header : list Z := sample_trk_header 3 1000 0.
Definition freak_body : list Z :=
  [127; 255; 0; 0; 0; 0] ++ [128; 0; 0; 0; 0; 0].

(** The waypoints made from the cells [cells], the first of which is the
    cell of point [i]. *)
Fixpoint decode_cells_old (i : nat) (num_points time : Z)
    (cells : list humminbird_trk_point_old_t) (accum_east accum_north : Z)
    : list Waypoint :=
  match cells with
  | [] => []
  | p :: cells' =>
    let accum_east := to_int32 (accum_east + to_int16 (old_deltaeast p)) in
    let accum_north := to_int32 (accum_north + to_int16 (old_deltanorth p)) in
    {| shortname := [];
       creation_time :=
         if (Z.of_nat i =? num_points - 2) && negb (time =? 0)
         then Some time else None;
       north := accum_north;
       east := accum_east;
       depth := None;
       icon_descr := None |}
    :: decode_cells_old (S i) num_points time cells' accum_east accum_north
  end.

(** An old-format file of 8048 bytes: three points, the deltas east 32767
    and -32768, the name "OLD" in the last 20 bytes. *)
Definition sample_old_header (num_points start_east start_north : Z)
    : list Z :=
  be_write16 1 ++ [0; 0] ++ be_write16 num_points ++ [0; 0]
  ++ be_write32 0 ++ be_write32 start_east ++ be_write32 start_north
  ++ be_write32 0 ++ be_write32 0.

Definition sample_old_body : list Z := [127; 255; 0; 0] ++ [128; 0; 0; 0].

Definition sample_old_rest : list Z :=
  replicate (Z.to_nat (8048 - 4 - 28 - 8 - 20)) 0
  ++ [79; 76; 68] ++ replicate 17 0.

Definition sample_old_reader : reader :=
  set_fin
    {| gb_data := be_write32 TRK_MAGIC2 ++ sample_old_header 3 1000 0
                  ++ sample_old_body ++ sample_old_rest;
       gb_pos := 4 |}
    (humminbird_rd_init []).

(** A file with one waypoint, then a new-format track, then bytes that are
    no record at all. *)
Definition sample_file : list Z :=
  be_write32 WPT_MAGIC ++ sample_waypt_body 1
  ++ be_write32 TRK_MAGIC ++ freak_header ++ freak_body
  ++ [255; 255; 255; 255; 1; 2; 3].



(** An old-format file of 8048 bytes with the time 77 in the header. *)
Definition timed_old_header : list Z :=
  be_write16 1 ++ [0; 0] ++ be_write16 3 ++ [0; 0]
  ++ be_write32 77 ++ be_write32 1000 ++ be_write32 0
  ++ be_write32 0 ++ be_write32 0.

Definition timed_old_reader : reader :=
  set_fin
    {| gb_data := be_write32 TRK_MAGIC2 ++ timed_old_header
                  ++ sample_old_body ++ sample_old_rest;
       gb_pos := 4 |}
    (humminbird_rd_init []).

(** The waypoint that the reader makes from the record written for [wpt]. *)
Definition read_back (icons : list string) (mk : Waypoint -> list Z)
    (wpt : Waypoint) : Waypoint :=
  {| shortname := take 11 (c_str (mk wpt));
     creation_time := Some (to_uint32 (toTime_t (creation_time wpt)));
     north := to_int32 (north wpt);
     east := to_int32 (east wpt);
     depth :=
       if depth_cm (depth wpt) =? 0 then None
       else Some (depth_cm (depth wpt));
     icon_descr :=
       let i := write_icon icons (icon_descr wpt) in
       if i <? Z.of_nat (length icons) then icons !! Z.to_nat i else None |}.

(** The records of the waypoints [wpts], numbered from [num]. *)
Fixpoint waypoint_records (icons : list string) (mk : Waypoint -> list Z)
    (wpts : list Waypoint) (num : Z) : list Z :=
  match wpts with
  | [] => []
  | wpt :: rest =>
    waypoint_record icons mk wpt num
    ++ waypoint_records icons mk rest (num + 1)
  end.

(** The reader after it has read these records. *)
Fixpoint reader_after (icons : list string) (mk : Waypoint -> list Z)
    (wpts : list Waypoint) (num : Z) (st : reader) : reader :=
  match wpts with
  | [] => st
  | wpt :: rest =>
    reader_after icons mk rest (num + 1)
      (hash_insert (to_uint16 num) (read_back icons mk wpt)
         (waypt_add (read_back icons mk wpt)
            (set_fin (gb_advance 32 (gb_advance 4 (fin_ st))) st)))
  end.

(** Two waypoints and an identity that tells them apart by the position. *)
Definition sample_id (wpt : Waypoint) : string :=
  if east wpt =? 0 then "origin"%string else "elsewhere"%string.

Definition sample_wpt2 : Waypoint :=
  {| shortname := [87; 50]; creation_time := Some 1000; north := -5;
     east := 70000; depth := Some 1234;
     icon_descr := Some "Green diamond"%string |}.

Definition sample_wpts : list Waypoint := [sample_wpt None; sample_wpt2].

(** The number under which the waypoint is known to the identity index, as
    it is stored in a route. *)
Definition known_num (wpt_to_id : Waypoint -> string) (hash : gmap string Z)
    (wpt : Waypoint) : Z :=
  to_uint16 (default 0 (hash !! wpt_to_id wpt)).

(** The route structure after all the points [wpts] were stored. *)
Definition filled_rte (wpt_to_id : Waypoint -> string) (hash : gmap string Z)
    (wpts : list Waypoint) : humminbird_rte_t :=
  {| rte_count := Z.of_nat (length wpts);
     rte_points :=
       map (known_num wpt_to_id hash) wpts
       ++ replicate (Z.to_nat MAX_RTE_POINTS - length wpts) 0 |}.

(** The records of the routes [rtes], numbered from [num]; a route without
    points has no record and takes no number. *)
Fixpoint route_records (mkshort_rte : list Z -> list Z)
    (wpt_to_id : Waypoint -> string) (gpsbabel_time : Z)
    (hash : gmap string Z) (rtes : list route_head) (num : Z) : list Z :=
  match rtes with
  | [] => []
  | rte :: rest =>
    match rte_waypts rte with
    | [] => route_records mkshort_rte wpt_to_id gpsbabel_time hash rest num
    | _ :: _ =>
      route_record mkshort_rte gpsbabel_time
        (filled_rte wpt_to_id hash (rte_waypts rte)) num (rte_name rte)
      ++ route_records mkshort_rte wpt_to_id gpsbabel_time hash rest (num + 1)
    end
  end.

(** Every waypoint of the list has a number in the identity index. *)
Definition ids_known (wpt_to_id : Waypoint -> string) (st : hum_writer)
    (wpts : list Waypoint) : Prop :=
  forall w, w ∈ wpts -> is_Some (wpt_id_to_wpt_num_hash st !! wpt_to_id w).

(** A route of two points, and a route of [n] points. *)
Definition sample_route : route_head :=
  {| rte_name := [82; 49]; rte_num := 0; rte_waypts := sample_wpts |}.

Definition long_route (n : Z) : route_head :=
  {| rte_name := []; rte_num := 0;
     rte_waypts := replicate (Z.to_nat n) sample_wpt2 |}.

(** The routes that the reader makes from the records written for [rtes],
    when every point is found: a route without points is not there. *)
Fixpoint routes_read_back (icons : list string) (mkw : Waypoint -> list Z)
    (mkr : list Z -> list Z) (rtes : list route_head) : list route_head :=
  match rtes with
  | [] => []
  | rte :: rest =>
    match rte_waypts rte with
    | [] => routes_read_back icons mkw mkr rest
    | _ :: _ =>
      {| rte_name := take 19 (c_str (mkr (rte_name rte))); rte_num := 0;
         rte_waypts := map (read_back icons mkw) (rte_waypts rte) |}
      :: routes_read_back icons mkw mkr rest
    end
  end.

(** An identity index that knows the two sample waypoints as 5 and 99, and
    a reader whose waypoint index has 5 and 7. *)
Definition sample_id_hash : gmap string Z :=
  <["origin"%string := 5]> (<["elsewhere"%string := 99]> ∅).

Definition sample_rte_record : list Z :=
  route_record (fun name => name) 0
    (filled_rte sample_id sample_id_hash sample_wpts) 3 [82; 49].

Definition sample_rte_record_reader : reader :=
  {| fin_ := {| gb_data := sample_rte_record ++ []; gb_pos := 0 |};
     waypts := []; wpt_num_to_wpt_hash := sample_index;
     routes := []; tracks := []; warnings := [] |}.

(** The cell written for a point that follows the point at ([last_east],
    [last_north]). *)
Definition make_point (last_east last_north : Z) (wpt : Waypoint)
    : humminbird_trk_point_t :=
  {| deltaeast := to_uint16 (to_int32 (east wpt) - last_east);
     deltanorth := to_uint16 (to_int32 (north wpt) - last_north);
     pt_depth := depth_cm (depth wpt) |}.

Fixpoint encode_points (last_east last_north : Z) (wpts : list Waypoint)
    : list humminbird_trk_point_t :=
  match wpts with
  | [] => []
  | wpt :: rest =>
    make_point last_east last_north wpt
    :: encode_points (to_int32 (east wpt)) (to_int32 (north wpt)) rest
  end.

(** The header after the first point of a track, and after a later one. *)
Definition first_header (h : humminbird_trk_header_t) (wpt : Waypoint)
    : humminbird_trk_header_t :=
  {| th_trk_num := th_trk_num h;
     th_num_points := to_uint16 (th_num_points h + 1);
     th_time := th_time h;
     th_start_east := to_int32 (east wpt);
     th_start_north := to_int32 (north wpt);
     th_end_east := th_end_east h; th_end_north := th_end_north h;
     th_sw_east := to_int32 (east wpt); th_sw_north := to_int32 (north wpt);
     th_ne_east := to_int32 (east wpt); th_ne_north := to_int32 (north wpt);
     th_name := th_name h |}.

Definition next_header (h : humminbird_trk_header_t) (wpt : Waypoint)
    : humminbird_trk_header_t :=
  let east := to_int32 (east wpt) in
  let north := to_int32 (north wpt) in
  {| th_trk_num := th_trk_num h;
     th_num_points := to_uint16 (th_num_points h + 1);
     th_time := th_time h;
     th_start_east := th_start_east h; th_start_north := th_start_north h;
     th_end_east := th_end_east h; th_end_north := th_end_north h;
     th_sw_east := if east <? th_sw_east h then east else th_sw_east h;
     th_sw_north := if north <? th_sw_north h then north else th_sw_north h;
     th_ne_east := if east >? th_ne_east h then east else th_ne_east h;
     th_ne_north := if north >? th_ne_north h then north else th_ne_north h;
     th_name := th_name h |}.

(** [last_time], [last_east] and [last_north] after a point. *)
Definition next_time (t : Z) (wpt : Waypoint) : Z :=
  match creation_time wpt with Some t' => t' | None => t end.

Definition next_east (_ : Z) (wpt : Waypoint) : Z := to_int32 (east wpt).
Definition next_north (_ : Z) (wpt : Waypoint) : Z := to_int32 (north wpt).

(** The header as it is written: the end pair and the time are set when the
    track ends. *)
Definition final_header (h : humminbird_trk_header_t)
    (last_time last_east last_north : Z) : humminbird_trk_header_t :=
  {| th_trk_num := th_trk_num h; th_num_points := th_num_points h;
     th_time := last_time;
     th_start_east := th_start_east h; th_start_north := th_start_north h;
     th_end_east := last_east; th_end_north := last_north;
     th_sw_east := th_sw_east h; th_sw_north := th_sw_north h;
     th_ne_east := th_ne_east h; th_ne_north := th_ne_north h;
     th_name := th_name h |}.

(** The header made by humminbird_track_head for a track with points. *)
Definition fresh_header (mk : list Z -> list Z) (trk : route_head)
    : humminbird_trk_header_t :=
  {| th_trk_num := to_uint16 (rte_num trk);
     th_num_points := 0; th_time := 0;
     th_start_east := 0; th_start_north := 0;
     th_end_east := 0; th_end_north := 0;
     th_sw_east := 0; th_sw_north := 0;
     th_ne_east := 0; th_ne_north := 0;
     th_name := strncpy_field (Z.to_nat TRK_NAME_LEN) (mk (rte_name trk)) |}.

(** The differences between consecutive values. *)
Fixpoint deltas (prev : Z) (vs : list Z) : list Z :=
  match vs with
  | [] => []
  | v :: rest => (v - prev) :: deltas v rest
  end.

(** A track of three points; only the second has a time. *)
Definition sample_trk : route_head :=
  {| rte_name := [84; 49]; rte_num := 3;
     rte_waypts :=
       [ {| shortname := []; creation_time := None; north := 200; east := 100;
            depth := Some 50; icon_descr := None |};
         {| shortname := []; creation_time := Some 1000; north := 180;
            east := 130; depth := Some 60; icon_descr := None |};
         {| shortname := []; creation_time := None; north := 210; east := 90;
            depth := None; icon_descr := None |} ] |}.

(** HumminbirdHTFormat::write: track_disp_all over the tracks, in order. *)
Fixpoint write_tracks (mk : list Z -> list Z) (trks : list route_head)
    (st : ht_writer) : outcome ht_writer :=
  match trks with
  | [] => Ok st
  | trk :: rest => st' ← write_track mk trk st; write_tracks mk rest st'
  end.

(** Point [k] of a written track of [n] points, as the reader gives it
    back; [time] is the time of the header. *)
Definition point_read_back (time : Z) (n k : nat) (w : Waypoint) : Waypoint :=
  {| shortname := [];
     creation_time :=
       if (S k =? n)%nat && negb (k =? 0)%nat && negb (time =? 0)
       then Some time else None;
     north := to_int32 (north w);
     east := to_int32 (east w);
     depth :=
       if (k =? 0)%nat || (depth_cm (depth w) =? 0) then None
       else Some (depth_cm (depth w));
     icon_descr := None |}.

Definition track_read_back (mk : list Z -> list Z) (trk : route_head)
    : route_head :=
  let time :=
    to_uint32 (default 0 (last (omap creation_time (rte_waypts trk)))) in
  {| rte_name := take (Z.to_nat TRK_NAME_LEN - 1) (c_str (mk (rte_name trk)));
     rte_num := to_uint16 (rte_num trk);
     rte_waypts :=
       imap (point_read_back time (length (rte_waypts trk)))
         (rte_waypts trk) |}.

(** The members of a cell are 16-bit words. *)
Definition cell_ok (p : humminbird_trk_point_t) : Prop :=
  0 <= deltaeast p < 65536 /\ 0 <= deltanorth p < 65536 /\
  0 <= pt_depth p < 65536.

(** The steps of a track on one axis can be stored and are not changed by
    the reader: each fits 16 bits, and no step of 32767 is followed by one
    of -32768. *)
Definition plain_steps (vs : list Z) : Prop :=
  match vs with
  | [] => True
  | v :: rest =>
    Forall (fun d => -32768 <= d < 32768) (deltas v rest) /\
    forall k, freak_pair (deltas v rest) k = false
  end.

(** A track of one point. *)
Definition point_trk : route_head :=
  {| rte_name := [84; 48]; rte_num := 1; rte_waypts := [new_Waypoint] |}.

(** * Properties *)

(** ** Sizes *)

Lemma sizeof_trk_header_eq : sizeof_trk_header = 64.
Proof. reflexivity. Qed.

Lemma max_points_eq : max_points = 21835.
Proof. reflexivity. Qed.

Lemma max_points_old_eq : max_points_old = 1999.
Proof. reflexivity. Qed.

Lemma max_points_nat : Z.of_nat (Z.to_nat max_points) = 21835.
Proof. rewrite Z2Nat.id; [apply max_points_eq | rewrite max_points_eq; lia]. Qed.

#[local] Opaque max_points.

Lemma strncpy_field_length n src : length (strncpy_field n src) = n.
Proof.
  unfold strncpy_field.
  rewrite length_take, length_app, length_replicate. lia.
Qed.

Lemma point_bytes_length p : length (point_bytes p) = 6%nat.
Proof. reflexivity. Qed.

Lemma points_bytes_length ps :
  length (points_bytes ps) = (6 * length ps)%nat.
Proof.
  unfold points_bytes.
  induction ps as [|p ps IH]; [reflexivity|].
  cbn [map concat]. rewrite length_app, IH, point_bytes_length.
  cbn [length]. lia.
Qed.

Lemma header_bytes_length h :
  length (th_name h) = 20%nat -> length (header_bytes h) = 64%nat.
Proof.
  intros Hn. unfold header_bytes, be_write16, be_write32.
  repeat (rewrite length_app; cbn [length]). rewrite Hn. reflexivity.
Qed.

Lemma track_record_length h ps lt le ln :
  length (th_name h) = 20%nat ->
  Z.of_nat (length (track_record h ps lt le ln))
  = 4 + 64 + 6 * Z.of_nat (length ps) + 2.
Proof.
  intros Hn. unfold track_record.
  rewrite !length_app, header_bytes_length by exact Hn.
  rewrite points_bytes_length. cbn [be_write32 be_write16 length]. lia.
Qed.

(** ** The track encoder: one call of the callback *)

Lemma track_cb_ok wpt st h :
  trk_head st = Some h ->
  0 <= th_num_points h <= Z.of_nat (length (trk_points st)) ->
  th_num_points h + 1 < 65536 ->
  exists st' h',
    humminbird_track_cb wpt st = Ok st' /\
    trk_head st' = Some h' /\
    th_num_points h' = th_num_points h + 1 /\
    th_name h' = th_name h /\
    length (trk_points st') = length (trk_points st) /\
    fout_ st' = fout_ st /\
    (forall j, (Z.to_nat (th_num_points h' - 1) <= j)%nat ->
               trk_points st' !! j = trk_points st !! j).
Proof.
  intros Hh Hi Hw. unfold humminbird_track_cb. rewrite Hh.
  destruct (th_num_points h =? 0) eqn:E0.
  - apply Z.eqb_eq in E0. eexists _, _. cbn.
    repeat split; cbn; try reflexivity.
    unfold to_uint16. rewrite Z.mod_small by lia. reflexivity.
  - apply Z.eqb_neq in E0.
    assert (Hj : (Z.to_nat (th_num_points h - 1) < length (trk_points st))%nat)
      by lia.
    apply Nat.ltb_lt in Hj. rewrite Hj. eexists _, _. cbn.
    repeat split; cbn; try reflexivity.
    + unfold to_uint16. rewrite Z.mod_small by lia. reflexivity.
    + apply length_insert.
    + intros j Hle. apply list_lookup_insert_ne.
      unfold to_uint16 in Hle. rewrite Z.mod_small in Hle by lia. lia.
Qed.

Lemma track_cb_overflow wpt st h :
  trk_head st = Some h ->
  th_num_points h = Z.of_nat (length (trk_points st)) + 1 ->
  humminbird_track_cb wpt st
  = Fault (StoreOutOfBounds (length (trk_points st)) (length (trk_points st))).
Proof.
  intros Hh Hi. unfold humminbird_track_cb. rewrite Hh.
  destruct (th_num_points h =? 0) eqn:E0; [apply Z.eqb_eq in E0; lia|].
  replace (Z.to_nat (th_num_points h - 1)) with (length (trk_points st)) by lia.
  rewrite Nat.ltb_irrefl. reflexivity.
Qed.

(** ** The track encoder: all points of a track *)

Lemma track_cb_all_ok wpts : forall st h,
  trk_head st = Some h ->
  0 <= th_num_points h ->
  th_num_points h + Z.of_nat (length wpts)
    <= Z.of_nat (length (trk_points st)) + 1 ->
  Z.of_nat (length (trk_points st)) + 1 < 65536 ->
  exists st' h',
    track_cb_all wpts st = Ok st' /\
    trk_head st' = Some h' /\
    th_num_points h' = th_num_points h + Z.of_nat (length wpts) /\
    th_name h' = th_name h /\
    length (trk_points st') = length (trk_points st) /\
    fout_ st' = fout_ st /\
    (forall j, (Z.to_nat (th_num_points h' - 1) <= j)%nat ->
               trk_points st' !! j = trk_points st !! j).
Proof.
  induction wpts as [|wpt rest IH]; intros st h Hh H0 Hfit Hw.
  - exists st, h. cbn. repeat split; try assumption; lia.
  - cbn [length] in Hfit.
    destruct (track_cb_ok wpt st h Hh) as (st1 & h1 & E1 & Hh1 & Hc1 & Hn1 & Hl1 & Hf1 & Hz1);
      [lia | lia |].
    destruct (IH st1 h1 Hh1) as (st2 & h2 & E2 & Hh2 & Hc2 & Hn2 & Hl2 & Hf2 & Hz2);
      [lia | lia | lia |].
    exists st2, h2. cbn [track_cb_all]. rewrite E1. cbn.
    repeat split; try congruence.
    + cbn [length]. lia.
    + intros j Hj. rewrite Hz2 by exact Hj. apply Hz1. lia.
Qed.

Lemma track_cb_all_overflow wpts : forall st h,
  trk_head st = Some h ->
  0 <= th_num_points h <= Z.of_nat (length (trk_points st)) + 1 ->
  Z.of_nat (length (trk_points st)) + 1
    < th_num_points h + Z.of_nat (length wpts) ->
  Z.of_nat (length (trk_points st)) + 1 < 65536 ->
  track_cb_all wpts st
  = Fault (StoreOutOfBounds (length (trk_points st)) (length (trk_points st))).
Proof.
  induction wpts as [|wpt rest IH]; intros st h Hh H0 Hover Hw.
  - cbn [length] in Hover. lia.
  - cbn [length] in Hover. cbn [track_cb_all].
    destruct (Z.eq_dec (th_num_points h) (Z.of_nat (length (trk_points st)) + 1))
      as [Hfull|Hroom].
    + rewrite (track_cb_overflow wpt st h Hh Hfull). reflexivity.
    + destruct (track_cb_ok wpt st h Hh) as (st1 & h1 & E1 & Hh1 & Hc1 & Hn1 & Hl1 & Hf1 & Hz1);
        [lia | lia |].
      rewrite E1. cbn. rewrite <- Hl1. apply (IH st1 h1 Hh1); lia.
Qed.

(** ** The track encoder: a whole track *)

Lemma track_head_nonempty mk trk st :
  rte_waypts trk <> [] ->
  exists h,
    trk_head (humminbird_track_head mk trk st) = Some h /\
    th_num_points h = 0 /\
    length (th_name h) = 20%nat /\
    trk_points (humminbird_track_head mk trk st)
      = replicate (Z.to_nat max_points) zero_point /\
    fout_ (humminbird_track_head mk trk st) = fout_ st.
Proof.
  intros Hne. unfold humminbird_track_head.
  destruct (rte_waypts trk) as [|w ws]; [congruence|].
  eexists. cbn. repeat split. apply strncpy_field_length.
Qed.

Lemma write_track_overflow mk trk st :
  max_points + 1 < Z.of_nat (length (rte_waypts trk)) ->
  write_track mk trk st
  = Fault (StoreOutOfBounds (Z.to_nat max_points) (Z.to_nat max_points)).
Proof.
  intros Hlen. unfold write_track.
  assert (Hne : rte_waypts trk <> []).
  { intros E. rewrite E in Hlen. cbn in Hlen. rewrite max_points_eq in Hlen. lia. }
  destruct (track_head_nonempty mk trk st Hne) as (h & Hh & Hc & _ & Hp & _).
  pose proof max_points_nat as HN. rewrite max_points_eq in Hlen.
  rewrite (track_cb_all_overflow _ _ h Hh); rewrite ?Hp, ?length_replicate, ?Hc;
    try lia.
  reflexivity.
Qed.

Lemma write_track_ok mk trk st :
  rte_waypts trk <> [] ->
  Z.of_nat (length (rte_waypts trk)) <= max_points + 1 ->
  exists h pts lt le ln,
    write_track mk trk st
    = Ok {| fout_ := fout_ st ++ track_record h pts lt le ln;
            trk_head := None; trk_points := [];
            last_time := lt; last_east := le; last_north := ln |} /\
    th_num_points h = Z.of_nat (length (rte_waypts trk)) /\
    length (th_name h) = 20%nat /\
    length pts = Z.to_nat max_points /\
    (forall j, (length (rte_waypts trk) - 1 <= j < Z.to_nat max_points)%nat ->
               pts !! j = Some zero_point).
Proof.
  intros Hne Hlen. unfold write_track.
  destruct (track_head_nonempty mk trk st Hne) as (h & Hh & Hc & Hn & Hp & Hf).
  pose proof max_points_nat as HN. rewrite max_points_eq in Hlen.
  destruct (track_cb_all_ok (rte_waypts trk) _ h Hh)
    as (st' & h' & E & Hh' & Hc' & Hn' & Hl' & Hf' & Hz');
    rewrite ?Hp, ?length_replicate, ?Hc; try lia.
  rewrite E. cbn. unfold humminbird_track_tail. rewrite Hh'.
  exists h', (trk_points st'), (last_time st'), (last_east st'), (last_north st').
  rewrite Hf', Hf. repeat split.
  - rewrite Hc', Hc. lia.
  - congruence.
  - rewrite Hl', Hp. apply length_replicate.
  - intros j Hj. rewrite Hz', Hp.
    + apply lookup_replicate_2. lia.
    + rewrite Hc', Hc. lia.
Qed.

(** The bytes of the point array, slot by slot. *)
Lemma points_bytes_slot ps : forall j p,
  ps !! j = Some p ->
  take 6 (drop (6 * j) (points_bytes ps)) = point_bytes p.
Proof.
  induction ps as [|q ps IH]; intros j p Hj; [discriminate|].
  destruct j as [|j].
  - cbn in Hj. injection Hj as ->. reflexivity.
  - cbn in Hj. replace (6 * S j)%nat with (6 + 6 * j)%nat by lia.
    unfold points_bytes. cbn [map concat].
    change (point_bytes q ++ concat (map point_bytes ps))
      with (be_write16 (deltaeast q) ++ be_write16 (deltanorth q)
            ++ be_write16 (pt_depth q) ++ points_bytes ps).
    cbn [be_write16 app]. rewrite <- drop_drop. cbn [drop].
    apply IH. exact Hj.
Qed.

(** C1 (the code at the failing input).  The callback stores point number i
    of a track (i >= 1) into slot i - 1 of the array of [max_points] = 21835
    cells without any test: for a track of 21837 points the last call stores
    into slot 21835, one past the end of the array, and no fatal error is
    raised before. *)
Theorem track_cb_stores_past_the_array mk st :
  write_track mk (long_track 21837) st
  = Fault (StoreOutOfBounds (Z.to_nat 21835) (Z.to_nat 21835)).
Proof.
  rewrite <- max_points_eq. apply write_track_overflow.
  unfold long_track; cbn [rte_waypts]. rewrite length_replicate, max_points_eq. lia.
Qed.

(** C10 (amended).  Every record the encoder emits for a non-empty track is
    131080 bytes long, whatever the number of points: the 4-byte signature, a
    header of 64 bytes, the whole array of 21835 point cells of 6 bytes, and
    two zero bytes; the cells from index (number of points - 1) on are zero.
    A track of at most 21836 points is emitted. *)
Theorem track_record_fixed_size mk trk st :
  (0 < length (rte_waypts trk))%nat ->
  (Z.of_nat (length (rte_waypts trk)) <= 21836 ->
   is_Ok (write_track mk trk st)) /\
  (forall st', write_track mk trk st = Ok st' ->
   exists hdr pts,
     fout_ st' = fout_ st ++ be_write32 TRK_MAGIC ++ hdr ++ pts ++ [0; 0] /\
     Z.of_nat (length hdr) = 64 /\
     Z.of_nat (length pts) = 6 * 21835 /\
     Z.of_nat (length (be_write32 TRK_MAGIC ++ hdr ++ pts ++ [0; 0])) = 131080 /\
     (forall j, (length (rte_waypts trk) - 1 <= j)%nat -> Z.of_nat j < 21835 ->
                take 6 (drop (6 * j) pts) = [0; 0; 0; 0; 0; 0])).
Proof.
  intros Hpos.
  assert (Hne : rte_waypts trk <> []).
  { intros E. rewrite E in Hpos. cbn in Hpos. lia. }
  pose proof max_points_nat as HN.
  split.
  - intros Hlen.
    destruct (write_track_ok mk trk st Hne) as (h & pts & lt & le & ln & E & _);
      [rewrite max_points_eq; lia|].
    rewrite E. exact I.
  - intros st' Hok.
    destruct (Z_le_gt_dec (Z.of_nat (length (rte_waypts trk))) 21836)
      as [Hlen|Hlen].
    + destruct (write_track_ok mk trk st Hne)
        as (h & pts & lt & le & ln & E & Hc & Hn & Hl & Hz);
        [rewrite max_points_eq; lia|].
      rewrite E in Hok. injection Hok as <-. cbn [fout_].
      set (h' := {| th_trk_num := th_trk_num h; th_num_points := th_num_points h;
                    th_time := lt;
                    th_start_east := th_start_east h;
                    th_start_north := th_start_north h;
                    th_end_east := le; th_end_north := ln;
                    th_sw_east := th_sw_east h; th_sw_north := th_sw_north h;
                    th_ne_east := th_ne_east h; th_ne_north := th_ne_north h;
                    th_name := th_name h |}).
      assert (Hh' : length (header_bytes h') = 64%nat)
        by (apply header_bytes_length; exact Hn).
      exists (header_bytes h'), (points_bytes pts).
      repeat split.
      * rewrite Hh'. reflexivity.
      * rewrite points_bytes_length. lia.
      * rewrite !length_app, Hh', points_bytes_length.
        cbn [be_write32 length]. lia.
      * intros j Hj1 Hj2.
        rewrite (points_bytes_slot pts j zero_point); [reflexivity|].
        apply Hz. lia.
    + rewrite write_track_overflow in Hok; [discriminate|].
      rewrite max_points_eq. lia.
Qed.

Lemma track_record_fixed_size_witness :
  (0 < length (rte_waypts (long_track 3)))%nat /\
  is_Ok (write_track (fun name => name) (long_track 3) ht_init).
Proof.
  assert (H : (0 < length (rte_waypts (long_track 3)))%nat) by (simpl; lia).
  split; [exact H|].
  apply (track_record_fixed_size (fun name => name) (long_track 3) ht_init H).
  simpl; lia.
Defined.

(** C10 as stated fails: the record of a one-point track is 131080 bytes
    long, not 4 + 68 + 21834 * 6 + 2 = 131078. *)
Lemma track_record_size_counterexample :
  exists st',
    write_track (fun name => name) (long_track 1) ht_init = Ok st' /\
    Z.of_nat (length (fout_ st')) = 131080 /\
    Z.of_nat (length (fout_ st')) <> 4 + 68 + 21834 * 6 + 2.
Proof.
  destruct (write_track_ok (fun name => name) (long_track 1) ht_init)
    as (h & pts & lt & le & ln & E & _ & Hn & Hl & _).
  - discriminate.
  - unfold long_track; cbn [rte_waypts].
    rewrite length_replicate, max_points_eq. lia.
  - eexists. split; [exact E|]. cbn [fout_ ht_init app].
    rewrite track_record_length by exact Hn.
    rewrite Hl, max_points_nat. lia.
Qed.

(** ** The icon of a written waypoint *)

Lemma find_icon_first test icons : forall base i,
  first_match test icons i ->
  find_icon test icons base = Some (base + Z.of_nat i).
Proof.
  induction icons as [|name rest IH]; intros base i [(n & Hn & Ht) Hbefore].
  - discriminate.
  - destruct i as [|i]; cbn [find_icon].
    + cbn in Hn. injection Hn as ->. rewrite Ht. f_equal. lia.
    + rewrite (Hbefore 0%nat name) by (reflexivity || lia).
      rewrite (IH (base + 1) i).
      * f_equal. lia.
      * split; [exists n; split; assumption|].
        intros j m Hj Hm. apply (Hbefore (S j) m); [lia | exact Hm].
Qed.

Lemma find_icon_none test icons : forall base,
  no_match test icons -> find_icon test icons base = None.
Proof.
  induction icons as [|name rest IH]; intros base Hno; [reflexivity|].
  cbn [find_icon]. rewrite (Hno 0%nat name) by reflexivity.
  apply IH. intros j m Hm. apply (Hno (S j) m). exact Hm.
Qed.

Lemma first_match_lt test icons i :
  first_match test icons i -> (i < length icons)%nat.
Proof. intros [(n & Hn & _) _]. eapply lookup_lt_Some. exact Hn. Qed.

Lemma waypoint_record_icon icons mk wpt num :
  byte_at (waypoint_record icons mk wpt num) 9
  = write_icon icons (icon_descr wpt).
Proof. reflexivity. Qed.

(** C4 (amended).  With a table of at most 255 names, the icon byte of the
    written record is: the index of the first name equal to the description
    (case-insensitively); else the index of the first name contained in the
    description (case-insensitively); else 0 when the waypoint has a
    description that matches no name, and 255 only when it has no
    description at all. *)
Theorem write_waypoint_icon_policy icons mk wpt num :
  Z.of_nat (length icons) <= 255 ->
  let icon := byte_at (waypoint_record icons mk wpt num) 9 in
  (forall d i, icon_descr wpt = Some d ->
     first_match (equal_ci d) icons i -> icon = Z.of_nat i) /\
  (forall d i, icon_descr wpt = Some d ->
     no_match (equal_ci d) icons ->
     first_match (contains_ci d) icons i -> icon = Z.of_nat i) /\
  (forall d, icon_descr wpt = Some d ->
     no_match (equal_ci d) icons -> no_match (contains_ci d) icons ->
     icon = 0) /\
  (icon_descr wpt = None -> icon = 255).
Proof.
  intros Hlen icon. subst icon. rewrite waypoint_record_icon.
  repeat split.
  - intros d i -> Hm. pose proof (first_match_lt _ _ _ Hm) as Hi.
    unfold write_icon. rewrite (find_icon_first _ _ 0 i Hm).
    unfold to_uint8. rewrite Z.mod_small by lia.
    destruct (0 + Z.of_nat i =? 255) eqn:E; [apply Z.eqb_eq in E; lia | lia].
  - intros d i -> Hno Hm. pose proof (first_match_lt _ _ _ Hm) as Hi.
    unfold write_icon. rewrite (find_icon_none _ _ 0 Hno).
    cbn [Z.eqb Pos.eqb]. rewrite (find_icon_first _ _ 0 i Hm).
    unfold to_uint8. rewrite Z.mod_small by lia. lia.
  - intros d -> Hno1 Hno2. unfold write_icon.
    rewrite (find_icon_none _ _ 0 Hno1). cbn [Z.eqb Pos.eqb].
    rewrite (find_icon_none _ _ 0 Hno2). reflexivity.
  - intros ->. reflexivity.
Qed.

Lemma write_waypoint_icon_policy_witness :
  Z.of_nat (length sample_icons) <= 255 /\
  byte_at (waypoint_record sample_icons shortname
             (sample_wpt (Some "Green diamond"%string)) 0) 9 = 1.
Proof.
  assert (H : Z.of_nat (length sample_icons) <= 255) by (simpl; lia).
  split; [exact H|].
  apply (proj1 (proj2 (write_waypoint_icon_policy sample_icons shortname
                         (sample_wpt (Some "Green diamond"%string)) 0 H))
           "Green diamond"%string 1%nat).
  - reflexivity.
  - intros [|[|j]] name Hj; vm_compute in Hj; try discriminate Hj;
      injection Hj as <-; reflexivity.
  - split.
    + exists "Diamond"%string. split; reflexivity.
    + intros [|j] name Hlt Hj; [|lia].
      vm_compute in Hj. injection Hj as <-. reflexivity.
Defined.

(** C4 as stated fails at step (3): a description that matches no name of the
    table, neither exactly nor by containment, is written as icon 0. *)
Lemma write_waypoint_icon_counterexample :
  forallb (fun name => negb (equal_ci "Zebra" name)) sample_icons = true /\
  forallb (fun name => negb (contains_ci "Zebra" name)) sample_icons = true /\
  byte_at (waypoint_record sample_icons shortname
             (sample_wpt (Some "Zebra"%string)) 0) 9 = 0 /\
  byte_at (waypoint_record sample_icons shortname
             (sample_wpt (Some "Zebra"%string)) 0) 9 <> 255.
Proof. repeat split; try reflexivity. vm_compute. discriminate. Qed.

(** ** The byte stream *)

Lemma gb_rest_advance n f : gb_rest (gb_advance n f) = drop n (gb_rest f).
Proof.
  unfold gb_rest, gb_advance. cbn [gb_pos gb_data].
  rewrite drop_drop. reflexivity.
Qed.

Lemma gb_rest_advance_app f bytes rest :
  gb_rest f = bytes ++ rest -> gb_rest (gb_advance (length bytes) f) = rest.
Proof. intros E. rewrite gb_rest_advance, E. apply drop_app_length. Qed.

Lemma gbfread_enough size members f bytes rest :
  0 < size -> 0 <= members ->
  gb_rest f = bytes ++ rest ->
  Z.of_nat (length bytes) = size * members ->
  gbfread size members f = (members, bytes, gb_advance (length bytes) f).
Proof.
  intros Hs Hm E Hl. unfold gbfread. rewrite E.
  replace (Z.to_nat (size * members)) with (length bytes) by lia.
  rewrite take_app_length. rewrite Hl.
  rewrite Z.mul_comm, Z.div_mul by lia. reflexivity.
Qed.

Lemma fill_struct_full size bytes :
  Z.of_nat (length bytes) = size -> fill_struct size bytes = bytes.
Proof.
  intros E. unfold fill_struct.
  replace (Z.to_nat size) with (length bytes) by lia.
  apply take_app_length.
Qed.

Lemma gbfgetuint32_enough f sig rest :
  0 <= sig < 4294967296 ->
  gb_rest f = be_write32 sig ++ rest ->
  gbfgetuint32 f = Ok (sig, gb_advance 4 f).
Proof.
  intros Hs E. unfold gbfgetuint32.
  rewrite (gbfread_enough 1 4 f (be_write32 sig) rest) by (reflexivity || lia || exact E).
  cbn [Z.ltb Z.compare Pos.compare Pos.compare_cont].
  cbn [be_write32 length]. f_equal. f_equal.
  unfold be_read32, be_write32.
  assert (H2 : sig / 65536 = sig / 256 / 256) by (rewrite Z.div_div by lia; reflexivity).
  assert (H3 : sig / 16777216 = sig / 65536 / 256) by (rewrite Z.div_div by lia; reflexivity).
  assert (Hq : 0 <= sig / 16777216 < 256).
  { split; [apply Z.div_pos; lia | apply Z.div_lt_upper_bound; lia]. }
  rewrite (Z.mod_small (sig / 16777216)) by exact Hq.
  pose proof (Z.div_mod sig 256 ltac:(lia)) as D1.
  pose proof (Z.div_mod (sig / 256) 256 ltac:(lia)) as D2.
  pose proof (Z.div_mod (sig / 65536) 256 ltac:(lia)) as D3.
  rewrite <- H2 in D2. rewrite <- H3 in D3. lia.
Qed.

Lemma status_switch {A} (s : Z) (a b : A) :
  match s with 0 => a | 1 | 2 | 3 => b | _ => a end
  = if (s =? 1) || (s =? 2) || (s =? 3) then b else a.
Proof.
  destruct s as [|p|p]; [reflexivity| |reflexivity].
  destruct p as [[?|?|]|[?|?|]|]; reflexivity.
Qed.

(** ** Waypoint records *)

Lemma read_wpt_full icons st body rest :
  gb_rest (fin_ st) = body ++ rest ->
  length body = 32%nat ->
  exists st',
    humminbird_read_wpt icons st = Ok st' /\
    fin_ st' = gb_advance 32 (fin_ st) /\
    routes st' = routes st /\ tracks st' = tracks st /\
    warnings st' = warnings st /\
    let status := byte_at body 4 in
    let num := be_read16 (field body 0 2) in
    if (status =? 1) || (status =? 2) || (status =? 3) then
      exists wpt,
        waypts st' = waypts st ++ [wpt] /\
        wpt_num_to_wpt_hash st' = <[num := wpt]> (wpt_num_to_wpt_hash st) /\
        shortname wpt = c_str (field body 20 12) /\
        east wpt = to_int32 (be_read32 (field body 12 4)) /\
        north wpt = to_int32 (be_read32 (field body 16 4))
    else
      waypts st' = waypts st /\
      wpt_num_to_wpt_hash st' = wpt_num_to_wpt_hash st.
Proof.
  intros E Hl. unfold humminbird_read_wpt.
  rewrite (gbfread_enough 1 sizeof_waypt (fin_ st) body rest)
    by first [exact E | reflexivity | discriminate | rewrite Hl; reflexivity].
  change (sizeof_waypt =? 0) with false. cbv iota.
  rewrite fill_struct_full by (rewrite Hl; reflexivity).
  rewrite status_switch, Hl. cbv zeta.
  destruct ((byte_at body 4 =? 1) || (byte_at body 4 =? 2) || (byte_at body 4 =? 3)).
  - eexists. split; [reflexivity|]. repeat split.
    eexists. repeat split.
  - eexists. split; [reflexivity|]. repeat split.
Qed.

(** C7.  A waypoint record (the 4-byte signature and the 32 bytes of the
    structure, 36 bytes in all) is consumed whole whatever its status; the
    waypoint is added to the waypoint list and registered under its number
    exactly when the status is 1, 2 or 3, and for every other status neither
    the list nor the index changes. *)
Theorem read_wpt_status_filter icons st sig body rest :
  gb_rest (fin_ st) = be_write32 sig ++ body ++ rest ->
  sig = WPT_MAGIC \/ sig = WPT_MAGIC2 ->
  length body = 32%nat ->
  exists st',
    read_record icons st = inl (Ok st') /\
    gb_pos (fin_ st') = (gb_pos (fin_ st) + 36)%nat /\
    routes st' = routes st /\ tracks st' = tracks st /\
    warnings st' = warnings st /\
    let status := byte_at body 4 in
    let num := be_read16 (field body 0 2) in
    if (status =? 1) || (status =? 2) || (status =? 3) then
      exists wpt,
        waypts st' = waypts st ++ [wpt] /\
        wpt_num_to_wpt_hash st' = <[num := wpt]> (wpt_num_to_wpt_hash st) /\
        shortname wpt = c_str (field body 20 12) /\
        east wpt = to_int32 (be_read32 (field body 12 4)) /\
        north wpt = to_int32 (be_read32 (field body 16 4))
    else
      waypts st' = waypts st /\
      wpt_num_to_wpt_hash st' = wpt_num_to_wpt_hash st.
Proof.
  intros E Hsig Hl. unfold read_record.
  rewrite (gbfgetuint32_enough (fin_ st) sig (body ++ rest))
    by (first [exact E | destruct Hsig as [-> | ->]; vm_compute; intuition discriminate]).
  assert (Hm : (sig =? WPT_MAGIC) || (sig =? WPT_MAGIC2) = true)
    by (destruct Hsig as [-> | ->]; reflexivity).
  rewrite Hm.
  destruct (read_wpt_full icons (set_fin (gb_advance 4 (fin_ st)) st) body rest)
    as (st' & Er & Hf & Hr & Ht & Hw & Hs).
  - cbn [set_fin fin_]. apply (gb_rest_advance_app _ (be_write32 sig)). exact E.
  - exact Hl.
  - exists st'. split; [rewrite Er; reflexivity|].
    split; [rewrite Hf; cbn; lia|].
    repeat split; assumption.
Qed.

Lemma read_wpt_status_filter_witness :
  let st := humminbird_rd_init (be_write32 WPT_MAGIC ++ sample_waypt_body 1 ++ []) in
  gb_rest (fin_ st) = be_write32 WPT_MAGIC ++ sample_waypt_body 1 ++ [] /\
  (WPT_MAGIC = WPT_MAGIC \/ WPT_MAGIC = WPT_MAGIC2) /\
  length (sample_waypt_body 1) = 32%nat /\
  exists st', read_record [] st = inl (Ok st') /\
              gb_pos (fin_ st') = (gb_pos (fin_ st) + 36)%nat.
Proof.
  intros st.
  assert (H1 : gb_rest (fin_ st) = be_write32 WPT_MAGIC ++ sample_waypt_body 1 ++ [])
    by reflexivity.
  assert (H2 : WPT_MAGIC = WPT_MAGIC \/ WPT_MAGIC = WPT_MAGIC2)
    by (left; reflexivity).
  assert (H3 : length (sample_waypt_body 1) = 32%nat) by reflexivity.
  repeat split; try assumption.
  destruct (read_wpt_status_filter [] st WPT_MAGIC (sample_waypt_body 1) [] H1 H2 H3)
    as (st' & Hr & Hp & _).
  exists st'. split; assumption.
Defined.

(** ** Route records *)

Lemma route_extend_cons name rte w ws :
  route_extend name rte (w :: ws)
  = route_extend name
      (Some (route_add_wpt
               match rte with
               | Some r => r
               | None => {| rte_name := c_str name; rte_num := 0;
                            rte_waypts := [] |}
               end w)) ws.
Proof.
  destruct rte as [r|], ws as [|w' ws]; cbn; try reflexivity.
  - destruct r; cbn. rewrite <- app_assoc. reflexivity.
Qed.

Lemma read_route_points_ok points hash name k : forall i rte,
  (i + k <= length points)%nat ->
  read_route_points k i points hash name rte
  = Ok (route_extend name rte
          (omap (fun num => hash !! num) (take k (drop i points)))).
Proof.
  induction k as [|k IH]; intros i rte Hlen.
  - cbn. rewrite take_0. reflexivity.
  - cbn [read_route_points].
    destruct (points !! i) as [num|] eqn:Ei.
    2:{ apply lookup_ge_None in Ei. lia. }
    rewrite (drop_S _ _ _ Ei). cbn [take]. rewrite IH by lia.
    cbn [omap list_omap].
    destruct (hash !! num) as [wpt|] eqn:Eh.
    + rewrite route_extend_cons. reflexivity.
    + reflexivity.
Qed.

Lemma read_route_points_overrun points hash name k : forall i rte,
  (i <= length points < i + k)%nat ->
  read_route_points k i points hash name rte
  = Fault (LoadOutOfBounds (length points) (length points)).
Proof.
  induction k as [|k IH]; intros i rte Hlen; [lia|].
  cbn [read_route_points].
  destruct (points !! i) as [num|] eqn:Ei.
  - apply lookup_lt_Some in Ei. apply IH. lia.
  - apply lookup_ge_None in Ei.
    replace i with (length points) by lia. reflexivity.
Qed.

Lemma hrte_points_length hrte : length (hrte_points hrte) = 50%nat.
Proof. unfold hrte_points. rewrite length_map, length_seq. reflexivity. Qed.

Lemma read_route_full st body rest :
  gb_rest (fin_ st) = body ++ rest ->
  length body = 132%nat ->
  humminbird_read_route st
  = let count := to_int8 (byte_at body 7) in
    let st := set_fin (gb_advance 132 (fin_ st)) st in
    if count >? 0 then
      rte ← read_route_points (Z.to_nat count) 0 (hrte_points body)
              (wpt_num_to_wpt_hash st) (field body 12 20) None;
      match rte with
      | Some r => Ok (route_add r st)
      | None => Ok st
      end
    else Ok st.
Proof.
  intros E Hl. unfold humminbird_read_route.
  rewrite (gbfread_enough 1 sizeof_rte (fin_ st) body rest)
    by first [exact E | reflexivity | discriminate | rewrite Hl; reflexivity].
  change (sizeof_rte =? 0) with false. cbv iota.
  rewrite fill_struct_full by (rewrite Hl; reflexivity).
  rewrite Hl. reflexivity.
Qed.

(** C3 (amended).  When a route record with 1 to 50 points is decoded, a
    point number that is not in the waypoint index is dropped and the other
    points keep their order; the route is added when at least one point
    resolved; no warning is emitted, the drop is silent. *)
Theorem read_route_drops_unresolved st body rest :
  gb_rest (fin_ st) = body ++ rest ->
  length body = 132%nat ->
  0 < to_int8 (byte_at body 7) <= 50 ->
  let nums := take (Z.to_nat (to_int8 (byte_at body 7))) (hrte_points body) in
  let wpts := omap (fun num => wpt_num_to_wpt_hash st !! num) nums in
  exists st',
    humminbird_read_route st = Ok st' /\
    warnings st' = warnings st /\
    waypts st' = waypts st /\
    wpt_num_to_wpt_hash st' = wpt_num_to_wpt_hash st /\
    tracks st' = tracks st /\
    routes st' =
      match wpts with
      | [] => routes st
      | _ :: _ =>
        routes st ++ [ {| rte_name := c_str (field body 12 20); rte_num := 0;
                          rte_waypts := wpts |} ]
      end.
Proof.
  intros E Hl Hc nums wpts. rewrite (read_route_full st body rest E Hl).
  cbv zeta. destruct (to_int8 (byte_at body 7) >? 0) eqn:Ec; [|lia].
  rewrite read_route_points_ok by (rewrite hrte_points_length; lia).
  rewrite drop_0. cbn [set_fin wpt_num_to_wpt_hash].
  fold nums. fold wpts.
  destruct wpts as [|w ws]; cbn; eexists; repeat split.
Qed.

Lemma read_route_drops_unresolved_witness :
  let st := sample_route_reader 3 [5; 99; 7] in
  let body := sample_rte_body 3 [5; 99; 7] in
  gb_rest (fin_ st) = body ++ [] /\
  length body = 132%nat /\
  0 < to_int8 (byte_at body 7) <= 50 /\
  exists st', humminbird_read_route st = Ok st' /\ warnings st' = warnings st.
Proof.
  intros st body.
  assert (H1 : gb_rest (fin_ st) = body ++ []) by reflexivity.
  assert (H2 : length body = 132%nat) by reflexivity.
  assert (H3 : 0 < to_int8 (byte_at body 7) <= 50) by (vm_compute; split; [reflexivity | discriminate]).
  repeat split; try assumption; try apply H3.
  destruct (read_route_drops_unresolved st body [] H1 H2 H3)
    as (st' & Hr & Hw & _).
  exists st'. split; assumption.
Defined.

(** C3 as stated fails: for the point list [5, 99, 7] with 99 not in the
    index, the route is decoded with the points of 5 and 7 in that order,
    and no warning at all is recorded. *)
Lemma read_route_warning_counterexample :
  exists st',
    humminbird_read_route (sample_route_reader 3 [5; 99; 7]) = Ok st' /\
    sample_index !! 99 = None /\
    map rte_waypts (routes st')
      = [[sample_wpt None;
          {| shortname := [55]; creation_time := None; north := 7;
             east := 7; depth := None; icon_descr := None |}]] /\
    length (warnings st') <> 1%nat.
Proof.
  eexists. split; [vm_compute; reflexivity|].
  split; [vm_compute; reflexivity|].
  split; [reflexivity|]. cbn. discriminate.
Qed.

(** C2 (the code at the failing input).  The loop over the points of a
    route reads [hrte.points[i]] for every i below the count, and the count
    is not compared with 50: for a record whose count is 51 the last turn
    reads index 50 of the 50-entry array, and no fatal error is raised. *)
Theorem read_route_reads_past_the_array nums :
  humminbird_read_route (sample_route_reader 51 nums)
  = Fault (LoadOutOfBounds 50 50).
Proof.
  rewrite (read_route_full _ (sample_rte_body 51 nums) []).
  - cbv zeta.
    change (to_int8 (byte_at (sample_rte_body 51 nums) 7)) with 51.
    change (51 >? 0) with true. cbv iota.
    rewrite read_route_points_overrun.
    + rewrite hrte_points_length. reflexivity.
    + rewrite hrte_points_length. lia.
  - unfold sample_route_reader, gb_rest. cbn [fin_ gb_pos gb_data drop].
    rewrite app_nil_r. reflexivity.
  - unfold sample_rte_body. rewrite !length_app, length_take, length_app, length_replicate.
    cbn [length]. lia.
Qed.

(** ** Arithmetic of the accumulators *)

Lemma to_int32_mod x : to_int32 x mod 4294967296 = x mod 4294967296.
Proof.
  unfold to_int32. cbv zeta.
  destruct (x mod 4294967296 <? 2147483648).
  - apply Z.mod_mod. lia.
  - replace (x mod 4294967296 - 4294967296)
      with (x mod 4294967296 + (-1) * 4294967296) by lia.
    rewrite Z.mod_add by lia. apply Z.mod_mod. lia.
Qed.

Lemma to_int32_congr x y :
  x mod 4294967296 = y mod 4294967296 -> to_int32 x = to_int32 y.
Proof. intros E. unfold to_int32. rewrite E. reflexivity. Qed.

Lemma to_int32_add_l a b : to_int32 (to_int32 a + b) = to_int32 (a + b).
Proof.
  apply to_int32_congr.
  rewrite Z.add_mod, to_int32_mod, <- Z.add_mod by lia. reflexivity.
Qed.

Lemma to_int32_range x : -2147483648 <= to_int32 x < 2147483648.
Proof.
  unfold to_int32. cbv zeta.
  pose proof (Z.mod_pos_bound x 4294967296 ltac:(lia)).
  destruct (x mod 4294967296 <? 2147483648) eqn:E;
    [apply Z.ltb_lt in E | apply Z.ltb_ge in E]; lia.
Qed.

Lemma to_int32_small x :
  -2147483648 <= x < 2147483648 -> to_int32 x = x.
Proof.
  intros H. unfold to_int32. cbv zeta.
  destruct (Z_lt_dec x 0).
  - replace (x mod 4294967296) with (x + 4294967296).
    + destruct (x + 4294967296 <? 2147483648) eqn:E;
        [apply Z.ltb_lt in E|]; lia.
    + apply (Z.mod_unique_pos _ _ (-1)); lia.
  - rewrite Z.mod_small by lia.
    destruct (x <? 2147483648) eqn:E; [|apply Z.ltb_ge in E]; lia.
Qed.

Lemma to_int32_idem x : to_int32 (to_int32 x) = to_int32 x.
Proof. apply to_int32_small, to_int32_range. Qed.

(** ** The freak-value filter on one axis *)

Ltac case_if_lia :=
  repeat match goal with
         | |- context [if ?b then _ else _] => destruct b
         end; lia.

Lemma filter_axis_length cur rest : length (filter_axis cur rest) = length rest.
Proof.
  revert cur. induction rest as [|next rest IH]; intros cur; [reflexivity|].
  cbn [filter_axis]. destruct ((cur =? 32767) && (next =? -32768));
    cbn [length]; rewrite IH; reflexivity.
Qed.

Lemma sum_to_cons d ds k : sum_to (d :: ds) (S k) = d + sum_to ds k.
Proof. reflexivity. Qed.

Lemma sum_to_0 d ds : sum_to (d :: ds) 0 = d.
Proof. unfold sum_to. cbn [take foldr]. rewrite take_0. cbn. lia. Qed.

Lemma freak_pair_cons a ds k : freak_pair (a :: ds) (S k) = freak_pair ds k.
Proof. reflexivity. Qed.

Lemma freak_pair_0 a b ds :
  freak_pair (a :: b :: ds) 0 = (a =? 32767) && (b =? -32768).
Proof. reflexivity. Qed.

Lemma filter_axis_sum rest : forall cur k,
  (k < length rest)%nat ->
  sum_to (filter_axis cur rest) k
  = sum_to (cur :: rest) k
    - (if freak_pair (cur :: rest) k then 32768 else 0).
Proof.
  induction rest as [|next rest IH]; intros cur k Hk; [cbn in Hk; lia|].
  cbn [filter_axis]. cbn [length] in Hk.
  destruct ((cur =? 32767) && (next =? -32768)) eqn:Efire.
  - apply andb_true_iff in Efire as [Ec En].
    apply Z.eqb_eq in Ec, En. subst cur next.
    destruct k as [|k].
    + rewrite !sum_to_0. reflexivity.
    + rewrite !sum_to_cons, freak_pair_cons. rewrite IH by lia.
      destruct k as [|k].
      * rewrite !sum_to_0.
        destruct rest as [|b rest]; [cbn in Hk; lia|].
        rewrite !freak_pair_0. cbn. lia.
      * rewrite !sum_to_cons, !freak_pair_cons. case_if_lia.
  - destruct k as [|k].
    + rewrite !sum_to_0, freak_pair_0, Efire. lia.
    + rewrite !sum_to_cons, freak_pair_cons. rewrite IH by lia.
      case_if_lia.
Qed.

Lemma accumulate_lookup ds : forall acc k,
  (k < length ds)%nat ->
  accumulate acc ds !! k = Some (to_int32 (acc + sum_to ds k)).
Proof.
  induction ds as [|d ds IH]; intros acc k Hk; [cbn in Hk; lia|].
  cbn [accumulate]. destruct k as [|k].
  - rewrite sum_to_0. reflexivity.
  - cbn [lookup list_lookup]. cbn [length] in Hk.
    change ((to_int32 (acc + d) :: accumulate (to_int32 (acc + d)) ds) !! S k)
      with (accumulate (to_int32 (acc + d)) ds !! k).
    rewrite IH by lia. rewrite sum_to_cons. f_equal.
    rewrite to_int32_add_l. f_equal. lia.
Qed.

Lemma filter_axis_pair rest : forall cur k,
  freak_pair (cur :: rest) k = true ->
  filter_axis cur rest !! k = Some (-1) /\
  ((S k < length rest)%nat -> filter_axis cur rest !! S k = Some 0).
Proof.
  induction rest as [|next rest IH]; intros cur k Hp.
  - destruct k; discriminate Hp.
  - cbn [filter_axis]. destruct k as [|k].
    + rewrite freak_pair_0 in Hp. rewrite Hp. split; [reflexivity|].
      intros Hlen. destruct rest as [|b rest]; [cbn in Hlen; lia|].
      reflexivity.
    + rewrite freak_pair_cons in Hp.
      destruct ((cur =? 32767) && (next =? -32768)) eqn:Efire.
      * apply andb_true_iff in Efire as [_ En]. apply Z.eqb_eq in En. subst next.
        destruct k as [|k].
        -- destruct rest as [|b rest]; [discriminate Hp|].
           rewrite freak_pair_0 in Hp. discriminate Hp.
        -- destruct (IH 0 (S k)) as [H1 H2];
             [rewrite freak_pair_cons in *; exact Hp|].
           split; [exact H1|]. intros Hlen. apply H2. cbn in Hlen. lia.
      * destruct (IH next k Hp) as [H1 H2].
        split; [exact H1|]. intros Hlen. apply H2. cbn in Hlen. lia.
Qed.

(** Without such a pair the filter leaves every delta as it is. *)
Lemma filter_axis_plain ds : forall cur spare,
  (forall k, freak_pair (cur :: ds ++ [spare]) k = false) ->
  filter_axis cur (ds ++ [spare]) = cur :: ds.
Proof.
  induction ds as [|d ds IH]; intros cur spare Hno.
  - specialize (Hno 0%nat). cbn in Hno. cbn. rewrite Hno. reflexivity.
  - cbn [app filter_axis]. pose proof (Hno 0%nat) as H0.
    cbn [app] in H0. rewrite freak_pair_0 in H0. rewrite H0.
    f_equal. apply IH. intros k. specialize (Hno (S k)).
    rewrite freak_pair_cons in Hno. exact Hno.
Qed.

(** ** The point loop of the new format, cell by cell *)

Lemma read_track_points_cells num_points time rest :
  forall i points cur accum_east accum_north out,
  drop i points = cur :: rest ->
  read_track_points (length rest) i num_points time points
    accum_east accum_north out
  = Ok (out ++ decode_cells i num_points time cur rest accum_east accum_north).
Proof.
  induction rest as [|q rest IH]; intros i points cur ae an out Hd.
  - cbn. rewrite app_nil_r. reflexivity.
  - cbn [length read_track_points].
    assert (Hi : points !! i = Some cur).
    { rewrite <- (Nat.add_0_r i), <- lookup_drop, Hd. reflexivity. }
    assert (Hsi : points !! S i = Some q).
    { replace (S i) with (i + 1)%nat by lia.
      rewrite <- lookup_drop, Hd. reflexivity. }
    rewrite Hi, Hsi.
    destruct (freak_filter (to_int16 (deltaeast cur)) (deltaeast q))
      as [pe qe] eqn:Ee.
    destruct (freak_filter (to_int16 (deltanorth cur)) (deltanorth q))
      as [pn qn] eqn:En.
    rewrite (IH (S i) _ {| deltaeast := qe; deltanorth := qn;
                           pt_depth := pt_depth q |}).
    + cbn [decode_cells]. rewrite Ee, En. cbn [fst snd].
      rewrite <- app_assoc. reflexivity.
    + rewrite drop_insert_ge by lia. rewrite Nat.sub_diag.
      replace (S i) with (i + 1)%nat by lia.
      rewrite <- drop_drop, Hd. reflexivity.
Qed.

Lemma decode_cells_length num_points time rest : forall i cur ae an,
  length (decode_cells i num_points time cur rest ae an) = length rest.
Proof.
  induction rest as [|q rest IH]; intros; [reflexivity|].
  cbn [decode_cells length]. rewrite IH. reflexivity.
Qed.

Lemma decode_cells_east num_points time rest : forall i cur ae an,
  map east (decode_cells i num_points time cur rest ae an)
  = accumulate ae
      (filter_axis (to_int16 (deltaeast cur))
         (map (fun p => to_int16 (deltaeast p)) rest)).
Proof.
  induction rest as [|q rest IH]; intros; [reflexivity|].
  cbn [decode_cells map filter_axis]. rewrite IH. unfold freak_filter.
  destruct ((to_int16 (deltaeast cur) =? 32767)
            && (to_int16 (deltaeast q) =? -32768)); reflexivity.
Qed.

Lemma decode_cells_north num_points time rest : forall i cur ae an,
  map north (decode_cells i num_points time cur rest ae an)
  = accumulate an
      (filter_axis (to_int16 (deltanorth cur))
         (map (fun p => to_int16 (deltanorth p)) rest)).
Proof.
  induction rest as [|q rest IH]; intros; [reflexivity|].
  cbn [decode_cells map filter_axis]. rewrite IH. unfold freak_filter.
  destruct ((to_int16 (deltanorth cur) =? 32767)
            && (to_int16 (deltanorth q) =? -32768)); reflexivity.
Qed.

(** ** The point array of the new format *)

Lemma points_array_length n bytes : length (points_array n bytes) = n.
Proof. unfold points_array. rewrite length_map, length_seq. reflexivity. Qed.

Lemma fill_struct_body n body :
  (1 <= n)%nat -> length body = (6 * (n - 1))%nat ->
  fill_struct (sizeof_trk_point * Z.of_nat n) body = body ++ replicate 6 0.
Proof.
  intros Hn Hl. unfold fill_struct.
  change sizeof_trk_point with 6.
  replace (Z.to_nat (6 * Z.of_nat n)) with (6 * n)%nat by lia.
  rewrite take_app_ge by lia. rewrite take_replicate. f_equal. f_equal. lia.
Qed.

Lemma points_array_body n body i :
  length body = (6 * (n - 1))%nat -> (S i < n)%nat ->
  points_array n body !! i = Some (parse_trk_point (field body (6 * i) 6)).
Proof.
  intros Hl Hi. unfold points_array. cbv zeta.
  rewrite fill_struct_body by lia.
  rewrite list_lookup_fmap, lookup_seq_lt by lia. cbn [fmap option_fmap option_map].
  f_equal. f_equal. unfold field.
  rewrite drop_app_le by lia. apply take_app_le. rewrite length_drop. lia.
Qed.

Lemma points_array_spare n body :
  (1 <= n)%nat -> length body = (6 * (n - 1))%nat ->
  points_array n body !! (n - 1)%nat = Some zero_point.
Proof.
  intros Hn Hl. unfold points_array. cbv zeta.
  rewrite fill_struct_body by lia.
  rewrite list_lookup_fmap, lookup_seq_lt by lia. cbn [fmap option_fmap option_map].
  f_equal. unfold field. rewrite drop_app_length' by lia. reflexivity.
Qed.

Lemma check_num_points_cases n :
  check_num_points n
  = if n =? 21836 then Ok 21835
    else if n >? 21835 then Fatal (TooManyTrackPoints n) else Ok n.
Proof.
  unfold check_num_points. rewrite max_points_eq.
  change (21835 + 1) with 21836.
  destruct (n =? 21836) eqn:E.
  - apply Z.eqb_eq in E. subst n. reflexivity.
  - reflexivity.
Qed.

Lemma check_num_points_ok n n' :
  check_num_points n = Ok n' -> n' <= 21835.
Proof.
  unfold check_num_points. rewrite max_points_eq.
  destruct (_ >? 21835) eqn:E; [discriminate|].
  intros [= <-]. lia.
Qed.

Lemma read_points_body_full n fin body rest :
  2 <= n ->
  gb_rest fin = body ++ rest ->
  Z.of_nat (length body) = 6 * (n - 1) ->
  read_points_body n fin
  = Ok (points_array (Z.to_nat n) body, gb_advance (length body) fin).
Proof.
  intros Hn E Hl. unfold read_points_body.
  destruct (n - 1 <? 0) eqn:En; [lia|].
  rewrite (gbfread_enough sizeof_trk_point (n - 1) fin body rest)
    by first [exact E | reflexivity | lia | (change sizeof_trk_point with 6; lia)].
  destruct (n - 1 =? 0) eqn:E0; [lia|]. reflexivity.
Qed.

Lemma read_track_full st hdr body rest n :
  gb_rest (fin_ st) = hdr ++ body ++ rest ->
  length hdr = 64%nat ->
  check_num_points (be_read16 (field hdr 4 2)) = Ok n ->
  2 <= n ->
  Z.of_nat (length body) = 6 * (n - 1) ->
  humminbird_read_track st
  = Ok (track_add
          {| rte_name := c_str (field hdr 44 20);
             rte_num := be_read16 (field hdr 0 2);
             rte_waypts :=
               track_waypoints n (be_read32 (field hdr 8 4))
                 (to_int32 (be_read32 (field hdr 12 4)))
                 (to_int32 (be_read32 (field hdr 16 4)))
                 (points_array (Z.to_nat n) body) |}
          (set_fin (gb_advance (length body) (gb_advance 64 (fin_ st))) st)).
Proof.
  intros E Hh Hc Hn Hb. unfold humminbird_read_track.
  rewrite (gbfread_enough 1 sizeof_trk_header (fin_ st) hdr (body ++ rest))
    by first [exact E | reflexivity | discriminate | rewrite Hh; reflexivity].
  change (sizeof_trk_header =? 0) with false. cbv iota.
  rewrite fill_struct_full by (rewrite Hh; reflexivity).
  rewrite Hc. cbn [mbind outcome_bind].
  rewrite (read_points_body_full n _ body rest Hn) by
    first [exact Hb | apply (gb_rest_advance_app _ hdr); exact E].
  cbn [mbind outcome_bind]. rewrite Hh.
  pose proof (points_array_length (Z.to_nat n) body) as Hlen.
  destruct (points_array (Z.to_nat n) body) as [|cur cells] eqn:Ep;
    [cbn in Hlen; lia|].
  cbn [length] in Hlen.
  replace (Z.to_nat (n - 1)) with (length cells) by lia.
  rewrite (read_track_points_cells n _ cells 0 (cur :: cells) cur) by reflexivity.
  reflexivity.
Qed.

(** ** The point count of a new-format track *)

Ltac read_track_header E Hh :=
  unfold humminbird_read_track;
  match type of E with
  | gb_rest ?f = ?b ++ ?r =>
    rewrite (gbfread_enough 1 sizeof_trk_header f b r)
      by first [exact E | reflexivity | discriminate
               | (rewrite Hh; reflexivity)]
  end;
  change (sizeof_trk_header =? 0) with false; cbv iota;
  rewrite fill_struct_full by (rewrite Hh; reflexivity).

(** C6 (amended).  The header structure is 64 bytes long (68 with the
    signature), so the capacity is (131080 - 4 - 64) / 6 = 21835.  A stored
    count of 21836 is decremented to 21835; a count that is then above 21835
    is fatal; a count of 1 asks for no record and ends with the
    end-of-file error; for a count n from 2 to 21835 and a complete body the
    stream is advanced by exactly n - 1 records of 6 bytes, the first n - 1
    cells of the array hold these records and the last cell is never
    filled (it stays zero). *)
Theorem read_track_num_points st hdr rest :
  gb_rest (fin_ st) = hdr ++ rest ->
  length hdr = 64%nat ->
  let n := be_read16 (field hdr 4 2) in
  let n' := if n =? 21836 then 21835 else n in
  max_points = (131080 - 4 - 64) / 6 /\
  check_num_points n
    = (if n' >? 21835 then Fatal (TooManyTrackPoints n') else Ok n') /\
  (21835 < n' -> humminbird_read_track st = Fatal (TooManyTrackPoints n')) /\
  (n' = 1 -> humminbird_read_track st = Fatal UnexpectedEOFPoints) /\
  (2 <= n' <= 21835 ->
   forall body rest',
     rest = body ++ rest' ->
     Z.of_nat (length body) = 6 * (n' - 1) ->
     let points := points_array (Z.to_nat n') body in
     read_points_body n' (gb_advance 64 (fin_ st))
       = Ok (points, gb_advance (length body) (gb_advance 64 (fin_ st))) /\
     Z.of_nat (length points) = n' /\
     (forall i, Z.of_nat i < n' - 1 ->
        points !! i = Some (parse_trk_point (field body (6 * i) 6))) /\
     points !! Z.to_nat (n' - 1) = Some zero_point /\
     exists st' trk,
       humminbird_read_track st = Ok st' /\
       gb_rest (fin_ st') = rest' /\
       tracks st' = tracks st ++ [trk] /\
       Z.of_nat (length (rte_waypts trk)) = n').
Proof.
  intros E Hh n n'.
  assert (Hc : check_num_points n
               = (if n' >? 21835 then Fatal (TooManyTrackPoints n') else Ok n')).
  { rewrite check_num_points_cases. subst n'.
    destruct (n =? 21836); reflexivity. }
  split; [reflexivity|]. split; [exact Hc|]. split; [|split].
  - intros Hbig. read_track_header E Hh. fold n. rewrite Hc.
    destruct (n' >? 21835) eqn:Eb; [reflexivity | lia].
  - intros H1. read_track_header E Hh. fold n. rewrite Hc, H1. reflexivity.
  - intros Hn body rest' -> Hb points.
    assert (Hc' : check_num_points n = Ok n').
    { rewrite Hc. destruct (n' >? 21835) eqn:Eb; [lia | reflexivity]. }
    assert (Hr : gb_rest (gb_advance 64 (fin_ st)) = body ++ rest').
    { rewrite <- Hh. apply (gb_rest_advance_app _ hdr). exact E. }
    split; [apply (read_points_body_full _ _ body rest'); [lia | exact Hr | exact Hb]|].
    split; [subst points; rewrite points_array_length; lia|].
    split; [intros i Hi; apply points_array_body; lia|].
    split.
    { replace (Z.to_nat (n' - 1)) with (Z.to_nat n' - 1)%nat by lia.
      apply points_array_spare; lia. }
    rewrite (read_track_full st hdr body rest' n' E Hh Hc') by lia.
    eexists _, _. split; [reflexivity|]. cbn [track_add set_fin fin_ tracks].
    split; [apply (gb_rest_advance_app _ body); exact Hr|].
    split; [reflexivity|]. cbn [rte_waypts]. unfold track_waypoints.
    cbn [length]. rewrite decode_cells_length.
    pose proof (points_array_length (Z.to_nat n') body) as Hlen.
    destruct (points_array (Z.to_nat n') body); cbn in *; lia.
Qed.

Lemma sample_track_reader_rest hdr body :
  gb_rest (fin_ (sample_track_reader hdr body)) = hdr ++ body ++ [].
Proof. reflexivity. Qed.

Lemma read_track_num_points_witness :
  let hdr := sample_trk_header 3 0 0 in
  let body := [0; 1; 0; 2; 0; 0] ++ [0; 3; 0; 4; 0; 0] in
  let st := sample_track_reader hdr body in
  gb_rest (fin_ st) = hdr ++ body ++ [] /\
  length hdr = 64%nat /\
  exists st', humminbird_read_track st = Ok st'.
Proof.
  intros hdr body st.
  assert (H1 : gb_rest (fin_ st) = hdr ++ body ++ []) by reflexivity.
  assert (H2 : length hdr = 64%nat) by reflexivity.
  split; [exact H1|]. split; [exact H2|].
  destruct (read_track_num_points st hdr (body ++ []) H1 H2)
    as (_ & _ & _ & _ & H).
  destruct (H ltac:(vm_compute; split; discriminate) body [] eq_refl
              ltac:(reflexivity))
    as (_ & _ & _ & _ & st' & trk & Hr & _).
  exists st'. exact Hr.
Defined.

(** C6 as stated fails: with the capacity (131080 - 4 - 68) / 6 = 21834 of
    the claim a stored count of 21836 would be fatal; the code decrements it
    to 21835 and decodes the track of 21835 points. *)
Lemma read_track_num_points_counterexample :
  (131080 - 4 - 68) / 6 = 21834 /\
  be_read16 (field (sample_trk_header 21836 0 0) 4 2) = 21836 /\
  exists st' trk,
    humminbird_read_track
      (sample_track_reader (sample_trk_header 21836 0 0)
         (replicate (Z.to_nat (6 * 21834)) 0)) = Ok st' /\
    tracks st' = [trk] /\
    Z.of_nat (length (rte_waypts trk)) = 21835.
Proof.
  split; [reflexivity|]. split; [reflexivity|].
  rewrite (read_track_full _ (sample_trk_header 21836 0 0)
             (replicate (Z.to_nat (6 * 21834)) 0) [] 21835).
  - eexists _, _. split; [reflexivity|]. split; [reflexivity|].
    cbn [rte_waypts]. unfold track_waypoints. cbn [length].
    rewrite decode_cells_length.
    pose proof (points_array_length (Z.to_nat 21835)
                  (replicate (Z.to_nat (6 * 21834)) 0)) as Hlen.
    destruct (points_array _ _); cbn [length tl] in *; lia.
  - apply sample_track_reader_rest.
  - reflexivity.
  - reflexivity.
  - lia.
  - rewrite length_replicate. lia.
Qed.

(** ** The freak-value filter of the new format *)

Lemma lookup_cons_S {A} (x : A) (l : list A) k : (x :: l) !! S k = l !! k.
Proof. reflexivity. Qed.

(** C5 (amended).  In a decoded new-format track the coordinates are the
    running sums (in 32 bits) of the filtered deltas, from the start pair of
    the header; wherever delta k is 32767 and delta k+1 is -32768 the values
    accumulated for the two points are -1 and 0, on each axis by itself.  The
    coordinate of point k is then 32768 below the running sum of the
    unfiltered deltas, and everywhere else (point k+1 included) it equals
    that sum. *)
Theorem read_track_freak_values st hdr body rest n :
  gb_rest (fin_ st) = hdr ++ body ++ rest ->
  length hdr = 64%nat ->
  check_num_points (be_read16 (field hdr 4 2)) = Ok n ->
  2 <= n ->
  Z.of_nat (length body) = 6 * (n - 1) ->
  let points := points_array (Z.to_nat n) body in
  let de := map (fun p => to_int16 (deltaeast p)) points in
  let dn := map (fun p => to_int16 (deltanorth p)) points in
  let start_east := to_int32 (be_read32 (field hdr 12 4)) in
  let start_north := to_int32 (be_read32 (field hdr 16 4)) in
  let used_east := filter_axis (hd 0 de) (tl de) in
  let used_north := filter_axis (hd 0 dn) (tl dn) in
  exists st' trk,
    humminbird_read_track st = Ok st' /\
    tracks st' = tracks st ++ [trk] /\
    map east (rte_waypts trk) = start_east :: accumulate start_east used_east /\
    map north (rte_waypts trk)
      = start_north :: accumulate start_north used_north /\
    (forall k, freak_pair de k = true ->
       used_east !! k = Some (-1) /\ used_east !! S k = Some 0) /\
    (forall k, freak_pair dn k = true ->
       used_north !! k = Some (-1) /\ used_north !! S k = Some 0) /\
    (forall k, Z.of_nat k < n - 1 ->
       map east (rte_waypts trk) !! S k
       = Some (to_int32 (start_east + sum_to de k
                         - if freak_pair de k then 32768 else 0))) /\
    (forall k, Z.of_nat k < n - 1 ->
       map north (rte_waypts trk) !! S k
       = Some (to_int32 (start_north + sum_to dn k
                         - if freak_pair dn k then 32768 else 0))).
Proof.
  intros E Hh Hc Hn Hb points de dn start_east start_north used_east used_north.
  rewrite (read_track_full st hdr body rest n E Hh Hc Hn Hb).
  eexists _, _. split; [reflexivity|]. split; [reflexivity|].
  cbn [rte_waypts]. unfold track_waypoints.
  fold points start_east start_north.
  pose proof (points_array_length (Z.to_nat n) body) as Hlen. fold points in Hlen.
  assert (Hspare : points !! (Z.to_nat n - 1)%nat = Some zero_point)
    by (apply points_array_spare; lia).
  subst used_east used_north de dn.
  destruct points as [|cur cells]; [cbn in Hlen; lia|].
  cbn [length] in Hlen. cbn [map hd tl].
  rewrite decode_cells_east, decode_cells_north.
  assert (Hpair : forall (f : humminbird_trk_point_t -> Z) k,
            f zero_point = 0 ->
            freak_pair (f cur :: map f cells) k = true ->
            (S k < length (map f cells))%nat).
  { intros f k Hz Hp. rewrite length_map.
    destruct (Nat.lt_ge_cases (S k) (length cells)) as [|Hge]; [assumption|].
    exfalso. unfold freak_pair in Hp.
    change (f cur :: map f cells) with (map f (cur :: cells)) in Hp.
    rewrite !list_lookup_fmap in Hp.
    destruct ((cur :: cells) !! k) as [a|] eqn:Ea; [|discriminate Hp].
    destruct ((cur :: cells) !! S k) as [b|] eqn:Eb; [|discriminate Hp].
    cbn in Hp. apply lookup_lt_Some in Eb as Hlt. cbn [length] in Hlt.
    replace (Z.to_nat n - 1)%nat with (S k) in Hspare by lia.
    rewrite Eb in Hspare. injection Hspare as ->. rewrite Hz in Hp.
    rewrite andb_false_r in Hp. discriminate Hp. }
  split; [reflexivity|]. split; [reflexivity|].
  split; [|split; [|split]].
  - intros k Hp. destruct (filter_axis_pair _ _ _ Hp) as [H1 H2].
    split; [exact H1|]. apply H2.
    apply (Hpair (fun p => to_int16 (deltaeast p))); [reflexivity | exact Hp].
  - intros k Hp. destruct (filter_axis_pair _ _ _ Hp) as [H1 H2].
    split; [exact H1|]. apply H2.
    apply (Hpair (fun p => to_int16 (deltanorth p))); [reflexivity | exact Hp].
  - intros k Hk. rewrite lookup_cons_S.
    rewrite accumulate_lookup by (rewrite filter_axis_length, length_map; lia).
    rewrite filter_axis_sum by (rewrite length_map; lia).
    f_equal. f_equal. lia.
  - intros k Hk. rewrite lookup_cons_S.
    rewrite accumulate_lookup by (rewrite filter_axis_length, length_map; lia).
    rewrite filter_axis_sum by (rewrite length_map; lia).
    f_equal. f_equal. lia.
Qed.

Lemma read_track_freak_values_witness :
  let st := sample_track_reader freak_header freak_body in
  gb_rest (fin_ st) = freak_header ++ freak_body ++ [] /\
  length freak_header = 64%nat /\
  check_num_points (be_read16 (field freak_header 4 2)) = Ok 3 /\
  2 <= 3 /\
  Z.of_nat (length freak_body) = 6 * (3 - 1) /\
  exists st' trk,
    humminbird_read_track st = Ok st' /\
    map east (rte_waypts trk) !! 1%nat
    = Some (to_int32 (1000 + 32767 - 32768)).
Proof.
  intros st.
  assert (H1 : gb_rest (fin_ st) = freak_header ++ freak_body ++ [])
    by reflexivity.
  assert (H2 : length freak_header = 64%nat) by reflexivity.
  assert (H3 : check_num_points (be_read16 (field freak_header 4 2)) = Ok 3)
    by reflexivity.
  assert (H4 : 2 <= 3) by lia.
  assert (H5 : Z.of_nat (length freak_body) = 6 * (3 - 1)) by reflexivity.
  repeat (split; [assumption|]).
  destruct (read_track_freak_values st freak_header freak_body [] 3
              H1 H2 H3 H4 H5)
    as (st' & trk & Hr & _ & _ & _ & _ & _ & He & _).
  exists st', trk. split; [exact Hr|].
  apply (He 0%nat). lia.
Defined.

(** C5 as stated fails: with the start 1000 and the deltas 32767, -32768 the
    decoded coordinates are 1000, 999, 999 and the running sums of the
    unfiltered deltas are 1000, 33767, 999; they differ by 32768 at the
    first point of the pair and by 0 at the second, nowhere by 1. *)
Lemma read_track_freak_counterexample :
  exists st' trk,
    humminbird_read_track (sample_track_reader freak_header freak_body)
      = Ok st' /\
    tracks st' = [trk] /\
    map (fun p => to_int16 (deltaeast p)) (points_array 3 freak_body)
      = [32767; -32768; 0] /\
    map east (rte_waypts trk) = [1000; 999; 999] /\
    [1000; 1000 + 32767; 1000 + 32767 + -32768] = [1000; 33767; 999] /\
    Z.abs (33767 - 999) <> 1 /\ Z.abs (999 - 999) <> 1.
Proof.
  eexists _, _. split; [vm_compute; reflexivity|].
  split; [reflexivity|]. split; [reflexivity|]. split; [reflexivity|].
  split; [reflexivity|]. split; discriminate.
Qed.

(** ** Old-format tracks *)

Lemma read_track_points_old_cells num_points time points cells :
  forall i accum_east accum_north out,
  take (length cells) (drop i points) = cells ->
  read_track_points_old (length cells) i num_points time points
    accum_east accum_north out
  = Ok (out ++ decode_cells_old i num_points time cells accum_east accum_north).
Proof.
  induction cells as [|p cells IH]; intros i ae an out Ht.
  - cbn. rewrite app_nil_r. reflexivity.
  - cbn [length read_track_points_old].
    destruct (drop i points) as [|p0 r] eqn:Ed; [discriminate Ht|].
    cbn [length take] in Ht. injection Ht as -> Ht.
    assert (Hi : points !! i = Some p).
    { rewrite <- (Nat.add_0_r i), <- lookup_drop, Ed. reflexivity. }
    rewrite Hi. rewrite IH.
    + cbn [decode_cells_old]. rewrite <- app_assoc. reflexivity.
    + replace (S i) with (i + 1)%nat by lia.
      rewrite <- drop_drop, Ed. exact Ht.
Qed.

Lemma decode_cells_old_east num_points time cells : forall i ae an,
  map east (decode_cells_old i num_points time cells ae an)
  = accumulate ae (map (fun p => to_int16 (old_deltaeast p)) cells).
Proof.
  induction cells as [|p cells IH]; intros; [reflexivity|].
  cbn [decode_cells_old map accumulate]. rewrite IH. reflexivity.
Qed.

Lemma decode_cells_old_north num_points time cells : forall i ae an,
  map north (decode_cells_old i num_points time cells ae an)
  = accumulate an (map (fun p => to_int16 (old_deltanorth p)) cells).
Proof.
  induction cells as [|p cells IH]; intros; [reflexivity|].
  cbn [decode_cells_old map accumulate]. rewrite IH. reflexivity.
Qed.

Lemma decode_cells_old_depth num_points time cells : forall i ae an,
  Forall (fun w => depth w = None)
    (decode_cells_old i num_points time cells ae an).
Proof.
  induction cells as [|p cells IH]; intros; [constructor|].
  cbn [decode_cells_old]. constructor; [reflexivity | apply IH].
Qed.

Lemma points_array_old_length n bytes : length (points_array_old n bytes) = n.
Proof. unfold points_array_old. rewrite length_map, length_seq. reflexivity. Qed.

Lemma read_name_old_full fin :
  8048 <= Z.of_nat (length (gb_data fin)) ->
  read_name_old fin
  = Ok (take 20 (drop (Z.to_nat (file_len - TRK_NAME_LEN)) (gb_data fin)),
        gb_advance 20 (gbfseek (file_len - TRK_NAME_LEN) fin)).
Proof.
  intros Hlen. unfold read_name_old.
  set (f := gbfseek (file_len - TRK_NAME_LEN) fin).
  set (off := Z.to_nat (file_len - TRK_NAME_LEN)).
  assert (Hoff : Z.of_nat off = 8028) by (subst off; reflexivity).
  assert (Hrest : gb_rest f = take 20 (drop off (gb_data fin))
                              ++ drop 20 (drop off (gb_data fin))).
  { rewrite take_drop. reflexivity. }
  assert (Hl : length (take 20 (drop off (gb_data fin))) = 20%nat).
  { rewrite length_take, length_drop. lia. }
  rewrite (gbfread_enough 1 TRK_NAME_LEN f _ _ ltac:(reflexivity)
             ltac:(discriminate) Hrest)
    by (rewrite Hl; reflexivity).
  change (TRK_NAME_LEN <? TRK_NAME_LEN) with false. cbv iota.
  rewrite Hl. reflexivity.
Qed.

Lemma read_points_body_old_full n fin body rest :
  2 <= n ->
  gb_rest fin = body ++ rest ->
  Z.of_nat (length body) = 4 * (n - 1) ->
  read_points_body_old n fin
  = Ok (points_array_old (Z.to_nat n) body, gb_advance (length body) fin).
Proof.
  intros Hn E Hl. unfold read_points_body_old.
  destruct (n - 1 <? 0) eqn:En; [lia|].
  rewrite (gbfread_enough sizeof_trk_point_old (n - 1) fin body rest)
    by first [exact E | reflexivity | lia
             | (change sizeof_trk_point_old with 4; lia)].
  destruct (n - 1 =? 0) eqn:E0; [lia|]. reflexivity.
Qed.

(** C8.  An old-format track is decoded from the 28-byte header and the
    4-byte cells that follow it: the coordinates are the running sums (in 32
    bits, by the accumulation of the new format) of the deltas exactly as
    stored, a pair 32767, -32768 included, and these are the deltas the new
    format accumulates when no such pair occurs; no waypoint carries a
    depth; the name is the 20 bytes at offset 8048 - 20 of the file. *)
Theorem read_track_old_plain st hdr body rest :
  gb_rest (fin_ st) = hdr ++ body ++ rest ->
  length hdr = 28%nat ->
  let n := be_read16 (field hdr 4 2) in
  2 <= n <= 1999 ->
  Z.of_nat (length body) = 4 * (n - 1) ->
  8048 <= Z.of_nat (length (gb_data (fin_ st))) ->
  let cells :=
    take (Z.to_nat (n - 1)) (points_array_old (Z.to_nat n) body) in
  let de := map (fun p => to_int16 (old_deltaeast p)) cells in
  let dn := map (fun p => to_int16 (old_deltanorth p)) cells in
  let start_east := to_int32 (be_read32 (field hdr 12 4)) in
  let start_north := to_int32 (be_read32 (field hdr 16 4)) in
  exists st' trk,
    humminbird_read_track_old st = Ok st' /\
    tracks st' = tracks st ++ [trk] /\
    rte_name trk
      = c_str (take 20 (drop (Z.to_nat (8048 - 20)) (gb_data (fin_ st)))) /\
    map east (rte_waypts trk) = start_east :: accumulate start_east de /\
    map north (rte_waypts trk) = start_north :: accumulate start_north dn /\
    (forall k, Z.of_nat k < n - 1 ->
       map east (rte_waypts trk) !! S k
       = Some (to_int32 (start_east + sum_to de k))) /\
    (forall k, Z.of_nat k < n - 1 ->
       map north (rte_waypts trk) !! S k
       = Some (to_int32 (start_north + sum_to dn k))) /\
    ((forall k, freak_pair (de ++ [0]) k = false) ->
     filter_axis (hd 0 (de ++ [0])) (tl (de ++ [0])) = de) /\
    ((forall k, freak_pair (dn ++ [0]) k = false) ->
     filter_axis (hd 0 (dn ++ [0])) (tl (dn ++ [0])) = dn) /\
    Forall (fun w => depth w = None) (rte_waypts trk).
Proof.
  intros E Hh n Hn Hb Hfile cells de dn start_east start_north.
  unfold humminbird_read_track_old.
  rewrite (gbfread_enough 1 sizeof_trk_header_old (fin_ st) hdr (body ++ rest))
    by first [exact E | reflexivity | discriminate | rewrite Hh; reflexivity].
  change (sizeof_trk_header_old =? 0) with false. cbv iota.
  rewrite fill_struct_full by (rewrite Hh; reflexivity).
  fold n. unfold check_num_points_old. rewrite max_points_old_eq.
  destruct (n >? 1999) eqn:Ebig; [lia|]. cbn [mbind outcome_bind].
  rewrite (read_points_body_old_full n _ body rest) by
    first [lia | exact Hb | apply (gb_rest_advance_app _ hdr); exact E].
  cbn [mbind outcome_bind].
  rewrite read_name_old_full by exact Hfile. cbn [mbind outcome_bind].
  pose proof (points_array_old_length (Z.to_nat n) body) as Hlen.
  assert (Hcells : length cells = Z.to_nat (n - 1)).
  { subst cells. rewrite length_take, Hlen. lia. }
  rewrite <- Hcells.
  rewrite (read_track_points_old_cells n _ _ cells)
    by (rewrite drop_0, Hcells; reflexivity).
  eexists _, _. split; [reflexivity|]. split; [reflexivity|].
  cbn [rte_name rte_waypts app map gb_advance gb_data].
  rewrite decode_cells_old_east, decode_cells_old_north.
  fold de dn start_east start_north.
  split; [reflexivity|]. split; [reflexivity|]. split; [reflexivity|].
  split; [|split].
  - intros k Hk. rewrite lookup_cons_S.
    apply accumulate_lookup. subst de. rewrite length_map. lia.
  - intros k Hk. rewrite lookup_cons_S.
    apply accumulate_lookup. subst dn. rewrite length_map. lia.
  - assert (Hde : de <> []).
    { intros Hnil. apply (f_equal length) in Hnil.
      subst de. rewrite length_map in Hnil. cbn in Hnil. lia. }
    assert (Hdn : dn <> []).
    { intros Hnil. apply (f_equal length) in Hnil.
      subst dn. rewrite length_map in Hnil. cbn in Hnil. lia. }
    split; [|split].
    + destruct de as [|d ds]; [congruence|]. intros Hno.
      apply (filter_axis_plain ds d 0 Hno).
    + destruct dn as [|d ds]; [congruence|]. intros Hno.
      apply (filter_axis_plain ds d 0 Hno).
    + constructor; [reflexivity | apply decode_cells_old_depth].
Qed.

Lemma read_track_old_plain_witness :
  let st := sample_old_reader in
  let hdr := sample_old_header 3 1000 0 in
  gb_rest (fin_ st) = hdr ++ sample_old_body ++ sample_old_rest /\
  length hdr = 28%nat /\
  2 <= be_read16 (field hdr 4 2) <= 1999 /\
  Z.of_nat (length sample_old_body) = 4 * (be_read16 (field hdr 4 2) - 1) /\
  8048 <= Z.of_nat (length (gb_data (fin_ st))) /\
  exists st' trk,
    humminbird_read_track_old st = Ok st' /\
    rte_name trk = [79; 76; 68] /\
    map east (rte_waypts trk) = [1000; 33767; 999].
Proof.
  intros st hdr.
  assert (H1 : gb_rest (fin_ st) = hdr ++ sample_old_body ++ sample_old_rest)
    by reflexivity.
  assert (H2 : length hdr = 28%nat) by reflexivity.
  assert (H3 : 2 <= be_read16 (field hdr 4 2) <= 1999)
    by (vm_compute; split; discriminate).
  assert (H4 : Z.of_nat (length sample_old_body)
               = 4 * (be_read16 (field hdr 4 2) - 1)) by reflexivity.
  assert (H5 : 8048 <= Z.of_nat (length (gb_data (fin_ st))))
    by (vm_compute; discriminate).
  repeat (split; [assumption|]).
  destruct (read_track_old_plain st hdr sample_old_body sample_old_rest
              H1 H2 H3 H4 H5)
    as (st' & trk & Hr & _ & Hname & Heast & _).
  exists st', trk. split; [exact Hr|]. split.
  - rewrite Hname. vm_compute. reflexivity.
  - rewrite Heast. vm_compute. reflexivity.
Defined.

(** ** The dispatcher *)

Lemma gb_remaining_advance n f :
  gb_remaining (gb_advance n f) = (gb_remaining f - n)%nat.
Proof. unfold gb_remaining. rewrite gb_rest_advance. apply length_drop. Qed.

Lemma gbfread_remaining size members f got bytes f' :
  gbfread size members f = (got, bytes, f') ->
  (gb_remaining f' <= gb_remaining f)%nat.
Proof.
  unfold gbfread. intros [= _ _ <-]. rewrite gb_remaining_advance. lia.
Qed.

Lemma gbfgetuint32_remaining f sig f' :
  gbfgetuint32 f = Ok (sig, f') ->
  (gb_remaining f' + 4 = gb_remaining f)%nat.
Proof.
  unfold gbfgetuint32, gbfread. rewrite Z.div_1_r.
  destruct (Z.of_nat (length (take (Z.to_nat (1 * 4)) (gb_rest f))) <? 4) eqn:E;
    [discriminate|].
  intros [= _ <-]. apply Z.ltb_ge in E.
  rewrite gb_remaining_advance. rewrite length_take in *.
  unfold gb_remaining. lia.
Qed.

Lemma read_wpt_remaining icons st st' :
  humminbird_read_wpt icons st = Ok st' ->
  (gb_remaining (fin_ st') <= gb_remaining (fin_ st))%nat.
Proof.
  unfold humminbird_read_wpt.
  destruct (gbfread 1 sizeof_waypt (fin_ st)) as [[got bytes] fin'] eqn:Er.
  apply gbfread_remaining in Er.
  destruct (got =? 0); [discriminate|].
  rewrite status_switch.
  destruct (_ || _); intros [= <-]; exact Er.
Qed.

Lemma read_route_remaining st st' :
  humminbird_read_route st = Ok st' ->
  (gb_remaining (fin_ st') <= gb_remaining (fin_ st))%nat.
Proof.
  unfold humminbird_read_route.
  destruct (gbfread 1 sizeof_rte (fin_ st)) as [[got bytes] fin'] eqn:Er.
  apply gbfread_remaining in Er.
  destruct (got =? 0); [discriminate|].
  destruct (_ >? 0); [|intros [= <-]; exact Er].
  destruct (read_route_points _ _ _ _ _ _) as [[r|]| |];
    cbn; try discriminate; intros [= <-]; exact Er.
Qed.

Lemma read_record_progress icons st st' :
  read_record icons st = inl (Ok st') ->
  (gb_remaining (fin_ st') < gb_remaining (fin_ st))%nat.
Proof.
  unfold read_record.
  destruct (gbfgetuint32 (fin_ st)) as [[sig f]| |] eqn:Eg; try discriminate.
  apply gbfgetuint32_remaining in Eg.
  destruct (_ || _).
  - intros [= H]. apply read_wpt_remaining in H. cbn in H. lia.
  - destruct (sig =? RTE_MAGIC).
    + intros [= H]. apply read_route_remaining in H. cbn in H. lia.
    + destruct (sig =? TRK_MAGIC); [discriminate|].
      destruct (sig =? TRK_MAGIC2); discriminate.
Qed.

Lemma read_loop_mono icons fuel : forall st r,
  read_loop icons fuel st = Some r ->
  forall fuel', (fuel <= fuel')%nat -> read_loop icons fuel' st = Some r.
Proof.
  induction fuel as [|fuel IH]; intros st r Hr fuel' Hle; [discriminate|].
  destruct fuel' as [|fuel']; [lia|].
  cbn [read_loop] in *.
  destruct (gbfeof (fin_ st)); [exact Hr|].
  destruct (read_record icons st) as [[st'|m|f]|r']; try exact Hr.
  apply (IH st' r Hr). lia.
Qed.

Lemma read_loop_enough icons fuel : forall st,
  (gb_remaining (fin_ st) < fuel)%nat ->
  exists r, read_loop icons fuel st = Some r.
Proof.
  induction fuel as [|fuel IH]; intros st Hlt; [lia|].
  cbn [read_loop].
  destruct (gbfeof (fin_ st)); [eexists; reflexivity|].
  destruct (read_record icons st) as [[st'|m|f]|r'] eqn:Er;
    try (eexists; reflexivity).
  apply IH. apply read_record_progress in Er. lia.
Qed.

Lemma humminbird_read_unfold icons st :
  humminbird_read icons st
  = if gbfeof (fin_ st) then Some (Ok st) else
    match read_record icons st with
    | inl (Ok st') => humminbird_read icons st'
    | inl other => Some other
    | inr r => Some r
    end.
Proof.
  unfold humminbird_read at 1. cbn [read_loop].
  destruct (gbfeof (fin_ st)); [reflexivity|].
  destruct (read_record icons st) as [[st'|m|f]|r'] eqn:Er; try reflexivity.
  apply read_record_progress in Er.
  unfold humminbird_read.
  destruct (read_loop_enough icons (S (gb_remaining (fin_ st'))) st')
    as [r Hr]; [lia|].
  rewrite Hr. apply (read_loop_mono _ _ _ _ Hr). lia.
Qed.

(** C9.  The read loop always ends with a result.  At the end of the stream
    it returns; otherwise it reads a 4-byte big-endian signature and: on a
    waypoint or route signature it decodes that record and goes on with the
    loop; on either track signature its result is the result of decoding
    that one track, whatever bytes follow; on any other value it is fatal
    with the invalid-header error. *)
Theorem humminbird_read_dispatch icons st :
  (exists r, humminbird_read icons st = Some r) /\
  (gbfeof (fin_ st) = true -> humminbird_read icons st = Some (Ok st)) /\
  (forall sig rest,
     gb_rest (fin_ st) = be_write32 sig ++ rest ->
     0 <= sig < 4294967296 ->
     let st1 := set_fin (gb_advance 4 (fin_ st)) st in
     humminbird_read icons st
     = if (sig =? WPT_MAGIC) || (sig =? WPT_MAGIC2) then
         match humminbird_read_wpt icons st1 with
         | Ok st' => humminbird_read icons st'
         | other => Some other
         end
       else if sig =? RTE_MAGIC then
         match humminbird_read_route st1 with
         | Ok st' => humminbird_read icons st'
         | other => Some other
         end
       else if sig =? TRK_MAGIC then Some (humminbird_read_track st1)
       else if sig =? TRK_MAGIC2 then Some (humminbird_read_track_old st1)
       else Some (Fatal (InvalidRecordHeader sig))).
Proof.
  split; [|split].
  - apply read_loop_enough. lia.
  - intros Heof. rewrite humminbird_read_unfold, Heof. reflexivity.
  - intros sig rest E Hsig st1. rewrite humminbird_read_unfold.
    assert (Hne : gbfeof (fin_ st) = false).
    { unfold gbfeof, gb_remaining. rewrite E. reflexivity. }
    rewrite Hne. unfold read_record.
    rewrite (gbfgetuint32_enough (fin_ st) sig rest Hsig E). fold st1.
    destruct ((sig =? WPT_MAGIC) || (sig =? WPT_MAGIC2)).
    + destruct (humminbird_read_wpt icons st1); reflexivity.
    + destruct (sig =? RTE_MAGIC).
      * destruct (humminbird_read_route st1); reflexivity.
      * destruct (sig =? TRK_MAGIC); [reflexivity|].
        destruct (sig =? TRK_MAGIC2); reflexivity.
Qed.

Lemma humminbird_read_dispatch_witness :
  let st := humminbird_rd_init sample_file in
  gb_rest (fin_ st)
    = be_write32 WPT_MAGIC
      ++ (sample_waypt_body 1 ++ be_write32 TRK_MAGIC ++ freak_header
          ++ freak_body ++ [255; 255; 255; 255; 1; 2; 3]) /\
  0 <= WPT_MAGIC < 4294967296 /\
  exists st',
    humminbird_read [] st = Some (Ok st') /\
    length (waypts st') = 1%nat /\ length (tracks st') = 1%nat /\
    gb_remaining (fin_ st') = 7%nat.
Proof.
  intros st.
  assert (H1 : gb_rest (fin_ st)
               = be_write32 WPT_MAGIC
                 ++ (sample_waypt_body 1 ++ be_write32 TRK_MAGIC
                     ++ freak_header ++ freak_body
                     ++ [255; 255; 255; 255; 1; 2; 3])) by reflexivity.
  assert (H2 : 0 <= WPT_MAGIC < 4294967296)
    by (vm_compute; split; [discriminate | reflexivity]).
  split; [exact H1|]. split; [exact H2|].
  pose proof (proj2 (proj2 (humminbird_read_dispatch [] st)) WPT_MAGIC _ H1 H2)
    as Hstep.
  cbv zeta in Hstep. rewrite Hstep.
  eexists. split; [vm_compute; reflexivity|].
  repeat split.
Defined.

(** * Further properties of the read path *)

(** ** Routes without points *)

(** X1.  The count of a route is a signed byte: when the byte is 0, or 128
    and above (a negative count), the record is consumed and nothing else
    changes: no route is made and no point number is looked up. *)
Theorem read_route_nonpositive_count st body rest :
  gb_rest (fin_ st) = body ++ rest ->
  length body = 132%nat ->
  byte_at body 7 = 0 \/ 128 <= byte_at body 7 < 256 ->
  humminbird_read_route st = Ok (set_fin (gb_advance 132 (fin_ st)) st).
Proof.
  intros E Hl Hc. rewrite (read_route_full st body rest E Hl). cbv zeta.
  assert (Hneg : to_int8 (byte_at body 7) <= 0).
  { unfold to_int8. cbv zeta.
    destruct Hc as [H0 | Hc]; [rewrite H0; vm_compute; discriminate|].
    rewrite Z.mod_small by lia.
    destruct (byte_at body 7 <? 128) eqn:Eb; [apply Z.ltb_lt in Eb|]; lia. }
  destruct (to_int8 (byte_at body 7) >? 0) eqn:Eg; [lia | reflexivity].
Qed.

Lemma read_route_nonpositive_count_witness :
  let st := sample_route_reader 200 [5; 7] in
  gb_rest (fin_ st) = sample_rte_body 200 [5; 7] ++ [] /\
  length (sample_rte_body 200 [5; 7]) = 132%nat /\
  (byte_at (sample_rte_body 200 [5; 7]) 7 = 0
   \/ 128 <= byte_at (sample_rte_body 200 [5; 7]) 7 < 256) /\
  humminbird_read_route st = Ok (set_fin (gb_advance 132 (fin_ st)) st).
Proof.
  intros st.
  assert (H1 : gb_rest (fin_ st) = sample_rte_body 200 [5; 7] ++ [])
    by reflexivity.
  assert (H2 : length (sample_rte_body 200 [5; 7]) = 132%nat) by reflexivity.
  assert (H3 : byte_at (sample_rte_body 200 [5; 7]) 7 = 0
               \/ 128 <= byte_at (sample_rte_body 200 [5; 7]) 7 < 256)
    by (right; vm_compute; split; [discriminate | reflexivity]).
  repeat (split; [assumption|]).
  apply (read_route_nonpositive_count st _ [] H1 H2 H3).
Defined.

(** ** The capacity of an old-format track *)

(** X2.  The old-format header structure is 28 bytes long, so the capacity
    is (8048 - (28 + 4 + 20)) / 4 = 1999 points: a stored count above 1999
    is fatal, before any point is read. *)
Theorem read_track_old_too_many_points st hdr rest :
  gb_rest (fin_ st) = hdr ++ rest ->
  length hdr = 28%nat ->
  1999 < be_read16 (field hdr 4 2) ->
  max_points_old = (8048 - (28 + 4 + 20)) / 4 /\
  humminbird_read_track_old st
  = Fatal (TooManyTrackPoints (be_read16 (field hdr 4 2))).
Proof.
  intros E Hh Hn. split; [reflexivity|].
  unfold humminbird_read_track_old.
  rewrite (gbfread_enough 1 sizeof_trk_header_old (fin_ st) hdr rest)
    by first [exact E | reflexivity | discriminate | rewrite Hh; reflexivity].
  change (sizeof_trk_header_old =? 0) with false. cbv iota.
  rewrite fill_struct_full by (rewrite Hh; reflexivity).
  unfold check_num_points_old. rewrite max_points_old_eq.
  destruct (be_read16 (field hdr 4 2) >? 1999) eqn:Eb; [reflexivity | lia].
Qed.

Lemma read_track_old_too_many_points_witness :
  let hdr := sample_old_header 2000 0 0 in
  let st := humminbird_rd_init (hdr ++ []) in
  gb_rest (fin_ st) = hdr ++ [] /\
  length hdr = 28%nat /\
  1999 < be_read16 (field hdr 4 2) /\
  humminbird_read_track_old st = Fatal (TooManyTrackPoints 2000).
Proof.
  intros hdr st.
  assert (H1 : gb_rest (fin_ st) = hdr ++ []) by reflexivity.
  assert (H2 : length hdr = 28%nat) by reflexivity.
  assert (H3 : 1999 < be_read16 (field hdr 4 2)) by reflexivity.
  repeat (split; [assumption|]).
  apply (proj2 (read_track_old_too_many_points st hdr [] H1 H2 H3)).
Defined.

(** ** Time and depth of the points of a track *)


Lemma decode_cells_lookup num_points time rest :
  forall i cur ae an k,
  (k < length rest)%nat ->
  exists w c,
    decode_cells i num_points time cur rest ae an !! k = Some w /\
    (cur :: rest) !! k = Some c /\
    creation_time w
      = (if (Z.of_nat (i + k) =? num_points - 2) && negb (time =? 0)
         then Some time else None) /\
    depth w
      = (if to_uint16 (pt_depth c) =? 0 then None
         else Some (to_uint16 (pt_depth c))) /\
    shortname w = [] /\ icon_descr w = None.
Proof.
  induction rest as [|q rest IH]; intros i cur ae an k Hk; [cbn in Hk; lia|].
  cbn [decode_cells]. destruct k as [|k].
  - eexists _, cur. rewrite Nat.add_0_r. repeat split.
  - cbn [length] in Hk.
    edestruct (IH (S i)) with (k := k) as (w & c & Hw & Hc & Ht & Hd & Hn & Hi);
      [lia|].
    rewrite lookup_cons_S. rewrite Hw.
    destruct k as [|k].
    + cbn in Hc. injection Hc as <-. cbn [pt_depth] in Hd.
      exists w, q. repeat split; try assumption.
      rewrite Ht. replace (S i + 0)%nat with (i + 1)%nat by lia. reflexivity.
    + exists w, c. rewrite !lookup_cons_S in *. repeat split; try assumption.
      rewrite Ht. replace (S i + S k)%nat with (i + S (S k))%nat by lia.
      reflexivity.
Qed.



Lemma decode_cells_old_length_eq num_points time cells : forall i ae an,
  length (decode_cells_old i num_points time cells ae an) = length cells.
Proof.
  induction cells as [|p cells IH]; intros; [reflexivity|].
  cbn [decode_cells_old length]. rewrite IH. reflexivity.
Qed.

Lemma decode_cells_old_lookup num_points time cells :
  forall i ae an k,
  (k < length cells)%nat ->
  exists w,
    decode_cells_old i num_points time cells ae an !! k = Some w /\
    creation_time w
      = (if (Z.of_nat (i + k) =? num_points - 2) && negb (time =? 0)
         then Some time else None) /\
    shortname w = [] /\ icon_descr w = None.
Proof.
  induction cells as [|p cells IH]; intros i ae an k Hk; [cbn in Hk; lia|].
  cbn [decode_cells_old]. destruct k as [|k].
  - eexists. rewrite Nat.add_0_r. repeat split.
  - cbn [length] in Hk. rewrite lookup_cons_S.
    edestruct (IH (S i)) with (k := k) as (w & Hw & Ht & Hn & Hi); [lia|].
    exists w. rewrite Hw, Ht.
    replace (S i + k)%nat with (i + S k)%nat by lia. repeat split; assumption.
Qed.

(** X4.  In a decoded old-format track the time of the header is given to
    the last waypoint only, and only when it is not zero; the first
    waypoint (made from the header) has no time. *)
Theorem read_track_old_time st hdr body rest :
  gb_rest (fin_ st) = hdr ++ body ++ rest ->
  length hdr = 28%nat ->
  let n := be_read16 (field hdr 4 2) in
  2 <= n <= 1999 ->
  Z.of_nat (length body) = 4 * (n - 1) ->
  8048 <= Z.of_nat (length (gb_data (fin_ st))) ->
  let time := be_read32 (field hdr 8 4) in
  exists st' trk,
    humminbird_read_track_old st = Ok st' /\
    tracks st' = tracks st ++ [trk] /\
    rte_num trk = be_read16 (field hdr 0 2) /\
    Z.of_nat (length (rte_waypts trk)) = n /\
    (exists w0, rte_waypts trk !! 0%nat = Some w0 /\ creation_time w0 = None) /\
    (forall k, Z.of_nat k < n - 1 ->
       exists w,
         rte_waypts trk !! S k = Some w /\
         creation_time w
           = (if (Z.of_nat k =? n - 2) && negb (time =? 0)
              then Some time else None)).
Proof.
  intros E Hh n Hn Hb Hfile time.
  unfold humminbird_read_track_old.
  rewrite (gbfread_enough 1 sizeof_trk_header_old (fin_ st) hdr (body ++ rest))
    by first [exact E | reflexivity | discriminate | rewrite Hh; reflexivity].
  change (sizeof_trk_header_old =? 0) with false. cbv iota.
  rewrite fill_struct_full by (rewrite Hh; reflexivity).
  fold n time. unfold check_num_points_old. rewrite max_points_old_eq.
  destruct (n >? 1999) eqn:Ebig; [lia|]. cbn [mbind outcome_bind].
  rewrite (read_points_body_old_full n _ body rest) by
    first [lia | exact Hb | apply (gb_rest_advance_app _ hdr); exact E].
  cbn [mbind outcome_bind].
  rewrite read_name_old_full by exact Hfile. cbn [mbind outcome_bind].
  pose proof (points_array_old_length (Z.to_nat n) body) as Hlen.
  set (cells := take (Z.to_nat (n - 1)) (points_array_old (Z.to_nat n) body)).
  assert (Hcells : length cells = Z.to_nat (n - 1)).
  { subst cells. rewrite length_take, Hlen. lia. }
  rewrite <- Hcells.
  rewrite (read_track_points_old_cells n _ _ cells)
    by (rewrite drop_0, Hcells; reflexivity).
  eexists _, _. split; [reflexivity|]. split; [reflexivity|].
  cbn [rte_num rte_waypts app].
  split; [reflexivity|].
  split.
  { cbn [length]. rewrite decode_cells_old_length_eq. lia. }
  split; [eexists; split; reflexivity|].
  intros k Hk. rewrite lookup_cons_S.
  edestruct (decode_cells_old_lookup n time cells 0) with (k := k)
    as (w & Hw & Ht & _); [lia|].
  exists w. split; [exact Hw | exact Ht].
Qed.

Lemma read_track_old_time_witness :
  let st := timed_old_reader in
  let hdr := timed_old_header in
  gb_rest (fin_ st) = hdr ++ sample_old_body ++ sample_old_rest /\
  length hdr = 28%nat /\
  2 <= be_read16 (field hdr 4 2) <= 1999 /\
  Z.of_nat (length sample_old_body) = 4 * (be_read16 (field hdr 4 2) - 1) /\
  8048 <= Z.of_nat (length (gb_data (fin_ st))) /\
  exists st' trk w,
    humminbird_read_track_old st = Ok st' /\
    rte_waypts trk !! 2%nat = Some w /\ creation_time w = Some 77.
Proof.
  intros st hdr.
  assert (H1 : gb_rest (fin_ st) = hdr ++ sample_old_body ++ sample_old_rest)
    by reflexivity.
  assert (H2 : length hdr = 28%nat) by reflexivity.
  assert (H3 : 2 <= be_read16 (field hdr 4 2) <= 1999)
    by (vm_compute; split; discriminate).
  assert (H4 : Z.of_nat (length sample_old_body)
               = 4 * (be_read16 (field hdr 4 2) - 1)) by reflexivity.
  assert (H5 : 8048 <= Z.of_nat (length (gb_data (fin_ st))))
    by (vm_compute; discriminate).
  repeat (split; [assumption|]).
  destruct (read_track_old_time st hdr sample_old_body sample_old_rest
              H1 H2 H3 H4 H5)
    as (st' & trk & Hr & _ & _ & _ & _ & Hk).
  destruct (Hk 1%nat ltac:(vm_compute; reflexivity)) as (w & Hw & Ht).
  exists st', trk, w. split; [exact Hr|]. split; [exact Hw|].
  rewrite Ht. reflexivity.
Defined.

(** * Further properties of the write path *)

(** ** Big-endian members, written and read back *)

Lemma byte_of_mod v k m :
  0 < k -> 0 < m -> (v mod (k * 256 * m) / k) mod 256 = (v / k) mod 256.
Proof.
  intros Hk Hm.
  rewrite (Z.div_mod v (k * 256 * m)) at 2 by lia.
  replace (k * 256 * m * (v / (k * 256 * m)) + v mod (k * 256 * m))
    with (256 * m * (v / (k * 256 * m)) * k + v mod (k * 256 * m)) by lia.
  rewrite Z.div_add_l by lia.
  replace (256 * m * (v / (k * 256 * m)) + v mod (k * 256 * m) / k)
    with (v mod (k * 256 * m) / k + m * (v / (k * 256 * m)) * 256) by lia.
  rewrite Z.mod_add by lia. reflexivity.
Qed.

Lemma be_write32_mod v : be_write32 (v mod 4294967296) = be_write32 v.
Proof.
  unfold be_write32.
  assert (H3 : (v mod 4294967296 / 16777216) mod 256 = (v / 16777216) mod 256)
    by exact (byte_of_mod v 16777216 1 ltac:(lia) ltac:(lia)).
  assert (H2 : (v mod 4294967296 / 65536) mod 256 = (v / 65536) mod 256)
    by exact (byte_of_mod v 65536 256 ltac:(lia) ltac:(lia)).
  assert (H1 : (v mod 4294967296 / 256) mod 256 = (v / 256) mod 256)
    by exact (byte_of_mod v 256 65536 ltac:(lia) ltac:(lia)).
  assert (H0 : (v mod 4294967296 / 1) mod 256 = (v / 1) mod 256)
    by exact (byte_of_mod v 1 16777216 ltac:(lia) ltac:(lia)).
  rewrite !Z.div_1_r in H0.
  rewrite H3, H2, H1, H0. reflexivity.
Qed.

Lemma be_write16_mod v : be_write16 (v mod 65536) = be_write16 v.
Proof.
  unfold be_write16.
  assert (H1 : (v mod 65536 / 256) mod 256 = (v / 256) mod 256)
    by exact (byte_of_mod v 256 1 ltac:(lia) ltac:(lia)).
  assert (H0 : (v mod 65536 / 1) mod 256 = (v / 1) mod 256)
    by exact (byte_of_mod v 1 256 ltac:(lia) ltac:(lia)).
  rewrite !Z.div_1_r in H0.
  rewrite H1, H0. reflexivity.
Qed.

Lemma be_read32_write32_small v :
  0 <= v < 4294967296 -> be_read32 (be_write32 v) = v.
Proof.
  intros Hv. unfold be_read32, be_write32.
  assert (H2 : v / 65536 = v / 256 / 256)
    by (rewrite Z.div_div by lia; reflexivity).
  assert (H3 : v / 16777216 = v / 65536 / 256)
    by (rewrite Z.div_div by lia; reflexivity).
  assert (Hq : 0 <= v / 16777216 < 256).
  { split; [apply Z.div_pos; lia | apply Z.div_lt_upper_bound; lia]. }
  rewrite (Z.mod_small (v / 16777216)) by exact Hq.
  pose proof (Z.div_mod v 256 ltac:(lia)) as D1.
  pose proof (Z.div_mod (v / 256) 256 ltac:(lia)) as D2.
  pose proof (Z.div_mod (v / 65536) 256 ltac:(lia)) as D3.
  rewrite <- H2 in D2. rewrite <- H3 in D3. lia.
Qed.

Lemma be_read16_write16_small v :
  0 <= v < 65536 -> be_read16 (be_write16 v) = v.
Proof.
  intros Hv. unfold be_read16, be_write16.
  assert (Hq : 0 <= v / 256 < 256).
  { split; [apply Z.div_pos; lia | apply Z.div_lt_upper_bound; lia]. }
  rewrite (Z.mod_small (v / 256)) by exact Hq.
  pose proof (Z.div_mod v 256 ltac:(lia)). lia.
Qed.

Lemma be_read32_write32 v : be_read32 (be_write32 v) = to_uint32 v.
Proof.
  rewrite <- be_write32_mod. apply be_read32_write32_small.
  apply Z.mod_pos_bound. lia.
Qed.

Lemma be_read16_write16 v : be_read16 (be_write16 v) = to_uint16 v.
Proof.
  rewrite <- be_write16_mod. apply be_read16_write16_small.
  apply Z.mod_pos_bound. lia.
Qed.

Lemma to_int32_to_uint32 v : to_int32 (to_uint32 v) = to_int32 v.
Proof. apply to_int32_congr. unfold to_uint32. apply Z.mod_mod. lia. Qed.

Lemma to_int16_to_uint16 d :
  -32768 <= d < 32768 -> to_int16 (to_uint16 d) = d.
Proof.
  intros Hd. unfold to_int16, to_uint16. cbv zeta.
  rewrite Z.mod_mod by lia.
  destruct (Z_lt_dec d 0).
  - replace (d mod 65536) with (d + 65536)
      by (apply (Z.mod_unique_pos _ _ (-1)); lia).
    destruct (d + 65536 <? 32768) eqn:E; [apply Z.ltb_lt in E|]; lia.
  - rewrite Z.mod_small by lia.
    destruct (d <? 32768) eqn:E; [|apply Z.ltb_ge in E]; lia.
Qed.

Lemma to_uint16_range v : 0 <= to_uint16 v < 65536.
Proof. apply Z.mod_pos_bound. lia. Qed.

Lemma to_uint16_idem v : to_uint16 (to_uint16 v) = to_uint16 v.
Proof. unfold to_uint16. apply Z.mod_mod. lia. Qed.

(** ** Names *)

Lemma c_str_nonzero s : Forall (fun b => b <> 0) (c_str s).
Proof.
  induction s as [|b s IH]; [constructor|].
  cbn [c_str]. destruct (b =? 0) eqn:E; [constructor|].
  apply Z.eqb_neq in E. constructor; assumption.
Qed.

Lemma c_str_app_zero l r :
  Forall (fun b => b <> 0) l -> c_str (l ++ 0 :: r) = l.
Proof.
  induction 1 as [|b l Hb Hl IH]; [reflexivity|].
  cbn [app c_str]. apply Z.eqb_neq in Hb. rewrite Hb, IH. reflexivity.
Qed.

Lemma c_str_strncpy_field n src :
  (0 < n)%nat -> c_str (strncpy_field n src) = take (n - 1) (c_str src).
Proof.
  intros Hn. unfold strncpy_field.
  set (l := take (n - 1) (c_str src)).
  assert (Hl : (length l <= n - 1)%nat) by (subst l; rewrite length_take; lia).
  rewrite take_app_ge by lia. rewrite take_replicate.
  replace ((n - length l) `min` n)%nat with (S (n - length l - 1)) by lia.
  cbn [replicate]. apply c_str_app_zero.
  subst l. apply Forall_take, c_str_nonzero.
Qed.

(** ** A waypoint, written and read back *)

Lemma waypoint_record_length icons mk wpt num :
  length (waypoint_record icons mk wpt num) = 36%nat.
Proof.
  unfold waypoint_record, be_write16, be_write32.
  repeat (rewrite length_app; cbn [length]).
  rewrite strncpy_field_length. reflexivity.
Qed.

Lemma take_all {A} (l : list A) n : (length l <= n)%nat -> take n l = l.
Proof. apply take_ge. Qed.

Lemma read_record_written_waypoint icons mk wpt num st rest :
  gb_rest (fin_ st) = waypoint_record icons mk wpt num ++ rest ->
  read_record icons st
  = inl (Ok (hash_insert (to_uint16 num) (read_back icons mk wpt)
               (waypt_add (read_back icons mk wpt)
                  (set_fin (gb_advance 32 (gb_advance 4 (fin_ st))) st)))).
Proof.
  intros E. unfold read_record.
  set (body := be_write16 num ++ [0; 0] ++ [1]
               ++ [write_icon icons (icon_descr wpt)]
               ++ be_write16 (depth_cm (depth wpt))
               ++ be_write32 (toTime_t (creation_time wpt))
               ++ be_write32 (east wpt) ++ be_write32 (north wpt)
               ++ strncpy_field (Z.to_nat WPT_NAME_LEN) (mk wpt)).
  assert (E' : gb_rest (fin_ st) = be_write32 WPT_MAGIC ++ body ++ rest).
  { rewrite E. unfold waypoint_record. fold body. rewrite <- app_assoc.
    reflexivity. }
  rewrite (gbfgetuint32_enough (fin_ st) WPT_MAGIC (body ++ rest))
    by first [exact E' | (vm_compute; split; [discriminate | reflexivity])].
  change ((WPT_MAGIC =? WPT_MAGIC) || (WPT_MAGIC =? WPT_MAGIC2)) with true.
  cbv iota.
  assert (Hl : length body = 32%nat).
  { subst body. unfold be_write16, be_write32.
    repeat (rewrite length_app; cbn [length]).
    rewrite strncpy_field_length. reflexivity. }
  unfold humminbird_read_wpt. cbn [fin_ set_fin].
  rewrite (gbfread_enough 1 sizeof_waypt _ body rest)
    by first [ reflexivity | discriminate | rewrite Hl; reflexivity
             | apply (gb_rest_advance_app _ (be_write32 WPT_MAGIC)); exact E' ].
  change (sizeof_waypt =? 0) with false. cbv iota.
  rewrite fill_struct_full by (rewrite Hl; reflexivity).
  rewrite Hl.
  change (byte_at body 4) with 1.
  change (byte_at body 5) with (write_icon icons (icon_descr wpt)).
  change (field body 0 2) with (be_write16 num).
  change (field body 6 2) with (be_write16 (depth_cm (depth wpt))).
  change (field body 8 4) with (be_write32 (toTime_t (creation_time wpt))).
  change (field body 12 4) with (be_write32 (east wpt)).
  change (field body 16 4) with (be_write32 (north wpt)).
  change (field body 20 12)
    with (take 12 (strncpy_field (Z.to_nat WPT_NAME_LEN) (mk wpt))).
  rewrite take_all by (rewrite strncpy_field_length; reflexivity).
  rewrite c_str_strncpy_field by (vm_compute; lia).
  rewrite !be_read16_write16, !be_read32_write32, !to_int32_to_uint32.
  unfold depth_cm. rewrite !to_uint16_idem. reflexivity.
Qed.

(** ** The waypoint pass of the writer *)

Section WaypointPass.

Variable icons : list string.
Variable mk : Waypoint -> list Z.
Variable wpt_to_id : Waypoint -> string.

Abbreviation wrapper := (humminbird_write_waypoint_wrapper icons mk wpt_to_id).
Abbreviation write_wpts := (write_waypoints icons mk wpt_to_id).

Lemma write_waypoints_cons w ws st :
  write_wpts (w :: ws) st = write_wpts ws (wrapper w st).
Proof. reflexivity. Qed.

Lemma wrapper_known w st :
  is_Some (wpt_id_to_wpt_num_hash st !! wpt_to_id w) -> wrapper w st = st.
Proof.
  intros [n Hn]. unfold humminbird_write_waypoint_wrapper. rewrite Hn.
  reflexivity.
Qed.

Lemma wrapper_hash w st id :
  is_Some (wpt_id_to_wpt_num_hash st !! id) ->
  wpt_id_to_wpt_num_hash (wrapper w st) !! id
  = wpt_id_to_wpt_num_hash st !! id.
Proof.
  intros [n Hn]. unfold humminbird_write_waypoint_wrapper.
  destruct (wpt_id_to_wpt_num_hash st !! wpt_to_id w) eqn:Ew; [reflexivity|].
  cbn [wpt_id_to_wpt_num_hash]. apply lookup_insert_ne. congruence.
Qed.

Lemma wrapper_registers w st :
  is_Some (wpt_id_to_wpt_num_hash (wrapper w st) !! wpt_to_id w).
Proof.
  unfold humminbird_write_waypoint_wrapper.
  destruct (wpt_id_to_wpt_num_hash st !! wpt_to_id w) eqn:Ew.
  - rewrite Ew. eauto.
  - cbn [wpt_id_to_wpt_num_hash]. rewrite lookup_insert_eq. eauto.
Qed.

Lemma write_waypoints_hash ws : forall st id,
  is_Some (wpt_id_to_wpt_num_hash st !! id) ->
  wpt_id_to_wpt_num_hash (write_wpts ws st) !! id
  = wpt_id_to_wpt_num_hash st !! id.
Proof.
  induction ws as [|w ws IH]; intros st id Hid; [reflexivity|].
  rewrite write_waypoints_cons, IH.
  - apply wrapper_hash. exact Hid.
  - rewrite wrapper_hash by exact Hid. exact Hid.
Qed.

Lemma write_waypoints_registers ws : forall st w,
  w ∈ ws -> is_Some (wpt_id_to_wpt_num_hash (write_wpts ws st) !! wpt_to_id w).
Proof.
  induction ws as [|w0 ws IH]; intros st w Hin.
  - apply elem_of_nil in Hin. contradiction.
  - rewrite write_waypoints_cons. apply elem_of_cons in Hin as [-> | Hin].
    + rewrite write_waypoints_hash by apply wrapper_registers.
      apply wrapper_registers.
    + apply IH. exact Hin.
Qed.

Lemma write_waypoints_known ws : forall st,
  (forall w, w ∈ ws -> is_Some (wpt_id_to_wpt_num_hash st !! wpt_to_id w)) ->
  write_wpts ws st = st.
Proof.
  induction ws as [|w ws IH]; intros st Hall; [reflexivity|].
  rewrite write_waypoints_cons, wrapper_known.
  - apply IH. intros w' Hin. apply Hall. apply elem_of_cons. right. exact Hin.
  - apply Hall. apply elem_of_cons. left. reflexivity.
Qed.

(** The other members of the writer are not touched, and the file grows by
    one record of 36 bytes for each number given out. *)
Lemma wrapper_frame w st :
  rte_num_ (wrapper w st) = rte_num_ st /\
  humrte (wrapper w st) = humrte st /\
  wr_warnings (wrapper w st) = wr_warnings st /\
  waypoint_num (hw st) <= waypoint_num (hw (wrapper w st)) /\
  Z.of_nat (length (hwr_fout (hw (wrapper w st))))
  = Z.of_nat (length (hwr_fout (hw st)))
    + 36 * (waypoint_num (hw (wrapper w st)) - waypoint_num (hw st)).
Proof.
  unfold humminbird_write_waypoint_wrapper.
  destruct (wpt_id_to_wpt_num_hash st !! wpt_to_id w).
  - repeat split; lia.
  - unfold humminbird_write_waypoint.
    cbn [hw hwr_fout waypoint_num rte_num_ humrte wr_warnings].
    rewrite length_app, waypoint_record_length. repeat split; lia.
Qed.

Lemma write_waypoints_frame ws : forall st,
  rte_num_ (write_wpts ws st) = rte_num_ st /\
  humrte (write_wpts ws st) = humrte st /\
  wr_warnings (write_wpts ws st) = wr_warnings st /\
  waypoint_num (hw st) <= waypoint_num (hw (write_wpts ws st)) /\
  Z.of_nat (length (hwr_fout (hw (write_wpts ws st))))
  = Z.of_nat (length (hwr_fout (hw st)))
    + 36 * (waypoint_num (hw (write_wpts ws st)) - waypoint_num (hw st)).
Proof.
  induction ws as [|w ws IH]; intros st; [cbn; repeat split; lia|].
  rewrite write_waypoints_cons.
  destruct (IH (wrapper w st)) as (H1 & H2 & H3 & H4 & H5).
  destruct (wrapper_frame w st) as (G1 & G2 & G3 & G4 & G5).
  repeat split; try congruence; lia.
Qed.


End WaypointPass.

(** ** The waypoint file, written and read back *)

Lemma write_waypoints_fresh icons mk wpt_to_id ws : forall st,
  NoDup (map wpt_to_id ws) ->
  (forall w, w ∈ ws -> wpt_id_to_wpt_num_hash st !! wpt_to_id w = None) ->
  hw (write_waypoints icons mk wpt_to_id ws st)
  = {| hwr_fout :=
         hwr_fout (hw st)
         ++ waypoint_records icons mk ws (waypoint_num (hw st));
       waypoint_num := waypoint_num (hw st) + Z.of_nat (length ws) |}.
Proof.
  induction ws as [|w ws IH]; intros st Hnd Hnew.
  - cbn. rewrite app_nil_r, Z.add_0_r. destruct (hw st); reflexivity.
  - rewrite write_waypoints_cons. cbn [map] in Hnd.
    apply NoDup_cons in Hnd as [Hw Hnd].
    assert (Hnone : wpt_id_to_wpt_num_hash st !! wpt_to_id w = None)
      by (apply Hnew; apply elem_of_cons; left; reflexivity).
    rewrite IH.
    + unfold humminbird_write_waypoint_wrapper. rewrite Hnone.
      cbn [hw humminbird_write_waypoint hwr_fout waypoint_num
           waypoint_records length].
      rewrite <- app_assoc. f_equal. lia.
    + exact Hnd.
    + intros w' Hin. unfold humminbird_write_waypoint_wrapper. rewrite Hnone.
      cbn [wpt_id_to_wpt_num_hash]. rewrite lookup_insert_ne.
      * apply Hnew. apply elem_of_cons. right. exact Hin.
      * intros Heq. apply Hw. rewrite Heq.
        apply list_elem_of_fmap. exists w'. split; [reflexivity | exact Hin].
Qed.

Lemma gbfeof_nonempty f b rest : gb_rest f = b :: rest -> gbfeof f = false.
Proof. intros E. unfold gbfeof, gb_remaining. rewrite E. reflexivity. Qed.

Lemma gbfeof_empty f : gb_rest f = [] -> gbfeof f = true.
Proof. intros E. unfold gbfeof, gb_remaining. rewrite E. reflexivity. Qed.

Lemma read_waypoint_records icons mk ws : forall num st,
  gb_rest (fin_ st) = waypoint_records icons mk ws num ->
  humminbird_read icons st = Some (Ok (reader_after icons mk ws num st)).
Proof.
  induction ws as [|w ws IH]; intros num st E; rewrite humminbird_read_unfold.
  - rewrite gbfeof_empty by exact E. reflexivity.
  - cbn [waypoint_records] in E.
    pose proof (waypoint_record_length icons mk w num) as Hl.
    assert (Hne : gbfeof (fin_ st) = false).
    { destruct (waypoint_record icons mk w num) as [|b r] eqn:Er;
        [discriminate Hl|].
      apply (gbfeof_nonempty _ b (r ++ waypoint_records icons mk ws (num + 1))).
      exact E. }
    rewrite Hne, (read_record_written_waypoint icons mk w num st _ E).
    cbn [reader_after]. apply IH.
    cbn [hash_insert waypt_add set_fin fin_].
    rewrite !gb_rest_advance, drop_drop, E.
    apply drop_app_length'. rewrite Hl. reflexivity.
Qed.

Lemma reader_after_frame icons mk ws : forall num st,
  waypts (reader_after icons mk ws num st)
    = waypts st ++ map (read_back icons mk) ws /\
  routes (reader_after icons mk ws num st) = routes st /\
  tracks (reader_after icons mk ws num st) = tracks st /\
  warnings (reader_after icons mk ws num st) = warnings st.
Proof.
  induction ws as [|w ws IH]; intros num st.
  - cbn. rewrite app_nil_r. repeat split.
  - cbn [reader_after map]. destruct (IH (num + 1)
      (hash_insert (to_uint16 num) (read_back icons mk w)
         (waypt_add (read_back icons mk w)
            (set_fin (gb_advance 32 (gb_advance 4 (fin_ st))) st))))
      as (H1 & H2 & H3 & H4).
    rewrite H1, H2, H3, H4. cbn. rewrite <- app_assoc. repeat split.
Qed.

Lemma reader_after_hash_other icons mk ws : forall num st key,
  0 <= num -> num + Z.of_nat (length ws) <= 65536 ->
  key < num ->
  wpt_num_to_wpt_hash (reader_after icons mk ws num st) !! key
  = wpt_num_to_wpt_hash st !! key.
Proof.
  induction ws as [|w ws IH]; intros num st key H0 Hlen Hkey; [reflexivity|].
  cbn [reader_after]. cbn [length] in Hlen. rewrite IH by lia.
  cbn [hash_insert waypt_add set_fin wpt_num_to_wpt_hash].
  apply lookup_insert_ne. unfold to_uint16. rewrite Z.mod_small by lia. lia.
Qed.

Lemma reader_after_hash icons mk ws : forall num st k w,
  0 <= num -> num + Z.of_nat (length ws) <= 65536 ->
  ws !! k = Some w ->
  wpt_num_to_wpt_hash (reader_after icons mk ws num st) !! (num + Z.of_nat k)
  = Some (read_back icons mk w).
Proof.
  induction ws as [|w0 ws IH]; intros num st k w H0 Hlen Hk; [discriminate|].
  cbn [reader_after]. cbn [length] in Hlen. destruct k as [|k].
  - cbn in Hk. injection Hk as ->. rewrite Z.add_0_r.
    rewrite reader_after_hash_other by lia.
    cbn [hash_insert waypt_add set_fin wpt_num_to_wpt_hash].
    unfold to_uint16. rewrite Z.mod_small by lia. apply lookup_insert_eq.
  - rewrite lookup_cons_S in Hk.
    replace (num + Z.of_nat (S k)) with (num + 1 + Z.of_nat k) by lia.
    apply IH; [lia | lia | exact Hk].
Qed.

(** X6.  A list of waypoints with distinct identities, at most 65536 of
    them, is written by the waypoint pass as a file that the reader decodes
    into the same number of waypoints in the same order, waypoint k being
    registered under the number k.  The integer position is kept exactly (in
    32 bits); a depth from 1 to 65535 centimetres is kept and the absence of
    a depth is kept; the name is cut to 11 bytes; the time comes back as a
    time, 0 when the waypoint had none. *)
Theorem waypoints_round_trip icons mk wpt_to_id ws :
  NoDup (map wpt_to_id ws) ->
  Z.of_nat (length ws) <= 65536 ->
  let file :=
    hwr_fout (hw (write_waypoints icons mk wpt_to_id ws humminbird_wr_init)) in
  exists st',
    humminbird_read icons (humminbird_rd_init file) = Some (Ok st') /\
    waypts st' = map (read_back icons mk) ws /\
    routes st' = [] /\ tracks st' = [] /\ warnings st' = [] /\
    (forall k w, ws !! k = Some w ->
       wpt_num_to_wpt_hash st' !! Z.of_nat k = Some (read_back icons mk w)) /\
    (forall w, w ∈ ws ->
       let w' := read_back icons mk w in
       shortname w' = take 11 (c_str (mk w)) /\
       (-2147483648 <= east w < 2147483648 -> east w' = east w) /\
       (-2147483648 <= north w < 2147483648 -> north w' = north w) /\
       (depth w = None -> depth w' = None) /\
       (forall d, depth w = Some d -> 0 < d < 65536 -> depth w' = Some d) /\
       (creation_time w = None -> creation_time w' = Some 0) /\
       (forall t, creation_time w = Some t -> 0 <= t < 4294967296 ->
                  creation_time w' = Some t)).
Proof.
  intros Hnd Hlen file.
  assert (Hfile : file = waypoint_records icons mk ws 0).
  { subst file. rewrite write_waypoints_fresh.
    - reflexivity.
    - exact Hnd.
    - intros w _. apply lookup_empty. }
  exists (reader_after icons mk ws 0 (humminbird_rd_init file)).
  split.
  { apply read_waypoint_records. rewrite <- Hfile. reflexivity. }
  destruct (reader_after_frame icons mk ws 0 (humminbird_rd_init file))
    as (H1 & H2 & H3 & H4).
  split; [exact H1|]. split; [exact H2|]. split; [exact H3|].
  split; [exact H4|]. split.
  { intros k w Hk.
    rewrite <- (reader_after_hash icons mk ws 0 (humminbird_rd_init file) k w);
      [reflexivity | lia | lia | exact Hk]. }
  intros w _ w'. subst w'. unfold read_back.
  cbn [shortname east north depth creation_time].
  split; [reflexivity|].
  split; [apply to_int32_small|]. split; [apply to_int32_small|].
  split.
  { intros ->. reflexivity. }
  split.
  { intros d -> Hd. unfold depth_cm, to_uint16.
    change (default 0 (Some d)) with d.
    rewrite Z.mod_small by lia.
    destruct (d =? 0) eqn:E; [apply Z.eqb_eq in E; lia | reflexivity]. }
  split.
  { intros ->. reflexivity. }
  intros t -> Ht. unfold toTime_t, to_uint32.
  change (default 0 (Some t)) with t.
  rewrite Z.mod_small by lia. reflexivity.
Qed.


Lemma waypoints_round_trip_witness :
  NoDup (map sample_id sample_wpts) /\
  Z.of_nat (length sample_wpts) <= 65536 /\
  exists st',
    humminbird_read sample_icons
      (humminbird_rd_init
         (hwr_fout (hw (write_waypoints sample_icons shortname sample_id
                          sample_wpts humminbird_wr_init))))
    = Some (Ok st') /\
    length (waypts st') = 2%nat.
Proof.
  assert (H1 : NoDup (map sample_id sample_wpts)).
  { apply (bool_decide_unpack _). vm_compute. exact I. }
  assert (H2 : Z.of_nat (length sample_wpts) <= 65536) by (simpl; lia).
  split; [exact H1|]. split; [exact H2|].
  destruct (waypoints_round_trip sample_icons shortname sample_id sample_wpts
              H1 H2) as (st' & Hr & Hw & _).
  exists st'. split; [exact Hr|]. rewrite Hw. reflexivity.
Defined.

(** ** The icon of a waypoint, written and read back *)

Lemma write_icon_exact icons d i :
  Z.of_nat (length icons) <= 255 ->
  first_match (equal_ci d) icons i ->
  write_icon icons (Some d) = Z.of_nat i.
Proof.
  intros Hlen Hm. pose proof (first_match_lt _ _ _ Hm) as Hi.
  unfold write_icon. rewrite (find_icon_first _ _ 0 i Hm).
  unfold to_uint8. rewrite Z.mod_small by lia.
  destruct (0 + Z.of_nat i =? 255) eqn:E; [apply Z.eqb_eq in E; lia | lia].
Qed.

Lemma write_icon_contained icons d i :
  Z.of_nat (length icons) <= 255 ->
  no_match (equal_ci d) icons ->
  first_match (contains_ci d) icons i ->
  write_icon icons (Some d) = Z.of_nat i.
Proof.
  intros Hlen Hno Hm. pose proof (first_match_lt _ _ _ Hm) as Hi.
  unfold write_icon. rewrite (find_icon_none _ _ 0 Hno).
  cbn [Z.eqb Pos.eqb]. rewrite (find_icon_first _ _ 0 i Hm).
  unfold to_uint8. rewrite Z.mod_small by lia. lia.
Qed.

Lemma write_icon_unmatched icons d :
  no_match (equal_ci d) icons -> no_match (contains_ci d) icons ->
  write_icon icons (Some d) = 0.
Proof.
  intros Hno1 Hno2. unfold write_icon.
  rewrite (find_icon_none _ _ 0 Hno1). cbn [Z.eqb Pos.eqb].
  rewrite (find_icon_none _ _ 0 Hno2). reflexivity.
Qed.

Lemma read_icon_index (icons : list string) (i : nat) :
  (if Z.of_nat i <? Z.of_nat (length icons)
   then icons !! Z.to_nat (Z.of_nat i) else None) = icons !! i.
Proof.
  rewrite Nat2Z.id.
  destruct (Z.of_nat i <? Z.of_nat (length icons)) eqn:E; [reflexivity|].
  apply Z.ltb_ge in E. symmetry. apply lookup_ge_None. lia.
Qed.

(** X7.  With a table of at most 255 names, the record written for a
    waypoint is read back with: no icon when the waypoint had no icon
    description; the table's own name number i when the description equals
    that name, or else contains it, case-insensitively (first such i); and
    the first name of the table when the description matches no name at
    all. *)
Theorem written_icon_read_back icons mk wpt num st rest :
  Z.of_nat (length icons) <= 255 ->
  gb_rest (fin_ st) = waypoint_record icons mk wpt num ++ rest ->
  exists st' w',
    read_record icons st = inl (Ok st') /\
    waypts st' = waypts st ++ [w'] /\
    gb_rest (fin_ st') = rest /\
    (icon_descr wpt = None -> icon_descr w' = None) /\
    (forall d i, icon_descr wpt = Some d ->
       first_match (equal_ci d) icons i -> icon_descr w' = icons !! i) /\
    (forall d i, icon_descr wpt = Some d ->
       no_match (equal_ci d) icons ->
       first_match (contains_ci d) icons i -> icon_descr w' = icons !! i) /\
    (forall d, icon_descr wpt = Some d ->
       no_match (equal_ci d) icons -> no_match (contains_ci d) icons ->
       icon_descr w' = icons !! 0%nat).
Proof.
  intros Hlen E.
  rewrite (read_record_written_waypoint icons mk wpt num st rest E).
  eexists _, _. split; [reflexivity|].
  cbn [hash_insert waypt_add set_fin waypts fin_].
  split; [reflexivity|]. split.
  { rewrite !gb_rest_advance, drop_drop, E.
    apply drop_app_length'. rewrite waypoint_record_length. reflexivity. }
  unfold read_back. cbn [icon_descr]. cbv zeta.
  split; [|split; [|split]].
  - intros ->. cbn [write_icon].
    destruct (255 <? Z.of_nat (length icons)) eqn:Eb;
      [apply Z.ltb_lt in Eb; lia | reflexivity].
  - intros d i -> Hm. rewrite (write_icon_exact icons d i Hlen Hm).
    apply read_icon_index.
  - intros d i -> Hno Hm. rewrite (write_icon_contained icons d i Hlen Hno Hm).
    apply read_icon_index.
  - intros d -> Hno1 Hno2. rewrite (write_icon_unmatched icons d Hno1 Hno2).
    apply (read_icon_index icons 0).
Qed.

Lemma written_icon_read_back_witness :
  let wpt := sample_wpt (Some "Zebra"%string) in
  let st := humminbird_rd_init (waypoint_record sample_icons shortname wpt 0 ++ []) in
  Z.of_nat (length sample_icons) <= 255 /\
  gb_rest (fin_ st) = waypoint_record sample_icons shortname wpt 0 ++ [] /\
  exists st' w',
    read_record sample_icons st = inl (Ok st') /\
    waypts st' = waypts st ++ [w'] /\
    icon_descr w' = Some "Normal"%string.
Proof.
  intros wpt st.
  assert (H1 : Z.of_nat (length sample_icons) <= 255) by (simpl; lia).
  assert (H2 : gb_rest (fin_ st)
               = waypoint_record sample_icons shortname wpt 0 ++ [])
    by reflexivity.
  split; [exact H1|]. split; [exact H2|].
  destruct (written_icon_read_back sample_icons shortname wpt 0 st [] H1 H2)
    as (st' & w' & Hr & Hw & _ & _ & _ & _ & Hu).
  exists st', w'. split; [exact Hr|]. split; [exact Hw|].
  apply (Hu "Zebra"%string); [reflexivity | |];
    intros [|[|j]] name Hj; vm_compute in Hj; try discriminate Hj;
    injection Hj as <-; reflexivity.
Defined.

(** ** The route pass of the writer *)

Section RoutePass.

Variable mkshort_rte : list Z -> list Z.
Variable wpt_to_id : Waypoint -> string.
Variable gpsbabel_time : Z.

Abbreviation rtept := (humminbird_write_rtept wpt_to_id).
Abbreviation rtept_all := (write_rtept_all wpt_to_id).
Abbreviation wr_route := (write_route mkshort_rte wpt_to_id gpsbabel_time).
Abbreviation wr_routes := (write_routes mkshort_rte wpt_to_id gpsbabel_time).

Abbreviation all_known := (ids_known wpt_to_id).

Lemma to_int8_small c : 0 <= c < 128 -> to_int8 c = c.
Proof.
  intros H. unfold to_int8. cbv zeta. rewrite Z.mod_small by lia.
  destruct (c <? 128) eqn:E; [reflexivity | apply Z.ltb_ge in E; lia].
Qed.

(** All the points of the list are stored, after the [done] ones. *)
Lemma write_rtept_all_fits wpts : forall st done m,
  humrte st = Some {| rte_count := Z.of_nat (length done);
                      rte_points := done ++ replicate m 0 |} ->
  (length done + m = 50)%nat ->
  (length wpts <= m)%nat ->
  all_known st wpts ->
  rtept_all wpts st
  = Ok {| hw := hw st; rte_num_ := rte_num_ st;
          wpt_id_to_wpt_num_hash := wpt_id_to_wpt_num_hash st;
          humrte :=
            Some {| rte_count := Z.of_nat (length done + length wpts);
                    rte_points :=
                      done
                      ++ map (known_num wpt_to_id (wpt_id_to_wpt_num_hash st))
                           wpts
                      ++ replicate (m - length wpts) 0 |};
          wr_warnings := wr_warnings st |}.
Proof.
  induction wpts as [|w wpts IH]; intros st done m Hr Hlen Hfit Hknown.
  - cbn [write_rtept_all length map app]. rewrite Nat.add_0_r, Nat.sub_0_r.
    destruct st; cbn in *. rewrite Hr. reflexivity.
  - cbn [write_rtept_all length] in *.
    destruct (Hknown w) as [num Hnum]; [apply elem_of_cons; left; reflexivity|].
    unfold humminbird_write_rtept at 1. rewrite Hr, Hnum.
    cbn [rte_count rte_points].
    destruct (Z.of_nat (length done) <? MAX_RTE_POINTS) eqn:Ec;
      [|apply Z.ltb_ge in Ec; unfold MAX_RTE_POINTS in Ec; lia].
    rewrite Nat2Z.id.
    destruct (length done <? length (done ++ replicate m 0%Z))%nat eqn:Eb;
      [|apply Nat.ltb_ge in Eb; rewrite length_app, length_replicate in Eb; lia].
    cbn [mbind outcome_bind].
    destruct m as [|m]; [lia|].
    rewrite (IH _ (done ++ [to_uint16 num]) m).
    + cbn [hw rte_num_ wpt_id_to_wpt_num_hash wr_warnings].
      rewrite length_app. cbn [length map].
      unfold known_num at 2. rewrite Hnum. cbn [default].
      rewrite <- !app_assoc. cbn [app].
      replace (length done + 1 + length wpts)%nat
        with (length done + S (length wpts))%nat by lia.
      replace (S m - S (length wpts))%nat with (m - length wpts)%nat by lia.
      reflexivity.
    + cbn [humrte]. rewrite to_int8_small by lia.
      rewrite length_app. cbn [length replicate].
      replace (Z.of_nat (length done + 1)) with (Z.of_nat (length done) + 1)
        by lia.
      rewrite insert_app_r_alt by lia. rewrite Nat.sub_diag. cbn [insert list_insert].
      rewrite <- app_assoc. reflexivity.
    + rewrite length_app. cbn [length]. lia.
    + lia.
    + intros w' Hin. cbn [wpt_id_to_wpt_num_hash]. apply Hknown.
      apply elem_of_cons. right. exact Hin.
Qed.

(** One point too many is fatal. *)
Lemma write_rtept_all_overflow wpts : forall st done m,
  humrte st = Some {| rte_count := Z.of_nat (length done);
                      rte_points := done ++ replicate m 0 |} ->
  (length done + m = 50)%nat ->
  (m < length wpts)%nat ->
  all_known st wpts ->
  rtept_all wpts st = Fatal RouteLimit.
Proof.
  induction wpts as [|w wpts IH]; intros st done m Hr Hlen Hover Hknown;
    [cbn in Hover; lia|].
  cbn [write_rtept_all length] in *.
  destruct (Hknown w) as [num Hnum]; [apply elem_of_cons; left; reflexivity|].
  unfold humminbird_write_rtept at 1. rewrite Hr, Hnum.
  cbn [rte_count rte_points].
  destruct (Z.of_nat (length done) <? MAX_RTE_POINTS) eqn:Ec.
  - apply Z.ltb_lt in Ec. unfold MAX_RTE_POINTS in Ec.
    rewrite Nat2Z.id.
    destruct (length done <? length (done ++ replicate m 0%Z))%nat eqn:Eb;
      [|apply Nat.ltb_ge in Eb; rewrite length_app, length_replicate in Eb; lia].
    cbn [mbind outcome_bind].
    destruct m as [|m]; [lia|].
    apply (IH _ (done ++ [to_uint16 num]) m).
    + cbn [humrte]. rewrite to_int8_small by lia.
      rewrite length_app. cbn [length replicate].
      replace (Z.of_nat (length done + 1)) with (Z.of_nat (length done) + 1)
        by lia.
      rewrite insert_app_r_alt by lia. rewrite Nat.sub_diag. cbn [insert list_insert].
      rewrite <- app_assoc. reflexivity.
    + rewrite length_app. cbn [length]. lia.
    + lia.
    + intros w' Hin. cbn [wpt_id_to_wpt_num_hash]. apply Hknown.
      apply elem_of_cons. right. exact Hin.
  - reflexivity.
Qed.

Lemma route_record_length r num name :
  length (rte_points r) = 50%nat ->
  length (route_record mkshort_rte gpsbabel_time r num name) = 136%nat.
Proof.
  intros Hp. unfold route_record, be_write16, be_write32.
  repeat (rewrite length_app; cbn [length]).
  rewrite strncpy_field_length.
  assert (Hc : forall ps : list Z,
             length (concat (map (fun v => [(v / 256) mod 256; v mod 256]) ps))
             = (2 * length ps)%nat).
  { induction ps as [|p ps IH]; [reflexivity|].
    cbn [map concat length app]. rewrite IH. lia. }
  rewrite Hc, Hp. reflexivity.
Qed.

Lemma filled_rte_length hash wpts :
  (length wpts <= 50)%nat ->
  length (rte_points (filled_rte wpt_to_id hash wpts)) = 50%nat.
Proof.
  intros H. unfold filled_rte. cbn [rte_points].
  rewrite length_app, length_map, length_replicate.
  change (Z.to_nat MAX_RTE_POINTS) with 50%nat. lia.
Qed.

(** One route: no record for a route without points, one record for 1 to
    50 points, the fatal error above that. *)
Lemma write_route_cases rte st :
  all_known st (rte_waypts rte) ->
  wr_route rte st
  = match rte_waypts rte with
    | [] =>
      Ok {| hw := hw st; rte_num_ := rte_num_ st;
            wpt_id_to_wpt_num_hash := wpt_id_to_wpt_num_hash st;
            humrte := None; wr_warnings := wr_warnings st |}
    | _ :: _ =>
      if (length (rte_waypts rte) <=? 50)%nat then
        Ok {| hw :=
                {| hwr_fout :=
                     hwr_fout (hw st)
                     ++ route_record mkshort_rte gpsbabel_time
                          (filled_rte wpt_to_id (wpt_id_to_wpt_num_hash st)
                             (rte_waypts rte))
                          (rte_num_ st) (rte_name rte);
                   waypoint_num := waypoint_num (hw st) |};
              rte_num_ := rte_num_ st + 1;
              wpt_id_to_wpt_num_hash := wpt_id_to_wpt_num_hash st;
              humrte := None; wr_warnings := wr_warnings st |}
      else Fatal RouteLimit
    end.
Proof.
  intros Hknown. unfold write_route.
  destruct (rte_waypts rte) as [|w ws] eqn:Ew.
  - unfold humminbird_rte_head. rewrite Ew. reflexivity.
  - destruct (length (w :: ws) <=? 50)%nat eqn:El.
    + apply Nat.leb_le in El.
      rewrite (write_rtept_all_fits (w :: ws) _ [] 50).
      * cbn [mbind outcome_bind]. unfold humminbird_rte_tail.
        cbn [humrte rte_count length Nat.add].
        destruct (Z.of_nat (S (length ws)) >? 0) eqn:Ec;
          [|rewrite Z.gtb_ltb in Ec; apply Z.ltb_ge in Ec; lia].
        reflexivity.
      * unfold humminbird_rte_head. rewrite Ew. reflexivity.
      * reflexivity.
      * exact El.
      * exact Hknown.
    + apply Nat.leb_gt in El.
      rewrite (write_rtept_all_overflow (w :: ws) _ [] 50).
      * reflexivity.
      * unfold humminbird_rte_head. rewrite Ew. reflexivity.
      * reflexivity.
      * exact El.
      * exact Hknown.
Qed.

Lemma write_routes_ok rtes : forall st,
  (forall rte, rte ∈ rtes -> all_known st (rte_waypts rte)) ->
  Forall (fun rte => (length (rte_waypts rte) <= 50)%nat) rtes ->
  exists st',
    wr_routes rtes st = Ok st' /\
    hwr_fout (hw st')
      = hwr_fout (hw st)
        ++ route_records mkshort_rte wpt_to_id gpsbabel_time
             (wpt_id_to_wpt_num_hash st) rtes (rte_num_ st) /\
    waypoint_num (hw st') = waypoint_num (hw st) /\
    wpt_id_to_wpt_num_hash st' = wpt_id_to_wpt_num_hash st /\
    wr_warnings st' = wr_warnings st /\
    rte_num_ st <= rte_num_ st' /\
    Z.of_nat (length (hwr_fout (hw st')))
    = Z.of_nat (length (hwr_fout (hw st)))
      + 136 * (rte_num_ st' - rte_num_ st).
Proof.
  induction rtes as [|rte rtes IH]; intros st Hknown Hfit.
  - exists st. cbn. rewrite app_nil_r. repeat split; lia.
  - apply Forall_cons in Hfit as [Hfit1 Hfit].
    cbn [write_routes route_records].
    rewrite write_route_cases
      by (apply Hknown; apply elem_of_cons; left; reflexivity).
    assert (Hrest : forall st1,
              wpt_id_to_wpt_num_hash st1 = wpt_id_to_wpt_num_hash st ->
              forall rte0, rte0 ∈ rtes -> all_known st1 (rte_waypts rte0)).
    { intros st1 Hh rte0 Hin w Hw. rewrite Hh.
      apply (Hknown rte0); [apply elem_of_cons; right; exact Hin | exact Hw]. }
    destruct (rte_waypts rte) as [|w ws] eqn:Ew.
    + cbn [mbind outcome_bind].
      match goal with
      | |- context [write_routes _ _ _ rtes ?s] =>
        destruct (IH s) as (st' & Hr & Hf & Hn & Hh & Hw & Hle & Hlen);
          [apply Hrest; reflexivity | exact Hfit |]
      end.
      exists st'. split; [exact Hr|]. cbn in *. repeat split; assumption.
    + apply Nat.leb_le in Hfit1 as Hb. rewrite Hb.
      cbn [mbind outcome_bind].
      match goal with
      | |- context [write_routes _ _ _ rtes ?s] =>
        destruct (IH s) as (st' & Hr & Hf & Hn & Hh & Hw & Hle & Hlen);
          [apply Hrest; reflexivity | exact Hfit |]
      end.
      exists st'. split; [exact Hr|].
      cbn [hw hwr_fout waypoint_num rte_num_ wpt_id_to_wpt_num_hash
           wr_warnings] in *.
      rewrite length_app, route_record_length in Hlen
        by (apply filled_rte_length; exact Hfit1).
      split; [rewrite Hf, <- app_assoc; reflexivity|].
      repeat split; try assumption; lia.
Qed.

Lemma write_routes_fatal rtes : forall st,
  (forall rte, rte ∈ rtes -> all_known st (rte_waypts rte)) ->
  Exists (fun rte => (50 < length (rte_waypts rte))%nat) rtes ->
  wr_routes rtes st = Fatal RouteLimit.
Proof.
  induction rtes as [|rte rtes IH]; intros st Hknown Hex.
  - apply Exists_nil in Hex. contradiction.
  - cbn [write_routes].
    rewrite write_route_cases
      by (apply Hknown; apply elem_of_cons; left; reflexivity).
    assert (Hrest : forall st1,
              wpt_id_to_wpt_num_hash st1 = wpt_id_to_wpt_num_hash st ->
              forall rte0, rte0 ∈ rtes -> all_known st1 (rte_waypts rte0)).
    { intros st1 Hh rte0 Hin w Hw. rewrite Hh.
      apply (Hknown rte0); [apply elem_of_cons; right; exact Hin | exact Hw]. }
    apply Exists_cons in Hex.
    destruct (rte_waypts rte) as [|w ws] eqn:Ew.
    + cbn [mbind outcome_bind]. apply IH; [apply Hrest; reflexivity|].
      destruct Hex as [Hex | Hex]; [cbn in Hex; lia | exact Hex].
    + destruct (length (w :: ws) <=? 50)%nat eqn:El; [|reflexivity].
      apply Nat.leb_le in El. cbn [mbind outcome_bind].
      apply IH; [apply Hrest; reflexivity|].
      destruct Hex as [Hex | Hex]; [lia | exact Hex].
Qed.

Variable icons : list string.
Variable mkshort_wpt : Waypoint -> list Z.

Abbreviation pass1 :=
  (fun wpts rtes st =>
     write_route_waypoints icons mkshort_wpt wpt_to_id rtes
       (write_waypoints icons mkshort_wpt wpt_to_id wpts st)).

Lemma write_route_waypoints_hash rtes : forall st id,
  is_Some (wpt_id_to_wpt_num_hash st !! id) ->
  wpt_id_to_wpt_num_hash
    (write_route_waypoints icons mkshort_wpt wpt_to_id rtes st) !! id
  = wpt_id_to_wpt_num_hash st !! id.
Proof.
  induction rtes as [|rte rtes IH]; intros st id Hid; [reflexivity|].
  cbn [write_route_waypoints foldl].
  change (foldl _ ?s rtes)
    with (write_route_waypoints icons mkshort_wpt wpt_to_id rtes s).
  rewrite IH.
  - apply write_waypoints_hash. exact Hid.
  - rewrite write_waypoints_hash by exact Hid. exact Hid.
Qed.

Lemma write_route_waypoints_registers rtes : forall st rte,
  rte ∈ rtes ->
  all_known (write_route_waypoints icons mkshort_wpt wpt_to_id rtes st)
    (rte_waypts rte).
Proof.
  induction rtes as [|rte0 rtes IH]; intros st rte Hin.
  - apply elem_of_nil in Hin. contradiction.
  - cbn [write_route_waypoints foldl].
    change (foldl _ ?s rtes)
      with (write_route_waypoints icons mkshort_wpt wpt_to_id rtes s).
    apply elem_of_cons in Hin as [-> | Hin].
    + intros w Hw.
      rewrite write_route_waypoints_hash
        by (apply write_waypoints_registers; exact Hw).
      apply write_waypoints_registers. exact Hw.
    + apply IH. exact Hin.
Qed.

Lemma write_route_waypoints_frame rtes : forall st,
  rte_num_ (write_route_waypoints icons mkshort_wpt wpt_to_id rtes st)
    = rte_num_ st /\
  wr_warnings (write_route_waypoints icons mkshort_wpt wpt_to_id rtes st)
    = wr_warnings st.
Proof.
  induction rtes as [|rte rtes IH]; intros st; [split; reflexivity|].
  cbn [write_route_waypoints foldl].
  change (foldl _ ?s rtes)
    with (write_route_waypoints icons mkshort_wpt wpt_to_id rtes s).
  destruct (IH (write_waypoints icons mkshort_wpt wpt_to_id (rte_waypts rte) st))
    as [H1 H2].
  destruct (write_waypoints_frame icons mkshort_wpt wpt_to_id (rte_waypts rte) st)
    as (G1 & _ & G3 & _).
  split; congruence.
Qed.

(** X8.  A route of more than 50 points makes the whole write fatal (the
    route-limit error), whatever the other routes and waypoints are: no
    route is cut short. *)
Theorem write_route_limit wpts rtes st :
  Exists (fun rte => (50 < length (rte_waypts rte))%nat) rtes ->
  humminbird_write icons mkshort_wpt mkshort_rte wpt_to_id gpsbabel_time
    wpts rtes st
  = Fatal RouteLimit.
Proof.
  intros Hex. unfold humminbird_write. apply write_routes_fatal.
  - intros rte Hin. apply write_route_waypoints_registers. exact Hin.
  - exact Hex.
Qed.

(** X9.  When no route has more than 50 points the write succeeds: the
    route pass finds every point in the identity index, so the warning for
    a missing reference is never issued; after the waypoint records the
    file holds one record of 136 bytes for each route that has points, the
    routes are numbered in order from the current route number, and a route
    without points gets neither a record nor a number. *)
Theorem write_routes_complete wpts rtes st :
  Forall (fun rte => (length (rte_waypts rte) <= 50)%nat) rtes ->
  let st1 := pass1 wpts rtes st in
  exists st',
    humminbird_write icons mkshort_wpt mkshort_rte wpt_to_id gpsbabel_time
      wpts rtes st = Ok st' /\
    wr_warnings st' = wr_warnings st /\
    hwr_fout (hw st')
      = hwr_fout (hw st1)
        ++ route_records mkshort_rte wpt_to_id gpsbabel_time
             (wpt_id_to_wpt_num_hash st1) rtes (rte_num_ st) /\
    rte_num_ st <= rte_num_ st' /\
    Z.of_nat (length (hwr_fout (hw st')))
    = Z.of_nat (length (hwr_fout (hw st1)))
      + 136 * (rte_num_ st' - rte_num_ st).
Proof.
  intros Hfit st1. unfold humminbird_write. fold st1.
  destruct (write_routes_ok rtes st1) as (st' & Hr & Hf & _ & _ & Hw & Hle & Hl).
  - intros rte Hin. apply write_route_waypoints_registers. exact Hin.
  - exact Hfit.
  - destruct (write_route_waypoints_frame rtes
                (write_waypoints icons mkshort_wpt wpt_to_id wpts st))
      as [Hn1 Hw1].
    destruct (write_waypoints_frame icons mkshort_wpt wpt_to_id wpts st)
      as (Hn0 & _ & Hw0 & _).
    assert (Hn : rte_num_ st1 = rte_num_ st) by (subst st1; congruence).
    assert (Hww : wr_warnings st1 = wr_warnings st) by (subst st1; congruence).
    exists st'. rewrite <- Hn, <- Hww. repeat split; assumption.
Qed.

End RoutePass.

Lemma write_route_limit_witness :
  Exists (fun rte => (50 < length (rte_waypts rte))%nat)
    [sample_route; long_route 51] /\
  humminbird_write sample_icons shortname (fun name => name) sample_id 0
    sample_wpts [sample_route; long_route 51] humminbird_wr_init
  = Fatal RouteLimit.
Proof.
  assert (H : Exists (fun rte => (50 < length (rte_waypts rte))%nat)
                [sample_route; long_route 51]).
  { apply (bool_decide_unpack _). vm_compute. exact I. }
  split; [exact H|].
  apply (write_route_limit (fun name => name) sample_id 0 sample_icons
           shortname sample_wpts _ humminbird_wr_init H).
Defined.

Lemma write_routes_complete_witness :
  Forall (fun rte => (length (rte_waypts rte) <= 50)%nat)
    [sample_route; long_route 0; long_route 50] /\
  exists st',
    humminbird_write sample_icons shortname (fun name => name) sample_id 0
      [] [sample_route; long_route 0; long_route 50] humminbird_wr_init
    = Ok st' /\
    wr_warnings st' = [].
Proof.
  assert (H : Forall (fun rte => (length (rte_waypts rte) <= 50)%nat)
                [sample_route; long_route 0; long_route 50]).
  { apply (bool_decide_unpack _). vm_compute. exact I. }
  split; [exact H|].
  destruct (write_routes_complete (fun name => name) sample_id 0 sample_icons
              shortname [] _ humminbird_wr_init H)
    as (st' & Hr & Hw & _).
  exists st'. split; [exact Hr | exact Hw].
Defined.

(** ** A route record, written and read back *)

Lemma words_bytes_slot ps : forall i p,
  ps !! i = Some p ->
  take 2 (drop (2 * i) (concat (map be_write16 ps))) = be_write16 p.
Proof.
  induction ps as [|q ps IH]; intros i p Hi; [discriminate|].
  destruct i as [|i].
  - cbn in Hi. injection Hi as ->. reflexivity.
  - rewrite lookup_cons_S in Hi.
    replace (2 * S i)%nat with (2 + 2 * i)%nat by lia.
    cbn [map concat]. unfold be_write16 at 1. cbn [app].
    rewrite <- drop_drop. cbn [drop]. apply IH. exact Hi.
Qed.

Lemma hrte_points_written prefix ps :
  length prefix = 32%nat -> length ps = 50%nat ->
  Forall (fun p => 0 <= p < 65536) ps ->
  hrte_points (prefix ++ concat (map be_write16 ps)) = ps.
Proof.
  intros Hp Hl Hr. apply list_eq. intros i. unfold hrte_points.
  rewrite list_lookup_fmap. change (Z.to_nat MAX_RTE_POINTS) with 50%nat.
  destruct (Nat.lt_ge_cases i 50) as [Hi | Hi].
  - rewrite lookup_seq_lt by exact Hi. cbn [fmap option_fmap option_map].
    rewrite Nat.add_0_l.
    destruct (ps !! i) as [p|] eqn:Ei;
      [|apply lookup_ge_None in Ei; lia].
    f_equal. unfold field.
    rewrite drop_app_ge by lia.
    replace (32 + 2 * i - length prefix)%nat with (2 * i)%nat by lia.
    rewrite (words_bytes_slot ps i p Ei), be_read16_write16.
    unfold to_uint16. apply Z.mod_small.
    rewrite Forall_lookup in Hr. apply (Hr i p Ei).
  - rewrite lookup_seq_ge by exact Hi. symmetry. apply lookup_ge_None. lia.
Qed.

Lemma filled_rte_range id hash wpts :
  Forall (fun p => 0 <= p < 65536) (rte_points (filled_rte id hash wpts)).
Proof.
  unfold filled_rte. cbn [rte_points]. apply Forall_app. split.
  - apply Forall_forall. intros p Hin. apply list_elem_of_fmap in Hin as (w & -> & _).
    apply to_uint16_range.
  - apply Forall_forall. intros p Hin. apply elem_of_replicate in Hin as [-> _]. lia.
Qed.

Lemma read_written_route icons mk id time hash wpts num name st rest :
  (1 <= length wpts <= 50)%nat ->
  gb_rest (fin_ st)
    = route_record mk time (filled_rte id hash wpts) num name ++ rest ->
  let resolved :=
    omap (fun n => wpt_num_to_wpt_hash st !! n)
      (map (known_num id hash) wpts) in
  exists st',
    read_record icons st = inl (Ok st') /\
    gb_rest (fin_ st') = rest /\
    waypts st' = waypts st /\
    wpt_num_to_wpt_hash st' = wpt_num_to_wpt_hash st /\
    tracks st' = tracks st /\
    warnings st' = warnings st /\
    routes st'
    = match resolved with
      | [] => routes st
      | _ :: _ =>
        routes st ++ [ {| rte_name := take 19 (c_str (mk name)); rte_num := 0;
                          rte_waypts := resolved |} ]
      end.
Proof.
  intros Hlen E resolved. unfold read_record.
  set (r := filled_rte id hash wpts) in *.
  set (prefix := be_write16 (to_uint16 num) ++ [0; 0] ++ [0; 0; 0]
                 ++ [to_uint8 (rte_count r)]
                 ++ be_write32 (to_uint32 time)
                 ++ strncpy_field (Z.to_nat RTE_NAME_LEN) (mk name)).
  set (body := prefix ++ concat (map be_write16 (rte_points r))).
  assert (Hprefix : length prefix = 32%nat).
  { subst prefix. unfold be_write16, be_write32.
    repeat (rewrite length_app; cbn [length]).
    rewrite strncpy_field_length. reflexivity. }
  assert (Hpts : length (rte_points r) = 50%nat)
    by (apply filled_rte_length; lia).
  assert (E' : gb_rest (fin_ st) = be_write32 RTE_MAGIC ++ body ++ rest).
  { rewrite E. unfold route_record. subst body prefix.
    rewrite <- !app_assoc. reflexivity. }
  assert (Hbody : length body = 132%nat).
  { pose proof (route_record_length mk time r num name Hpts) as Hrec.
    unfold route_record in Hrec. rewrite length_app in Hrec.
    cbn [be_write32 length] in Hrec.
    subst body prefix. rewrite <- !app_assoc. cbn [app] in *. lia. }
  rewrite (gbfgetuint32_enough (fin_ st) RTE_MAGIC (body ++ rest))
    by first [exact E' | (vm_compute; split; [discriminate | reflexivity])].
  change ((RTE_MAGIC =? WPT_MAGIC) || (RTE_MAGIC =? WPT_MAGIC2)) with false.
  change (RTE_MAGIC =? RTE_MAGIC) with true. cbv iota.
  rewrite (read_route_full _ body rest)
    by first [exact Hbody
             | (cbn [set_fin fin_];
                apply (gb_rest_advance_app _ (be_write32 RTE_MAGIC)); exact E')].
  cbv zeta.
  assert (Hcount : to_int8 (byte_at body 7) = Z.of_nat (length wpts)).
  { change (byte_at body 7) with (to_uint8 (rte_count r)).
    subst r. unfold filled_rte. cbn [rte_count]. unfold to_uint8, to_int8.
    cbv zeta. rewrite Z.mod_mod by lia. rewrite Z.mod_small by lia.
    destruct (Z.of_nat (length wpts) <? 128) eqn:Eb;
      [reflexivity | apply Z.ltb_ge in Eb; lia]. }
  rewrite Hcount.
  destruct (Z.of_nat (length wpts) >? 0) eqn:Eg;
    [|rewrite Z.gtb_ltb in Eg; apply Z.ltb_ge in Eg; lia].
  rewrite read_route_points_ok by (rewrite hrte_points_length; lia).
  rewrite drop_0.
  replace (hrte_points body) with (rte_points r)
    by (symmetry; apply hrte_points_written;
        [exact Hprefix | exact Hpts | apply filled_rte_range]).
  change (field body 12 20)
    with (take 20 (strncpy_field (Z.to_nat RTE_NAME_LEN) (mk name) ++
                   concat (map be_write16 (rte_points r)))).
  rewrite take_app_length' by (rewrite strncpy_field_length; reflexivity).
  assert (Hname : c_str (strncpy_field (Z.to_nat RTE_NAME_LEN) (mk name))
                  = take 19 (c_str (mk name)))
    by (apply c_str_strncpy_field; vm_compute; lia).
  assert (Htake : take (Z.to_nat (Z.of_nat (length wpts))) (rte_points r)
                  = map (known_num id hash) wpts).
  { rewrite Nat2Z.id. subst r. unfold filled_rte. cbn [rte_points].
    apply take_app_length'. rewrite length_map. reflexivity. }
  rewrite Htake. cbn [set_fin wpt_num_to_wpt_hash]. fold resolved.
  cbn [mbind outcome_bind].
  assert (Hrest : gb_rest (gb_advance 132 (gb_advance 4 (fin_ st))) = rest).
  { rewrite !gb_rest_advance, drop_drop, E'.
    rewrite app_assoc. apply drop_app_length'.
    rewrite length_app, Hbody. reflexivity. }
  destruct resolved as [|w ws]; cbn [route_extend mbind outcome_bind];
    rewrite ?Hname; eexists; (split; [reflexivity|]);
    cbn [route_add set_fin fin_ waypts wpt_num_to_wpt_hash tracks warnings
         routes];
    repeat split; exact Hrest.
Qed.

Lemma omap_length {A B} (f : A -> option B) l :
  (length (omap f l) <= length l)%nat.
Proof.
  induction l as [|a l IH]; [reflexivity|].
  cbn [omap list_omap length]. destruct (f a); cbn [length]; lia.
Qed.

Lemma omap_all {A B} (f : A -> option B) (g : A -> B) l :
  (forall a, a ∈ l -> f a = Some (g a)) -> omap f l = map g l.
Proof.
  induction l as [|a l IH]; intros H; [reflexivity|].
  cbn [omap list_omap map]. rewrite (H a) by (apply elem_of_cons; left; reflexivity).
  f_equal. apply IH. intros b Hb. apply H. apply elem_of_cons. right. exact Hb.
Qed.

(** X10.  The record written for a route of 1 to 50 points is read back as
    a route with the stored numbers looked up in the waypoint index, in
    order: a number that is not in the index is left out, and when every
    number is in the index the route has all its points.  The name is the
    shortened name cut to 19 bytes; the route number that was written is
    not restored (the decoded route has number 0). *)
Theorem written_route_read_back icons mk id time hash wpts num name st rest :
  (1 <= length wpts <= 50)%nat ->
  gb_rest (fin_ st)
    = route_record mk time (filled_rte id hash wpts) num name ++ rest ->
  let resolved :=
    omap (fun n => wpt_num_to_wpt_hash st !! n)
      (map (known_num id hash) wpts) in
  exists st',
    read_record icons st = inl (Ok st') /\
    gb_rest (fin_ st') = rest /\
    waypts st' = waypts st /\
    wpt_num_to_wpt_hash st' = wpt_num_to_wpt_hash st /\
    routes st'
    = match resolved with
      | [] => routes st
      | _ :: _ =>
        routes st ++ [ {| rte_name := take 19 (c_str (mk name)); rte_num := 0;
                          rte_waypts := resolved |} ]
      end /\
    (length resolved <= length wpts)%nat /\
    ((forall w, w ∈ wpts ->
        is_Some (wpt_num_to_wpt_hash st !! known_num id hash w)) ->
     length resolved = length wpts).
Proof.
  intros Hlen E resolved.
  destruct (read_written_route icons mk id time hash wpts num name st rest
              Hlen E)
    as (st' & Hr & Hrest & Hw & Hh & _ & _ & Hroutes).
  exists st'. split; [exact Hr|]. split; [exact Hrest|].
  split; [exact Hw|]. split; [exact Hh|]. split; [exact Hroutes|].
  split.
  - subst resolved. etransitivity; [apply omap_length|].
    rewrite length_map. reflexivity.
  - intros Hall. subst resolved.
    rewrite (omap_all _ (fun n => default (sample_wpt None)
                                    (wpt_num_to_wpt_hash st !! n))).
    + rewrite !length_map. reflexivity.
    + intros n Hn. apply list_elem_of_fmap in Hn as (w & -> & Hw').
      destruct (Hall w Hw') as [x Hx]. rewrite Hx. reflexivity.
Qed.

(** ** Waypoints and routes, written and read back *)

Lemma omap_map_all {A B C} (f : B -> option C) (k : A -> B) (g : A -> C) l :
  (forall a, a ∈ l -> f (k a) = Some (g a)) -> omap f (map k l) = map g l.
Proof.
  induction l as [|a l IH]; intros H; [reflexivity|].
  cbn [omap list_omap map].
  rewrite (H a) by (apply elem_of_cons; left; reflexivity).
  f_equal. apply IH. intros b Hb. apply H. apply elem_of_cons. right. exact Hb.
Qed.

Lemma write_waypoints_fresh_hash icons mk id ws : forall st k w,
  NoDup (map id ws) ->
  (forall w', w' ∈ ws -> wpt_id_to_wpt_num_hash st !! id w' = None) ->
  ws !! k = Some w ->
  wpt_id_to_wpt_num_hash (write_waypoints icons mk id ws st) !! id w
  = Some (waypoint_num (hw st) + Z.of_nat k).
Proof.
  induction ws as [|w0 ws IH]; intros st k w Hnd Hnew Hk; [discriminate|].
  rewrite write_waypoints_cons. cbn [map] in Hnd.
  apply NoDup_cons in Hnd as [Hw0 Hnd].
  assert (Hnone : wpt_id_to_wpt_num_hash st !! id w0 = None)
    by (apply Hnew; apply elem_of_cons; left; reflexivity).
  assert (Hstep : humminbird_write_waypoint_wrapper icons mk id w0 st
            = {| hw := humminbird_write_waypoint icons mk w0 (hw st);
                 rte_num_ := rte_num_ st;
                 wpt_id_to_wpt_num_hash :=
                   <[id w0 := waypoint_num (hw st)]> (wpt_id_to_wpt_num_hash st);
                 humrte := humrte st; wr_warnings := wr_warnings st |}).
  { unfold humminbird_write_waypoint_wrapper. rewrite Hnone. reflexivity. }
  destruct k as [|k].
  - cbn in Hk. injection Hk as ->.
    rewrite write_waypoints_hash; rewrite Hstep; cbn [wpt_id_to_wpt_num_hash];
      rewrite lookup_insert_eq; [f_equal; lia | eauto].
  - rewrite lookup_cons_S in Hk. rewrite (IH _ k w Hnd).
    + rewrite Hstep. cbn [hw humminbird_write_waypoint waypoint_num].
      f_equal. lia.
    + intros w' Hin. rewrite Hstep. cbn [wpt_id_to_wpt_num_hash].
      rewrite lookup_insert_ne.
      * apply Hnew. apply elem_of_cons. right. exact Hin.
      * intros Heq. apply Hw0. rewrite Heq.
        apply list_elem_of_fmap. exists w'. split; [reflexivity | exact Hin].
    + exact Hk.
Qed.

Lemma write_route_waypoints_known icons mk id rtes : forall st,
  (forall rte, rte ∈ rtes -> ids_known id st (rte_waypts rte)) ->
  write_route_waypoints icons mk id rtes st = st.
Proof.
  induction rtes as [|rte rtes IH]; intros st Hknown; [reflexivity|].
  cbn [write_route_waypoints foldl].
  change (foldl _ ?s rtes) with (write_route_waypoints icons mk id rtes s).
  rewrite write_waypoints_known.
  - apply IH. intros rte0 Hin. apply Hknown. apply elem_of_cons. right. exact Hin.
  - apply Hknown. apply elem_of_cons. left. reflexivity.
Qed.

Lemma read_waypoint_records_then icons mk ws : forall num st rest,
  gb_rest (fin_ st) = waypoint_records icons mk ws num ++ rest ->
  humminbird_read icons st
    = humminbird_read icons (reader_after icons mk ws num st) /\
  gb_rest (fin_ (reader_after icons mk ws num st)) = rest.
Proof.
  induction ws as [|w ws IH]; intros num st rest E.
  - split; [reflexivity | exact E].
  - cbn [waypoint_records] in E. rewrite <- app_assoc in E.
    pose proof (waypoint_record_length icons mk w num) as Hl.
    assert (Hne : gbfeof (fin_ st) = false).
    { destruct (waypoint_record icons mk w num) as [|b r] eqn:Er;
        [discriminate Hl|].
      apply (gbfeof_nonempty _ b
               (r ++ waypoint_records icons mk ws (num + 1) ++ rest)).
      exact E. }
    cbn [reader_after].
    destruct (IH (num + 1)
      (hash_insert (to_uint16 num) (read_back icons mk w)
         (waypt_add (read_back icons mk w)
            (set_fin (gb_advance 32 (gb_advance 4 (fin_ st))) st))) rest)
      as [Hread Hrest].
    { cbn [hash_insert waypt_add set_fin fin_].
      rewrite !gb_rest_advance, drop_drop, E.
      apply drop_app_length'. rewrite Hl. reflexivity. }
    split; [|exact Hrest].
    rewrite humminbird_read_unfold, Hne,
      (read_record_written_waypoint icons mk w num st _ E).
    exact Hread.
Qed.

Lemma reader_after_fin_hash_frame icons mk ws : forall num st,
  routes (reader_after icons mk ws num st) = routes st /\
  tracks (reader_after icons mk ws num st) = tracks st /\
  warnings (reader_after icons mk ws num st) = warnings st.
Proof.
  intros num st.
  destruct (reader_after_frame icons mk ws num st) as (_ & H2 & H3 & H4).
  repeat split; assumption.
Qed.

Lemma route_records_nonempty_head mkr id time hash rte rtes num w ws :
  rte_waypts rte = w :: ws ->
  route_records mkr id time hash (rte :: rtes) num
  = route_record mkr time (filled_rte id hash (w :: ws)) num (rte_name rte)
    ++ route_records mkr id time hash rtes (num + 1).
Proof. intros E. cbn [route_records]. rewrite E. reflexivity. Qed.

Lemma read_route_records icons mkw mkr id time hash rtes : forall num st,
  Forall (fun rte => (length (rte_waypts rte) <= 50)%nat) rtes ->
  gb_rest (fin_ st) = route_records mkr id time hash rtes num ->
  (forall rte w, rte ∈ rtes -> w ∈ rte_waypts rte ->
     wpt_num_to_wpt_hash st !! known_num id hash w
     = Some (read_back icons mkw w)) ->
  exists st',
    humminbird_read icons st = Some (Ok st') /\
    waypts st' = waypts st /\
    tracks st' = tracks st /\
    warnings st' = warnings st /\
    routes st' = routes st ++ routes_read_back icons mkw mkr rtes.
Proof.
  induction rtes as [|rte rtes IH]; intros num st Hfit E Hidx.
  - exists st. rewrite humminbird_read_unfold, gbfeof_empty by exact E.
    cbn. rewrite app_nil_r. repeat split.
  - apply Forall_cons in Hfit as [Hfit1 Hfit].
    assert (Hidx' : forall st1,
              wpt_num_to_wpt_hash st1 = wpt_num_to_wpt_hash st ->
              forall rte0 w, rte0 ∈ rtes -> w ∈ rte_waypts rte0 ->
              wpt_num_to_wpt_hash st1 !! known_num id hash w
              = Some (read_back icons mkw w)).
    { intros st1 Hh rte0 w Hin Hw. rewrite Hh.
      apply (Hidx rte0); [apply elem_of_cons; right; exact Hin | exact Hw]. }
    destruct (rte_waypts rte) as [|w ws] eqn:Ew.
    + cbn [route_records routes_read_back] in *. rewrite Ew in *.
      apply (IH num st Hfit E). apply Hidx'. reflexivity.
    + rewrite (route_records_nonempty_head _ _ _ _ _ _ _ w ws Ew) in E.
      destruct (read_written_route icons mkr id time hash (w :: ws) num
                  (rte_name rte) st _ ltac:(cbn [length] in *; lia) E)
        as (st1 & Hr & Hrest & Hw1 & Hh1 & Ht1 & Hwarn1 & Hroutes1).
      destruct (IH (num + 1) st1 Hfit Hrest (Hidx' st1 Hh1))
        as (st' & Hread & Hw' & Ht' & Hwarn' & Hroutes').
      exists st'.
      assert (Hne : gbfeof (fin_ st) = false).
      { pose proof (route_record_length mkr time
                      (filled_rte id hash (w :: ws)) num (rte_name rte)
                      (filled_rte_length id hash (w :: ws) Hfit1)) as Hl.
        destruct (route_record mkr time (filled_rte id hash (w :: ws)) num
                    (rte_name rte)) as [|b r] eqn:Er; [discriminate Hl|].
        apply (gbfeof_nonempty _ b
                 (r ++ route_records mkr id time hash rtes (num + 1))).
        exact E. }
      split.
      { rewrite humminbird_read_unfold, Hne, Hr. exact Hread. }
      split; [congruence|]. split; [congruence|]. split; [congruence|].
      assert (Hres : omap (fun n => wpt_num_to_wpt_hash st !! n)
                       (map (known_num id hash) (w :: ws))
                     = map (read_back icons mkw) (w :: ws)).
      { apply omap_map_all. intros w' Hw2. apply (Hidx rte w').
        - apply elem_of_cons. left. reflexivity.
        - rewrite Ew. exact Hw2. }
      rewrite Hres in Hroutes1. cbn [map] in Hroutes1.
      rewrite Hroutes', Hroutes1. cbn [routes_read_back]. rewrite Ew.
      cbn [map]. rewrite <- app_assoc. reflexivity.
Qed.

(** X11.  Waypoints with distinct identities (at most 65536) and routes of
    at most 50 points taken from these waypoints are written without any
    warning, and the file is read back as the same waypoints in the same
    order and the same routes in the same order, every route point being
    the waypoint as it is read back; a route without points is not in the
    file, route names are cut to 19 bytes and route numbers come back as
    0. *)
Theorem file_round_trip icons mkw mkr id time wpts rtes :
  NoDup (map id wpts) ->
  Z.of_nat (length wpts) <= 65536 ->
  Forall (fun rte => (length (rte_waypts rte) <= 50)%nat) rtes ->
  (forall rte w, rte ∈ rtes -> w ∈ rte_waypts rte -> w ∈ wpts) ->
  exists stw st',
    humminbird_write icons mkw mkr id time wpts rtes humminbird_wr_init
      = Ok stw /\
    wr_warnings stw = [] /\
    humminbird_read icons (humminbird_rd_init (hwr_fout (hw stw)))
      = Some (Ok st') /\
    waypts st' = map (read_back icons mkw) wpts /\
    routes st' = routes_read_back icons mkw mkr rtes /\
    tracks st' = [] /\ warnings st' = [].
Proof.
  intros Hnd Hlen Hfit Hin.
  set (st1 := write_waypoints icons mkw id wpts humminbird_wr_init).
  assert (Hfresh : forall w, w ∈ wpts ->
            wpt_id_to_wpt_num_hash humminbird_wr_init !! id w = None)
    by (intros w _; apply lookup_empty).
  pose proof (write_waypoints_fresh icons mkw id wpts humminbird_wr_init
                Hnd Hfresh) as Hhw.
  fold st1 in Hhw. cbn [humminbird_wr_init hw hwr_fout waypoint_num app] in Hhw.
  assert (Hknown : forall rte, rte ∈ rtes -> ids_known id st1 (rte_waypts rte)).
  { intros rte Hr w Hw. apply write_waypoints_registers.
    apply (Hin rte w Hr Hw). }
  destruct (write_waypoints_frame icons mkw id wpts humminbird_wr_init)
    as (Hn1 & _ & Hw1 & _).
  fold st1 in Hn1, Hw1.
  destruct (write_routes_ok mkr id time rtes st1 Hknown Hfit)
    as (stw & Hwr & Hf & _ & _ & Hwarn & _).
  rewrite Hhw, Hn1 in Hf. cbn [hwr_fout humminbird_wr_init rte_num_] in Hf.
  set (file_routes :=
         route_records mkr id time (wpt_id_to_wpt_num_hash st1) rtes 0) in *.
  set (rd := humminbird_rd_init (hwr_fout (hw stw))).
  assert (Erd : gb_rest (fin_ rd)
                = waypoint_records icons mkw wpts 0 ++ file_routes)
    by (subst rd; rewrite Hf; reflexivity).
  destruct (read_waypoint_records_then icons mkw wpts 0 rd file_routes Erd)
    as [Hread1 Hrest1].
  destruct (reader_after_frame icons mkw wpts 0 rd) as (Hw2 & Hr2 & Ht2 & Hwn2).
  destruct (read_route_records icons mkw mkr id time
              (wpt_id_to_wpt_num_hash st1) rtes 0
              (reader_after icons mkw wpts 0 rd) Hfit Hrest1)
    as (st' & Hread2 & Hw3 & Ht3 & Hwn3 & Hr3).
  { intros rte w Hr Hw.
    pose proof (Hin rte w Hr Hw) as Hmem.
    apply list_elem_of_lookup in Hmem as [k Hk].
    pose proof (lookup_lt_Some _ _ _ Hk) as Hklt.
    unfold known_num, st1.
    rewrite (write_waypoints_fresh_hash icons mkw id wpts humminbird_wr_init
               k w Hnd Hfresh Hk).
    cbn [humminbird_wr_init hw waypoint_num default from_option].
    cbv [Datatypes.id].
    unfold to_uint16. rewrite Z.mod_small by lia.
    apply reader_after_hash; [lia | lia | exact Hk]. }
  exists stw, st'.
  split.
  { unfold humminbird_write. fold st1.
    rewrite write_route_waypoints_known by exact Hknown. exact Hwr. }
  split; [rewrite Hwarn, Hw1; reflexivity|].
  split; [fold rd; rewrite Hread1; exact Hread2|].
  split; [rewrite Hw3, Hw2; reflexivity|].
  split; [rewrite Hr3, Hr2; reflexivity|].
  split; [rewrite Ht3, Ht2; reflexivity|].
  rewrite Hwn3, Hwn2. reflexivity.
Qed.

Lemma file_round_trip_witness :
  NoDup (map sample_id sample_wpts) /\
  Z.of_nat (length sample_wpts) <= 65536 /\
  Forall (fun rte => (length (rte_waypts rte) <= 50)%nat)
    [sample_route; long_route 0] /\
  (forall rte w, rte ∈ [sample_route; long_route 0] ->
                 w ∈ rte_waypts rte -> w ∈ sample_wpts) /\
  exists stw st',
    humminbird_write sample_icons shortname (fun name => name) sample_id 0
      sample_wpts [sample_route; long_route 0] humminbird_wr_init = Ok stw /\
    humminbird_read sample_icons (humminbird_rd_init (hwr_fout (hw stw)))
      = Some (Ok st') /\
    length (waypts st') = 2%nat /\ length (routes st') = 1%nat.
Proof.
  assert (H1 : NoDup (map sample_id sample_wpts)).
  { apply (bool_decide_unpack _). vm_compute. exact I. }
  assert (H2 : Z.of_nat (length sample_wpts) <= 65536) by (simpl; lia).
  assert (H3 : Forall (fun rte => (length (rte_waypts rte) <= 50)%nat)
                 [sample_route; long_route 0]).
  { apply (bool_decide_unpack _). vm_compute. exact I. }
  assert (H4 : forall rte w, rte ∈ [sample_route; long_route 0] ->
                 w ∈ rte_waypts rte -> w ∈ sample_wpts).
  { intros rte w Hr Hw.
    apply elem_of_cons in Hr as [-> | Hr]; [exact Hw|].
    apply elem_of_cons in Hr as [-> | Hr].
    - cbn in Hw. apply elem_of_nil in Hw. contradiction.
    - apply elem_of_nil in Hr. contradiction. }
  repeat (split; [assumption|]).
  destruct (file_round_trip sample_icons shortname (fun name => name)
              sample_id 0 sample_wpts _ H1 H2 H3 H4)
    as (stw & st' & Hw & _ & Hr & Hwp & Hrt & _).
  exists stw, st'. split; [exact Hw|]. split; [exact Hr|].
  rewrite Hwp, Hrt. split; reflexivity.
Defined.

Lemma written_route_read_back_witness :
  (1 <= length sample_wpts <= 50)%nat /\
  gb_rest (fin_ sample_rte_record_reader) = sample_rte_record ++ [] /\
  exists st',
    read_record [] sample_rte_record_reader = inl (Ok st') /\
    map rte_waypts (routes st') = [[sample_wpt None]].
Proof.
  assert (H1 : (1 <= length sample_wpts <= 50)%nat) by (simpl; lia).
  assert (H2 : gb_rest (fin_ sample_rte_record_reader) = sample_rte_record ++ [])
    by reflexivity.
  split; [exact H1|]. split; [exact H2|].
  destruct (written_route_read_back [] (fun name => name) sample_id 0
              sample_id_hash sample_wpts 3 [82; 49]
              sample_rte_record_reader [] H1 H2)
    as (st' & Hr & _ & _ & _ & Hroutes & _).
  exists st'. split; [exact Hr|]. rewrite Hroutes. vm_compute. reflexivity.
Defined.

(** ** The track encoder, point by point *)

Lemma track_cb_first wpt st h :
  trk_head st = Some h ->
  th_num_points h = 0 ->
  humminbird_track_cb wpt st
  = Ok {| fout_ := fout_ st;
          trk_head := Some (first_header h wpt);
          trk_points := trk_points st;
          last_time := next_time (last_time st) wpt;
          last_east := to_int32 (east wpt);
          last_north := to_int32 (north wpt) |}.
Proof.
  intros Hh H0. unfold humminbird_track_cb. rewrite Hh, H0.
  cbn [Z.eqb mbind outcome_bind]. unfold first_header, next_time.
  rewrite H0. reflexivity.
Qed.

Lemma track_cb_next wpt st h :
  trk_head st = Some h ->
  0 < th_num_points h <= Z.of_nat (length (trk_points st)) ->
  humminbird_track_cb wpt st
  = Ok {| fout_ := fout_ st;
          trk_head := Some (next_header h wpt);
          trk_points :=
            <[Z.to_nat (th_num_points h - 1) :=
                make_point (last_east st) (last_north st) wpt]> (trk_points st);
          last_time := next_time (last_time st) wpt;
          last_east := to_int32 (east wpt);
          last_north := to_int32 (north wpt) |}.
Proof.
  intros Hh Hi. unfold humminbird_track_cb. rewrite Hh.
  destruct (th_num_points h =? 0) eqn:E0; [apply Z.eqb_eq in E0; lia|].
  assert (Hj : (Z.to_nat (th_num_points h - 1) < length (trk_points st))%nat)
    by lia.
  apply Nat.ltb_lt in Hj. rewrite Hj. reflexivity.
Qed.

Lemma track_cb_all_rest wpts : forall st h done m,
  trk_head st = Some h ->
  th_num_points h = Z.of_nat (length done) + 1 ->
  trk_points st = done ++ replicate m zero_point ->
  (length wpts <= m)%nat ->
  Z.of_nat (length done) + 1 + Z.of_nat (length wpts) < 65536 ->
  track_cb_all wpts st
  = Ok {| fout_ := fout_ st;
          trk_head := Some (foldl next_header h wpts);
          trk_points :=
            done ++ encode_points (last_east st) (last_north st) wpts
            ++ replicate (m - length wpts) zero_point;
          last_time := foldl next_time (last_time st) wpts;
          last_east := foldl next_east (last_east st) wpts;
          last_north := foldl next_north (last_north st) wpts |} /\
  th_num_points (foldl next_header h wpts)
  = Z.of_nat (length done) + 1 + Z.of_nat (length wpts).
Proof.
  induction wpts as [|w wpts IH]; intros st h done m Hh Hc Hp Hfit Hw.
  - cbn [track_cb_all foldl encode_points length app].
    rewrite Nat.sub_0_r, <- Hp, <- Hh. split; [destruct st; reflexivity | lia].
  - cbn [track_cb_all foldl length] in *.
    rewrite (track_cb_next w st h Hh)
      by (rewrite Hp, length_app, length_replicate; lia).
    cbn [mbind outcome_bind].
    destruct m as [|m]; [lia|].
    assert (Hcount : th_num_points (next_header h w)
                     = Z.of_nat (length (done ++ [make_point (last_east st)
                                                    (last_north st) w])) + 1).
    { unfold next_header. cbn [th_num_points]. rewrite Hc.
      unfold to_uint16. rewrite Z.mod_small by lia.
      rewrite length_app. cbn [length]. lia. }
    match goal with
    | |- context [track_cb_all wpts ?s] =>
      destruct (IH s (next_header h w)
                  (done ++ [make_point (last_east st) (last_north st) w]) m
                  eq_refl Hcount) as [Hr Hn]
    end.
    + cbn [trk_points]. rewrite Hc, Hp.
      replace (Z.to_nat (Z.of_nat (length done) + 1 - 1)) with (length done)
        by lia.
      rewrite insert_app_r_alt by lia. rewrite Nat.sub_diag.
      cbn [replicate insert list_insert]. rewrite <- app_assoc. reflexivity.
    + lia.
    + rewrite length_app. cbn [length]. lia.
    + split.
      * rewrite Hr. cbn [fout_ last_time last_east last_north encode_points].
        unfold next_east at 2, next_north at 2.
        rewrite <- !app_assoc. cbn [app].
        replace (S m - S (length wpts))%nat with (m - length wpts)%nat by lia.
        reflexivity.
      * rewrite Hn, length_app. cbn [length]. lia.
Qed.

Lemma write_track_points mk trk st w0 rest :
  rte_waypts trk = w0 :: rest ->
  Z.of_nat (length rest) <= max_points ->
  write_track mk trk st
  = Ok {| fout_ :=
            fout_ st
            ++ track_record
                 (foldl next_header (first_header (fresh_header mk trk) w0) rest)
                 (encode_points (to_int32 (east w0)) (to_int32 (north w0)) rest
                  ++ replicate (Z.to_nat max_points - length rest) zero_point)
                 (foldl next_time (next_time 0 w0) rest)
                 (foldl next_east (to_int32 (east w0)) rest)
                 (foldl next_north (to_int32 (north w0)) rest);
          trk_head := None; trk_points := [];
          last_time := foldl next_time (next_time 0 w0) rest;
          last_east := foldl next_east (to_int32 (east w0)) rest;
          last_north := foldl next_north (to_int32 (north w0)) rest |} /\
  th_num_points (foldl next_header (first_header (fresh_header mk trk) w0) rest)
  = 1 + Z.of_nat (length rest).
Proof.
  intros Hw Hfit. unfold write_track, humminbird_track_head. rewrite Hw.
  cbn [track_cb_all].
  rewrite (track_cb_first w0 _ (fresh_header mk trk)) by reflexivity.
  cbn [mbind outcome_bind fout_ trk_points last_time].
  rewrite max_points_eq in Hfit.
  match goal with
  | |- context [track_cb_all rest ?s] =>
    destruct (track_cb_all_rest rest s
                (first_header (fresh_header mk trk) w0) []
                (Z.to_nat max_points) eq_refl eq_refl eq_refl) as [Hr Hn]
  end.
  - rewrite max_points_eq. lia.
  - cbn [length]. lia.
  - rewrite Hr. cbn [mbind outcome_bind length] in *. split; [|lia].
    unfold humminbird_track_tail.
    cbn [trk_head fout_ trk_points last_time last_east last_north app].
    reflexivity.
Qed.

(** What the point loop leaves in the header. *)
Lemma foldl_next_header_kept wpts : forall h,
  th_trk_num (foldl next_header h wpts) = th_trk_num h /\
  th_name (foldl next_header h wpts) = th_name h /\
  th_start_east (foldl next_header h wpts) = th_start_east h /\
  th_start_north (foldl next_header h wpts) = th_start_north h.
Proof.
  induction wpts as [|w wpts IH]; intros h; [repeat split|].
  cbn [foldl]. destruct (IH (next_header h w)) as (H1 & H2 & H3 & H4).
  rewrite H1, H2, H3, H4. repeat split.
Qed.

Lemma if_ltb_min a b : (if a <? b then a else b) = Z.min a b.
Proof. destruct (a <? b) eqn:E; [apply Z.ltb_lt in E | apply Z.ltb_ge in E]; lia. Qed.

Lemma if_gtb_max a b : (if a >? b then a else b) = Z.max a b.
Proof.
  rewrite Z.gtb_ltb.
  destruct (b <? a) eqn:E; [apply Z.ltb_lt in E | apply Z.ltb_ge in E]; lia.
Qed.

(** The box of the header holds the old box and every point seen since. *)
Lemma foldl_next_header_box wpts : forall h,
  let h' := foldl next_header h wpts in
  (th_sw_east h' <= th_sw_east h /\ th_ne_east h <= th_ne_east h' /\
   th_sw_north h' <= th_sw_north h /\ th_ne_north h <= th_ne_north h') /\
  forall w, w ∈ wpts ->
    th_sw_east h' <= to_int32 (east w) <= th_ne_east h' /\
    th_sw_north h' <= to_int32 (north w) <= th_ne_north h'.
Proof.
  induction wpts as [|w wpts IH]; intros h; cbv zeta.
  - cbn [foldl]. split; [lia|]. intros w Hw. inversion Hw.
  - cbn [foldl]. destruct (IH (next_header h w)) as [Hb Hin].
    cbv zeta in Hb, Hin.
    set (h' := foldl next_header (next_header h w) wpts) in *.
    unfold next_header in Hb.
    cbn [th_sw_east th_ne_east th_sw_north th_ne_north] in Hb.
    rewrite !if_ltb_min, !if_gtb_max in Hb.
    split; [lia|]. intros w' Hw'. apply elem_of_cons in Hw' as [->|Hw'].
    + lia.
    + apply Hin. exact Hw'.
Qed.

(** Every corner of the box is the old one or the coordinate of a point. *)
Lemma foldl_next_header_tight wpts : forall h,
  let h' := foldl next_header h wpts in
  (th_sw_east h' = th_sw_east h \/
   exists w, w ∈ wpts /\ th_sw_east h' = to_int32 (east w)) /\
  (th_ne_east h' = th_ne_east h \/
   exists w, w ∈ wpts /\ th_ne_east h' = to_int32 (east w)) /\
  (th_sw_north h' = th_sw_north h \/
   exists w, w ∈ wpts /\ th_sw_north h' = to_int32 (north w)) /\
  (th_ne_north h' = th_ne_north h \/
   exists w, w ∈ wpts /\ th_ne_north h' = to_int32 (north w)).
Proof.
  induction wpts as [|w wpts IH]; intros h; cbv zeta.
  - cbn [foldl]. repeat split; left; reflexivity.
  - cbn [foldl]. destruct (IH (next_header h w)) as (H1 & H2 & H3 & H4).
    cbv zeta in H1, H2, H3, H4.
    set (h' := foldl next_header (next_header h w) wpts) in *.
    unfold next_header in H1, H2, H3, H4.
    cbn [th_sw_east th_ne_east th_sw_north th_ne_north] in H1, H2, H3, H4.
    assert (later : forall (P : Waypoint -> Prop),
              (exists w', w' ∈ wpts /\ P w') ->
              exists w', w' ∈ w :: wpts /\ P w').
    { intros P (w' & Hw' & HP). exists w'. split; [|exact HP].
      apply elem_of_cons. right. exact Hw'. }
    assert (here : forall w', w' ∈ w :: wpts <-> w' = w \/ w' ∈ wpts)
      by (intros; apply elem_of_cons).
    assert (pick : forall (c : bool) (v a b : Z) (f : Waypoint -> Z),
              v = (if c then a else b) -> a = f w ->
              v = b \/ exists w', w' ∈ w :: wpts /\ v = f w').
    { intros c v a b f Hv Ha. destruct c; [right | left; exact Hv].
      exists w. split; [apply here; left; reflexivity | congruence]. }
    repeat split.
    + destruct H1 as [H1|H1]; [|right; apply later; exact H1].
      exact (pick _ _ _ _ (fun w' => to_int32 (east w')) H1 eq_refl).
    + destruct H2 as [H2|H2]; [|right; apply later; exact H2].
      exact (pick _ _ _ _ (fun w' => to_int32 (east w')) H2 eq_refl).
    + destruct H3 as [H3|H3]; [|right; apply later; exact H3].
      exact (pick _ _ _ _ (fun w' => to_int32 (north w')) H3 eq_refl).
    + destruct H4 as [H4|H4]; [|right; apply later; exact H4].
      exact (pick _ _ _ _ (fun w' => to_int32 (north w')) H4 eq_refl).
Qed.

(** The time kept is that of the last point that has one. *)
Lemma foldl_next_time wpts : forall t,
  foldl next_time t wpts = default t (last (omap creation_time wpts)).
Proof.
  induction wpts as [|w wpts IH]; intros t; [reflexivity|].
  cbn [foldl omap list_omap]. rewrite IH. unfold next_time.
  destruct (creation_time w) as [t'|]; [|reflexivity].
  rewrite last_cons. destruct (last (omap creation_time wpts)); reflexivity.
Qed.

Lemma foldl_next_east wpts : forall e,
  foldl next_east e wpts
  = default e ((fun w => to_int32 (east w)) <$> last wpts).
Proof.
  induction wpts as [|w wpts IH]; intros e; [reflexivity|].
  cbn [foldl]. rewrite IH, last_cons. unfold next_east.
  destruct (last wpts); reflexivity.
Qed.

Lemma foldl_next_north wpts : forall n,
  foldl next_north n wpts
  = default n ((fun w => to_int32 (north w)) <$> last wpts).
Proof.
  induction wpts as [|w wpts IH]; intros n; [reflexivity|].
  cbn [foldl]. rewrite IH, last_cons. unfold next_north.
  destruct (last wpts); reflexivity.
Qed.

Lemma encode_points_length wpts : forall e n,
  length (encode_points e n wpts) = length wpts.
Proof.
  induction wpts as [|w wpts IH]; intros e n; [reflexivity|].
  cbn [encode_points length]. rewrite IH. reflexivity.
Qed.

(** X12.  A track of 1 to 21836 points is written as one record: the
    signature, a header, 21835 cells and a zero word.  The header holds the
    number of points, the track number (16 bits), the first point as the
    start, the last point as the end, the time of the last point that has
    one (0 when none has), and the bounding box of the points: every point
    lies in it and each of its four sides goes through a point. *)
Theorem write_track_header mk trk st w0 rest wl :
  rte_waypts trk = w0 :: rest ->
  Z.of_nat (length rest) <= max_points ->
  last (w0 :: rest) = Some wl ->
  exists st' h cells,
    write_track mk trk st = Ok st' /\
    fout_ st'
    = fout_ st ++ be_write32 TRK_MAGIC ++ header_bytes h
      ++ points_bytes cells ++ be_write16 0 /\
    length cells = Z.to_nat max_points /\
    th_num_points h = Z.of_nat (length (rte_waypts trk)) /\
    th_trk_num h = to_uint16 (rte_num trk) /\
    th_name h = strncpy_field (Z.to_nat TRK_NAME_LEN) (mk (rte_name trk)) /\
    (th_start_east h = to_int32 (east w0) /\
     th_start_north h = to_int32 (north w0)) /\
    (th_end_east h = to_int32 (east wl) /\
     th_end_north h = to_int32 (north wl)) /\
    th_time h = default 0 (last (omap creation_time (rte_waypts trk))) /\
    (forall w, w ∈ rte_waypts trk ->
       th_sw_east h <= to_int32 (east w) <= th_ne_east h /\
       th_sw_north h <= to_int32 (north w) <= th_ne_north h) /\
    (exists w, w ∈ rte_waypts trk /\ th_sw_east h = to_int32 (east w)) /\
    (exists w, w ∈ rte_waypts trk /\ th_ne_east h = to_int32 (east w)) /\
    (exists w, w ∈ rte_waypts trk /\ th_sw_north h = to_int32 (north w)) /\
    (exists w, w ∈ rte_waypts trk /\ th_ne_north h = to_int32 (north w)).
Proof.
  intros Hw Hfit Hl.
  destruct (write_track_points mk trk st w0 rest Hw Hfit) as [Hr Hn].
  set (h1 := first_header (fresh_header mk trk) w0) in *.
  set (h2 := foldl next_header h1 rest) in *.
  destruct (foldl_next_header_kept rest h1) as (K1 & K2 & K3 & K4).
  destruct (foldl_next_header_box rest h1) as [Hb Hin].
  destruct (foldl_next_header_tight rest h1) as (T1 & T2 & T3 & T4).
  cbv zeta in Hb, Hin, T1, T2, T3, T4. fold h2 in K1, K2, K3, K4, Hb, Hin, T1, T2, T3, T4.
  assert (Hlast : foldl next_east (to_int32 (east w0)) rest = to_int32 (east wl)
                  /\ foldl next_north (to_int32 (north w0)) rest
                     = to_int32 (north wl)).
  { rewrite foldl_next_east, foldl_next_north.
    rewrite last_cons in Hl.
    destruct (last rest); injection Hl as <-; split; reflexivity. }
  destruct Hlast as [Le Ln].
  assert (later : forall (P : Waypoint -> Prop),
            (exists w', w' ∈ rest /\ P w') ->
            exists w', w' ∈ rte_waypts trk /\ P w').
  { intros P (w' & Hw' & HP). exists w'. split; [|exact HP].
    rewrite Hw. apply elem_of_cons. right. exact Hw'. }
  assert (first : forall (P : Waypoint -> Prop), P w0 ->
            exists w', w' ∈ rte_waypts trk /\ P w').
  { intros P HP. exists w0. split; [|exact HP].
    rewrite Hw. apply elem_of_cons. left. reflexivity. }
  eexists _, (final_header h2 _ _ _), _. split; [exact Hr|].
  cbn [fout_]. split; [unfold track_record, final_header; reflexivity|].
  split.
  { rewrite length_app, length_replicate.
    rewrite encode_points_length.
    rewrite max_points_eq in *. lia. }
  cbn [final_header th_num_points th_trk_num th_name th_start_east
       th_start_north th_end_east th_end_north th_time th_sw_east th_sw_north
       th_ne_east th_ne_north].
  rewrite K1, K2, K3, K4, Le, Ln, Hn, Hw.
  split; [cbn [length]; lia|].
  split; [reflexivity|]. split; [reflexivity|].
  split; [split; reflexivity|]. split; [split; reflexivity|].
  split.
  { rewrite foldl_next_time. cbn [omap list_omap]. unfold next_time.
    destruct (creation_time w0) as [t|]; [|reflexivity].
    rewrite last_cons. destruct (last (omap creation_time rest)); reflexivity. }
  rewrite <- Hw.
  split.
  { intros w Hin'. rewrite Hw in Hin'. apply elem_of_cons in Hin' as [->|Hin'].
    - unfold h1 in Hb. cbn [first_header th_sw_east th_ne_east th_sw_north
                            th_ne_north] in Hb. lia.
    - apply Hin. exact Hin'. }
  unfold h1 in T1, T2, T3, T4.
  cbn [first_header th_sw_east th_ne_east th_sw_north th_ne_north]
    in T1, T2, T3, T4.
  repeat split.
  - destruct T1 as [T|T]; [apply first; exact T | apply later; exact T].
  - destruct T2 as [T|T]; [apply first; exact T | apply later; exact T].
  - destruct T3 as [T|T]; [apply first; exact T | apply later; exact T].
  - destruct T4 as [T|T]; [apply first; exact T | apply later; exact T].
Qed.

Lemma write_track_header_witness :
  exists st' h cells,
    write_track (fun name => name) sample_trk ht_init = Ok st' /\
    fout_ st'
    = be_write32 TRK_MAGIC ++ header_bytes h
      ++ points_bytes cells ++ be_write16 0 /\
    length cells = Z.to_nat max_points /\
    th_num_points h = 3 /\ th_trk_num h = 3 /\ th_time h = 1000 /\
    (th_start_east h = 100 /\ th_start_north h = 200) /\
    (th_end_east h = 90 /\ th_end_north h = 210).
Proof.
  assert (Hfit : Z.of_nat (length (tl (rte_waypts sample_trk))) <= max_points)
    by (rewrite max_points_eq; vm_compute; discriminate).
  destruct (write_track_header (fun name => name) sample_trk ht_init
              _ _ _ eq_refl Hfit eq_refl)
    as (st' & h & cells & Hr & Hf & Hl & Hn & Ht & _ & Hs & He & Htime & _).
  exists st', h, cells.
  split; [exact Hr|]. split; [exact Hf|]. split; [exact Hl|].
  split; [exact Hn|]. split; [exact Ht|]. split; [exact Htime|].
  split; [exact Hs | exact He].
Defined.

(** ** A written track, read *)

Lemma parse_point_bytes p : cell_ok p -> parse_trk_point (point_bytes p) = p.
Proof.
  intros (He & Hn & Hd). unfold parse_trk_point, point_bytes.
  change (field (be_write16 (deltaeast p) ++ be_write16 (deltanorth p)
                 ++ be_write16 (pt_depth p)) 0 2)
    with (be_write16 (deltaeast p)).
  change (field (be_write16 (deltaeast p) ++ be_write16 (deltanorth p)
                 ++ be_write16 (pt_depth p)) 2 2)
    with (be_write16 (deltanorth p)).
  change (field (be_write16 (deltaeast p) ++ be_write16 (deltanorth p)
                 ++ be_write16 (pt_depth p)) 4 2)
    with (be_write16 (pt_depth p)).
  rewrite !be_read16_write16. unfold to_uint16.
  rewrite !Z.mod_small by lia. destruct p; reflexivity.
Qed.

Lemma points_array_written n cells :
  length cells = (n - 1)%nat -> (1 <= n)%nat -> Forall cell_ok cells ->
  points_array n (points_bytes cells) = cells ++ [zero_point].
Proof.
  intros Hl Hn Hok. apply list_eq. intros i.
  assert (Hb : length (points_bytes cells) = (6 * (n - 1))%nat)
    by (rewrite points_bytes_length, Hl; reflexivity).
  destruct (Nat.lt_ge_cases (S i) n) as [Hi|Hi].
  - rewrite points_array_body by assumption.
    destruct (lookup_lt_is_Some_2 cells i) as [c Hc]; [lia|].
    rewrite lookup_app_l by lia. rewrite Hc. f_equal.
    unfold field. rewrite (points_bytes_slot cells i c Hc).
    apply parse_point_bytes.
    rewrite Forall_lookup in Hok. exact (Hok i c Hc).
  - destruct (Nat.eq_dec i (n - 1)%nat) as [->|Hne].
    + rewrite points_array_spare by assumption.
      rewrite lookup_app_r by lia. rewrite Hl, Nat.sub_diag. reflexivity.
    + rewrite !lookup_ge_None_2; [reflexivity | |].
      * rewrite length_app. cbn [length]. lia.
      * rewrite points_array_length. lia.
Qed.

Lemma encode_points_ok wpts : forall e n,
  Forall cell_ok (encode_points e n wpts).
Proof.
  induction wpts as [|w wpts IH]; intros e n; [constructor|].
  cbn [encode_points]. constructor; [|apply IH].
  unfold cell_ok, make_point, depth_cm.
  cbn [deltaeast deltanorth pt_depth].
  repeat split; apply to_uint16_range.
Qed.

Lemma encode_points_east wpts : forall e n,
  Forall (fun d => -32768 <= d < 32768)
    (deltas e (map (fun w => to_int32 (east w)) wpts)) ->
  map (fun p => to_int16 (deltaeast p)) (encode_points e n wpts)
  = deltas e (map (fun w => to_int32 (east w)) wpts).
Proof.
  induction wpts as [|w wpts IH]; intros e n Hd; [reflexivity|].
  cbn [encode_points map deltas] in *. apply Forall_cons in Hd as [H1 H2].
  rewrite IH by exact H2. cbn [make_point deltaeast].
  rewrite to_int16_to_uint16 by exact H1. reflexivity.
Qed.

Lemma encode_points_north wpts : forall e n,
  Forall (fun d => -32768 <= d < 32768)
    (deltas n (map (fun w => to_int32 (north w)) wpts)) ->
  map (fun p => to_int16 (deltanorth p)) (encode_points e n wpts)
  = deltas n (map (fun w => to_int32 (north w)) wpts).
Proof.
  induction wpts as [|w wpts IH]; intros e n Hd; [reflexivity|].
  cbn [encode_points map deltas] in *. apply Forall_cons in Hd as [H1 H2].
  rewrite IH by exact H2. cbn [make_point deltanorth].
  rewrite to_int16_to_uint16 by exact H1. reflexivity.
Qed.

Lemma encode_points_lookup wpts : forall e n k w,
  wpts !! k = Some w ->
  exists c, encode_points e n wpts !! k = Some c /\
            pt_depth c = depth_cm (depth w).
Proof.
  induction wpts as [|a wpts IH]; intros e n k w Hk; [discriminate|].
  cbn [encode_points]. destruct k as [|k].
  - injection Hk as ->. eexists. split; reflexivity.
  - apply (IH _ _ k w Hk).
Qed.

Lemma accumulate_deltas vs : forall prev,
  Forall (fun v => to_int32 v = v) vs ->
  accumulate prev (deltas prev vs) = vs.
Proof.
  induction vs as [|v vs IH]; intros prev Hv; [reflexivity|].
  apply Forall_cons in Hv as [H1 H2]. cbn [deltas accumulate].
  replace (prev + (v - prev)) with v by lia. rewrite H1, IH by exact H2.
  reflexivity.
Qed.

Lemma freak_pair_spare ds :
  (forall k, freak_pair ds k = false) ->
  forall k, freak_pair (ds ++ [0]) k = false.
Proof.
  induction ds as [|d ds IH]; intros Hno k.
  - destruct k as [|[|k]]; reflexivity.
  - destruct k as [|k].
    + destruct ds as [|b ds].
      * cbn [app]. rewrite freak_pair_0.
        rewrite andb_false_r. reflexivity.
      * specialize (Hno 0%nat). cbn [app]. rewrite freak_pair_0 in *. exact Hno.
    + cbn [app]. rewrite freak_pair_cons. apply IH.
      intros j. specialize (Hno (S j)). rewrite freak_pair_cons in Hno.
      exact Hno.
Qed.

Lemma decode_encoded_axis (f : Waypoint -> Z) (g : humminbird_trk_point_t -> Z)
    prev w1 ws cells :
  g zero_point = 0 ->
  map (fun p => to_int16 (g p)) cells = deltas prev (map f (w1 :: ws)) ->
  (forall k, freak_pair (deltas prev (map f (w1 :: ws))) k = false) ->
  Forall (fun v => to_int32 v = v) (map f (w1 :: ws)) ->
  accumulate prev
    (filter_axis (to_int16 (g (hd zero_point (cells ++ [zero_point]))))
       (map (fun p => to_int16 (g p)) (tl (cells ++ [zero_point]))))
  = map f (w1 :: ws).
Proof.
  intros Hz Hc Hno Hv.
  destruct cells as [|c0 cs]; [discriminate Hc|].
  cbn [app hd tl]. rewrite map_app. cbn [map]. rewrite Hz.
  change (to_int16 0) with 0.
  pose proof (freak_pair_spare _ Hno) as Hno'. rewrite <- Hc in Hno'.
  cbn [map app] in Hno'.
  rewrite filter_axis_plain by exact Hno'.
  change (to_int16 (g c0) :: map (fun p => to_int16 (g p)) cs)
    with (map (fun p => to_int16 (g p)) (c0 :: cs)).
  rewrite Hc. apply (accumulate_deltas (map f (w1 :: ws)) prev Hv).
Qed.

Lemma track_waypoints_encoded time w0 w1 ws :
  plain_steps (map (fun w => to_int32 (east w)) (w0 :: w1 :: ws)) ->
  plain_steps (map (fun w => to_int32 (north w)) (w0 :: w1 :: ws)) ->
  track_waypoints (Z.of_nat (length (w0 :: w1 :: ws))) time
    (to_int32 (east w0)) (to_int32 (north w0))
    (encode_points (to_int32 (east w0)) (to_int32 (north w0)) (w1 :: ws)
     ++ [zero_point])
  = imap (point_read_back time (length (w0 :: w1 :: ws))) (w0 :: w1 :: ws).
Proof.
  intros [He Hfe] [Hn Hfn].
  set (e0 := to_int32 (east w0)) in *. set (n0 := to_int32 (north w0)) in *.
  set (cells := encode_points e0 n0 (w1 :: ws)).
  set (N := length (w0 :: w1 :: ws)).
  assert (Hidem : forall f, Forall (fun v => to_int32 v = v)
                              (map (fun w => to_int32 (f w)) (w1 :: ws))).
  { intros f. apply Forall_forall. intros v Hv.
    apply list_elem_of_fmap in Hv as (w & -> & _). apply to_int32_idem. }
  pose proof (decode_encoded_axis (fun w => to_int32 (east w)) deltaeast
                e0 w1 ws cells eq_refl
                (encode_points_east (w1 :: ws) e0 n0 He) Hfe (Hidem east))
    as Heast.
  pose proof (decode_encoded_axis (fun w => to_int32 (north w)) deltanorth
                n0 w1 ws cells eq_refl
                (encode_points_north (w1 :: ws) e0 n0 Hn) Hfn (Hidem north))
    as Hnorth.
  unfold track_waypoints.
  rewrite <- decode_cells_east
    with (num_points := Z.of_nat N) (time := time) (i := 0%nat) (an := n0)
    in Heast.
  rewrite <- decode_cells_north
    with (num_points := Z.of_nat N) (time := time) (i := 0%nat) (ae := e0)
    in Hnorth.
  set (out := decode_cells 0 (Z.of_nat N) time
                (hd zero_point (cells ++ [zero_point]))
                (tl (cells ++ [zero_point])) e0 n0) in *.
  assert (Hlc : length (tl (cells ++ [zero_point])) = length (w1 :: ws)).
  { subst cells. cbn [encode_points app tl].
    rewrite length_app, encode_points_length. cbn [length]. lia. }
  apply list_eq. intros [|k].
  - cbn [imap lookup list_lookup]. unfold point_read_back.
    cbn [Nat.eqb negb orb]. rewrite andb_false_r. reflexivity.
  - rewrite lookup_cons_S. rewrite list_lookup_imap.
    rewrite lookup_cons_S.
    destruct (Nat.lt_ge_cases k (length (w1 :: ws))) as [Hk|Hk].
    + destruct (lookup_lt_is_Some_2 (w1 :: ws) k Hk) as [x Hx].
      rewrite Hx. cbn [fmap option_fmap option_map].
      destruct (decode_cells_lookup (Z.of_nat N) time
                  (tl (cells ++ [zero_point])) 0
                  (hd zero_point (cells ++ [zero_point])) e0 n0 k)
        as (w & c & Hw & Hc & Ht & Hd & Hs & Hi); [lia|].
      fold out in Hw. rewrite Hw. f_equal.
      assert (Hwe : east w = to_int32 (east x)).
      { assert (H := f_equal (fun l => l !! k) Heast). cbn beta in H.
        rewrite !list_lookup_fmap, Hw, Hx in H. injection H as H. exact H. }
      assert (Hwn : north w = to_int32 (north x)).
      { assert (H := f_equal (fun l => l !! k) Hnorth). cbn beta in H.
        rewrite !list_lookup_fmap, Hw, Hx in H. injection H as H. exact H. }
      assert (Hcd : pt_depth c = depth_cm (depth x)).
      { destruct (encode_points_lookup (w1 :: ws) e0 n0 k x Hx)
          as (c' & Hc' & Hd').
        fold cells in Hc'.
        assert (Hcc : (cells ++ [zero_point]) !! k = Some c).
        { subst cells. cbn [encode_points app hd tl] in Hc. exact Hc. }
        rewrite lookup_app_l in Hcc
          by (subst cells; rewrite encode_points_length; exact Hk).
        congruence. }
      destruct w as [ws' wt wn we wd wi]. cbn in Hwe, Hwn, Ht, Hd, Hs, Hi.
      unfold point_read_back. subst ws' wi we wn wt wd. f_equal.
      * cbn [Nat.eqb negb]. rewrite andb_true_r. f_equal.
        subst N. cbn [length Nat.add].
        destruct (Z.eqb_spec (Z.of_nat k) (Z.of_nat (S (S (length ws))) - 2));
          destruct (Nat.eqb_spec k (length ws));
          try reflexivity; lia.
      * rewrite Hcd. unfold depth_cm. rewrite to_uint16_idem.
        cbn [Nat.eqb orb]. reflexivity.
    + rewrite (lookup_ge_None_2 (w1 :: ws)) by exact Hk.
      apply lookup_ge_None_2. subst out. rewrite decode_cells_length. lia.
Qed.

Lemma points_bytes_app a b :
  points_bytes (a ++ b) = points_bytes a ++ points_bytes b.
Proof. unfold points_bytes. rewrite map_app, concat_app. reflexivity. Qed.

Lemma header_fields h :
  length (th_name h) = 20%nat ->
  field (header_bytes h) 0 2 = be_write16 (th_trk_num h) /\
  field (header_bytes h) 4 2 = be_write16 (th_num_points h) /\
  field (header_bytes h) 8 4 = be_write32 (th_time h) /\
  field (header_bytes h) 12 4 = be_write32 (th_start_east h) /\
  field (header_bytes h) 16 4 = be_write32 (th_start_north h) /\
  field (header_bytes h) 44 20 = th_name h.
Proof.
  intros Hn. repeat split.
  change (field (header_bytes h) 44 20) with (take 20 (th_name h)).
  apply take_all. lia.
Qed.

(** A record whose header is [h] and whose first cells encode the points
    after [w0], read by the dispatcher. *)
Lemma read_record_encoded_track icons h w0 w1 ws st rest :
  length (th_name h) = 20%nat ->
  th_start_east h = to_int32 (east w0) ->
  th_start_north h = to_int32 (north w0) ->
  check_num_points (to_uint16 (th_num_points h))
  = Ok (Z.of_nat (length (w0 :: w1 :: ws))) ->
  plain_steps (map (fun w => to_int32 (east w)) (w0 :: w1 :: ws)) ->
  plain_steps (map (fun w => to_int32 (north w)) (w0 :: w1 :: ws)) ->
  gb_rest (fin_ st)
  = be_write32 TRK_MAGIC ++ header_bytes h
    ++ points_bytes
         (encode_points (to_int32 (east w0)) (to_int32 (north w0)) (w1 :: ws))
    ++ rest ->
  exists fin',
    read_record icons st
    = inr (Ok (track_add
                 {| rte_name := c_str (th_name h);
                    rte_num := to_uint16 (th_trk_num h);
                    rte_waypts :=
                      imap (point_read_back (to_uint32 (th_time h))
                              (length (w0 :: w1 :: ws)))
                        (w0 :: w1 :: ws) |}
                 (set_fin fin' st))).
Proof.
  intros Hname Hse Hsn Hnum Hpe Hpn E.
  set (cells := encode_points (to_int32 (east w0)) (to_int32 (north w0))
                  (w1 :: ws)) in *.
  destruct (header_fields h Hname) as (F0 & F4 & F8 & F12 & F16 & F44).
  unfold read_record.
  rewrite (gbfgetuint32_enough (fin_ st) TRK_MAGIC
             (header_bytes h ++ points_bytes cells ++ rest))
    by first [exact E | (vm_compute; split; [discriminate | reflexivity])].
  change ((TRK_MAGIC =? WPT_MAGIC) || (TRK_MAGIC =? WPT_MAGIC2)) with false.
  change (TRK_MAGIC =? RTE_MAGIC) with false.
  change (TRK_MAGIC =? TRK_MAGIC) with true. cbv iota.
  rewrite (read_track_full _ (header_bytes h) (points_bytes cells) rest
             (Z.of_nat (length (w0 :: w1 :: ws)))).
  - eexists. f_equal. f_equal. unfold track_add, set_fin.
    cbn [fin_ waypts routes tracks]. f_equal.
    rewrite F0, F8, F12, F16, F44, be_read16_write16, !be_read32_write32,
      !to_int32_to_uint32.
    rewrite Hse, Hsn, !to_int32_idem, Nat2Z.id.
    rewrite points_array_written;
      [ | subst cells; rewrite encode_points_length; cbn [length]; lia
        | cbn [length]; lia
        | apply encode_points_ok ].
    subst cells.
    rewrite (track_waypoints_encoded _ w0 w1 ws Hpe Hpn). reflexivity.
  - cbn [fin_ set_fin]. apply (gb_rest_advance_app _ (be_write32 TRK_MAGIC)).
    exact E.
  - apply header_bytes_length. exact Hname.
  - rewrite F4, be_read16_write16. exact Hnum.
  - cbn [length]. lia.
  - rewrite points_bytes_length. subst cells. rewrite encode_points_length.
    cbn [length]. lia.
Qed.

(** The header of a written track. *)
Lemma written_header mk trk w0 rest lt le ln :
  let h := final_header
             (foldl next_header (first_header (fresh_header mk trk) w0) rest)
             lt le ln in
  (Z.of_nat (length rest) < 65535 ->
   length (th_name h) = 20%nat /\
   th_start_east h = to_int32 (east w0) /\
   th_start_north h = to_int32 (north w0) /\
   th_num_points h = Z.of_nat (length (w0 :: rest)) /\
   c_str (th_name h)
   = take (Z.to_nat TRK_NAME_LEN - 1) (c_str (mk (rte_name trk))) /\
   th_trk_num h = to_uint16 (rte_num trk) /\
   th_time h = lt).
Proof.
  intros h Hfit.
  destruct (foldl_next_header_kept rest
              (first_header (fresh_header mk trk) w0)) as (K1 & K2 & K3 & K4).
  destruct (track_cb_all_rest rest
              {| fout_ := [];
                 trk_head := Some (first_header (fresh_header mk trk) w0);
                 trk_points := replicate (length rest) zero_point;
                 last_time := 0; last_east := 0; last_north := 0 |}
              (first_header (fresh_header mk trk) w0) []
              (length rest) eq_refl eq_refl eq_refl) as [_ Hcount];
    [lia | cbn [length] in *; lia |].
  subst h.
  cbn [final_header th_name th_trk_num th_time th_start_east th_start_north
       th_num_points].
  rewrite K1, K2, K3, K4, Hcount.
  cbn [first_header fresh_header th_name th_trk_num th_start_east
       th_start_north].
  repeat split.
  - apply strncpy_field_length.
  - cbn [length]. lia.
  - apply c_str_strncpy_field. vm_compute. lia.
Qed.

Lemma last_time_written w0 rest :
  foldl next_time (next_time 0 w0) rest
  = default 0 (last (omap creation_time (w0 :: rest))).
Proof.
  rewrite foldl_next_time.
  change (omap creation_time (w0 :: rest))
    with (match creation_time w0 with
          | Some t => t :: omap creation_time rest
          | None => omap creation_time rest
          end).
  unfold next_time. destruct (creation_time w0) as [t|]; [|reflexivity].
  rewrite last_cons. destruct (last (omap creation_time rest)); reflexivity.
Qed.

Lemma read_record_written_track icons mk trk w0 w1 ws st m le ln tail :
  rte_waypts trk = w0 :: w1 :: ws ->
  Z.of_nat (length ws) + 2 <= max_points ->
  plain_steps (map (fun w => to_int32 (east w)) (rte_waypts trk)) ->
  plain_steps (map (fun w => to_int32 (north w)) (rte_waypts trk)) ->
  gb_rest (fin_ st)
  = track_record
      (foldl next_header (first_header (fresh_header mk trk) w0) (w1 :: ws))
      (encode_points (to_int32 (east w0)) (to_int32 (north w0)) (w1 :: ws)
       ++ replicate m zero_point)
      (foldl next_time (next_time 0 w0) (w1 :: ws)) le ln ++ tail ->
  exists fin',
    read_record icons st
    = inr (Ok (track_add (track_read_back mk trk) (set_fin fin' st))).
Proof.
  intros Hw Hfit Hpe Hpn E. rewrite max_points_eq in Hfit.
  destruct (written_header mk trk w0 (w1 :: ws)
              (foldl next_time (next_time 0 w0) (w1 :: ws)) le ln)
    as (Hname & Hse & Hsn & Hnum & Hcs & Htn & Htime);
    [cbn [length]; lia|].
  set (h := final_header _ _ _ _) in *.
  rewrite Hw in Hpe, Hpn.
  destruct (read_record_encoded_track icons h w0 w1 ws st
              (points_bytes (replicate m zero_point) ++ be_write16 0 ++ tail)
              Hname Hse Hsn) as [fin' Hr]; try assumption.
  - rewrite Hnum. unfold to_uint16.
    rewrite Z.mod_small by (cbn [length]; lia).
    rewrite check_num_points_cases.
    destruct (_ =? 21836) eqn:E1;
      [apply Z.eqb_eq in E1; cbn [length] in E1; lia|].
    destruct (_ >? 21835) eqn:E2; [|reflexivity].
    rewrite Z.gtb_ltb in E2. apply Z.ltb_lt in E2. cbn [length] in E2. lia.
  - rewrite E. unfold track_record. fold h.
    rewrite points_bytes_app, <- !app_assoc. reflexivity.
  - exists fin'. rewrite Hr. unfold track_read_back.
    rewrite Hcs, Htn, Htime, last_time_written, Hw, to_uint16_idem.
    reflexivity.
Qed.

(** ** Files of tracks *)

Lemma write_track_total mk trk st :
  Z.of_nat (length (rte_waypts trk)) <= max_points + 1 ->
  exists st' more,
    write_track mk trk st = Ok st' /\ fout_ st' = fout_ st ++ more.
Proof.
  intros Hfit. destruct (rte_waypts trk) as [|w0 rest] eqn:Hw.
  - unfold write_track, humminbird_track_head. rewrite Hw.
    cbn [track_cb_all mbind outcome_bind].
    eexists _, []. split; [reflexivity|].
    unfold humminbird_track_tail. cbn [trk_head fout_].
    rewrite app_nil_r. reflexivity.
  - destruct (write_track_points mk trk st w0 rest Hw) as [Hr _];
      [cbn [length] in Hfit; lia|].
    eexists _, _. split; [exact Hr|]. reflexivity.
Qed.

Lemma write_tracks_total mk trks : forall st,
  Forall (fun t => Z.of_nat (length (rte_waypts t)) <= max_points + 1) trks ->
  exists st' more,
    write_tracks mk trks st = Ok st' /\ fout_ st' = fout_ st ++ more.
Proof.
  induction trks as [|t trks IH]; intros st Hall.
  - exists st, []. split; [reflexivity|]. rewrite app_nil_r. reflexivity.
  - apply Forall_cons in Hall as [Ht Hall].
    destruct (write_track_total mk t st Ht) as (st1 & m1 & H1 & F1).
    destruct (IH st1 Hall) as (st2 & m2 & H2 & F2).
    exists st2, (m1 ++ m2). cbn [write_tracks]. rewrite H1.
    cbn [mbind outcome_bind]. split; [exact H2|].
    rewrite F2, F1, app_assoc. reflexivity.
Qed.

Lemma rd_init_rest data :
  gb_rest (fin_ (humminbird_rd_init data)) = data.
Proof. reflexivity. Qed.

(** X13.  A track of 2 to 21835 points whose steps fit 16 bits on both
    axes, with no step of 32767 followed by one of -32768, is read back from
    the file it was written to: same number of points, same coordinates
    (taken as 32-bit integers), the track number cut to 16 bits, the name
    cut to 19 bytes.  The depth of the first point and all times but one are
    lost: the last point carries the time of the last point that had one.
    Tracks written after the first are not read. *)
Theorem tracks_round_trip icons mk trk others :
  (2 <= length (rte_waypts trk))%nat ->
  Z.of_nat (length (rte_waypts trk)) <= max_points ->
  plain_steps (map (fun w => to_int32 (east w)) (rte_waypts trk)) ->
  plain_steps (map (fun w => to_int32 (north w)) (rte_waypts trk)) ->
  Forall (fun t => Z.of_nat (length (rte_waypts t)) <= max_points + 1)
    others ->
  exists stw st',
    write_tracks mk (trk :: others) ht_init = Ok stw /\
    humminbird_read icons (humminbird_rd_init (fout_ stw)) = Some (Ok st') /\
    tracks st' = [track_read_back mk trk] /\
    waypts st' = [] /\ routes st' = [] /\ warnings st' = [].
Proof.
  intros H2 Hfit Hpe Hpn Hall.
  destruct (rte_waypts trk) as [|w0 [|w1 ws]] eqn:Hw;
    [cbn in H2; lia | cbn in H2; lia |].
  cbn [length] in Hfit.
  destruct (write_track_points mk trk ht_init w0 (w1 :: ws) Hw) as [Hr _];
    [cbn [length]; lia|].
  match type of Hr with _ = Ok ?s =>
    destruct (write_tracks_total mk others s Hall) as (stw & more & Hws & Hf)
  end.
  cbn [fout_ ht_init app] in Hf.
  pose proof (rd_init_rest (fout_ stw)) as Hrest. rewrite Hf in Hrest at 2.
  destruct (read_record_written_track icons mk trk w0 w1 ws
              (humminbird_rd_init (fout_ stw))
              (Z.to_nat max_points - length (w1 :: ws))
              (foldl next_east (to_int32 (east w0)) (w1 :: ws))
              (foldl next_north (to_int32 (north w0)) (w1 :: ws)) more Hw)
    as [fin' Hrd];
    [lia | rewrite Hw; exact Hpe | rewrite Hw; exact Hpn | exact Hrest |].
  exists stw. eexists. split.
  { cbn [write_tracks]. rewrite Hr. cbn [mbind outcome_bind]. exact Hws. }
  split.
  { rewrite humminbird_read_unfold.
    rewrite (gbfeof_nonempty _ _ _ Hrest). rewrite Hrd. reflexivity. }
  repeat split.
Qed.

(** X14.  A track of a single point is written as a full record with a point
    count of 1; the reader asks for no cell, takes that for the end of the
    file and stops with the fatal error.  Such a file cannot be read. *)
Theorem single_point_track_unreadable icons mk trk others w0 :
  rte_waypts trk = [w0] ->
  Forall (fun t => Z.of_nat (length (rte_waypts t)) <= max_points + 1)
    others ->
  exists stw,
    write_tracks mk (trk :: others) ht_init = Ok stw /\
    Z.of_nat (length (fout_ stw)) >= 131080 /\
    humminbird_read icons (humminbird_rd_init (fout_ stw))
    = Some (Fatal UnexpectedEOFPoints).
Proof.
  intros Hw Hall.
  destruct (write_track_points mk trk ht_init w0 [] Hw) as [Hr _];
    [rewrite max_points_eq; cbn [length]; lia|].
  match type of Hr with _ = Ok ?s =>
    destruct (write_tracks_total mk others s Hall) as (stw & more & Hws & Hf)
  end.
  cbn [fout_ ht_init app foldl encode_points length] in Hf.
  destruct (written_header mk trk w0 [] (next_time 0 w0)
              (to_int32 (east w0)) (to_int32 (north w0)))
    as (Hname & Hse & Hsn & Hnum & Hcs & Htn & Htime); [cbn [length]; lia|].
  cbn [foldl] in *.
  set (h := final_header _ _ _ _) in *.
  set (cells := replicate (Z.to_nat max_points - 0) zero_point) in *.
  assert (Hrest : gb_rest (fin_ (humminbird_rd_init (fout_ stw)))
                  = be_write32 TRK_MAGIC
                    ++ header_bytes h
                    ++ (points_bytes cells ++ be_write16 0 ++ more)).
  { rewrite rd_init_rest, Hf. unfold track_record. fold h.
    rewrite <- !app_assoc. reflexivity. }
  exists stw. split.
  { cbn [write_tracks]. rewrite Hr. cbn [mbind outcome_bind]. exact Hws. }
  split.
  { rewrite Hf, length_app, Nat2Z.inj_add, track_record_length
      by exact Hname.
    subst cells. rewrite length_replicate, Nat.sub_0_r, max_points_nat. lia. }
  rewrite humminbird_read_unfold.
  rewrite (gbfeof_nonempty _ _ _ Hrest).
  unfold read_record.
  rewrite (gbfgetuint32_enough _ TRK_MAGIC
             (header_bytes h ++ points_bytes cells ++ be_write16 0 ++ more))
    by first [exact Hrest
             | (vm_compute; split; [discriminate | reflexivity])].
  change ((TRK_MAGIC =? WPT_MAGIC) || (TRK_MAGIC =? WPT_MAGIC2)) with false.
  change (TRK_MAGIC =? RTE_MAGIC) with false.
  change (TRK_MAGIC =? TRK_MAGIC) with true. cbv iota.
  assert (E : gb_rest (fin_ (set_fin (gb_advance 4 (fin_ (humminbird_rd_init
                                                        (fout_ stw))))
                               (humminbird_rd_init (fout_ stw))))
              = header_bytes h ++ (points_bytes cells ++ be_write16 0 ++ more)).
  { cbn [fin_ set_fin].
    apply (gb_rest_advance_app _ (be_write32 TRK_MAGIC)). exact Hrest. }
  pose proof (header_bytes_length h Hname) as Hh.
  read_track_header E Hh.
  destruct (header_fields h Hname) as (_ & F4 & _).
  rewrite F4, be_read16_write16, Hnum, check_num_points_cases.
  reflexivity.
Qed.

Lemma tracks_round_trip_witness :
  exists stw st',
    write_tracks (fun name => name) [sample_trk; point_trk] ht_init = Ok stw /\
    humminbird_read sample_icons (humminbird_rd_init (fout_ stw))
    = Some (Ok st') /\
    tracks st' = [track_read_back (fun name => name) sample_trk] /\
    waypts st' = [] /\ routes st' = [] /\ warnings st' = [].
Proof.
  apply (tracks_round_trip sample_icons (fun name => name) sample_trk
           [point_trk]).
  - cbn. lia.
  - rewrite max_points_eq. vm_compute. discriminate.
  - change (plain_steps [100; 130; 90]). cbn [plain_steps deltas].
    split; [| intros [|[|k]]; reflexivity].
    repeat (apply Forall_cons_2; [lia|]). apply Forall_nil_2.
  - change (plain_steps [200; 180; 210]). cbn [plain_steps deltas].
    split; [| intros [|[|k]]; reflexivity].
    repeat (apply Forall_cons_2; [lia|]). apply Forall_nil_2.
  - constructor; [|constructor]. rewrite max_points_eq. vm_compute.
    discriminate.
Defined.

Lemma single_point_track_unreadable_witness :
  exists stw,
    write_tracks (fun name => name) [point_trk] ht_init = Ok stw /\
    Z.of_nat (length (fout_ stw)) >= 131080 /\
    humminbird_read sample_icons (humminbird_rd_init (fout_ stw))
    = Some (Fatal UnexpectedEOFPoints).
Proof.
  apply (single_point_track_unreadable sample_icons (fun name => name)
           point_trk [] new_Waypoint).
  - reflexivity.
  - constructor.
Defined.

(** ** A track that fills the record *)







